(** * StagVault: provider client, response cache, rate limits, ranking
      and the search coordinator

    A shallow embedding of the JavaScript sources

      - [static/js/stagvault.js]     ProviderCache, RateLimitTracker,
                                     ProviderClient; StagVault.search,
                                     searchGrouped, getItem and the
                                     search index
      - [stagvault/static/web/app.js] StagVault.getMatchScore,
                                     performSearch, searchApiProviders;
                                     the sidebar filters, the tree of
                                     sources, the provider settings,
                                     the samples, the zoom
      - [tests/test_strip_html.js]   stripHtml, containsHtmlTags

    Conventions of the embedding.
      - A JavaScript number is a [jsnum]: an exact rational or [NaN]
        (rounding and the infinities are not modelled).  [Date.now()] is
        an integer of milliseconds, passed explicitly as [now].
      - A JavaScript object used as a dictionary is a [gmap], an array
        is a [list].
      - [localStorage] holds the JSON text of the cache index and of the
        cache entries; the embedding keeps the parsed values, so
        [JSON.parse (JSON.stringify v)] is [v].
      - An [async] function is modelled by its outcome, [Fulfilled] or
        [Rejected]; a [throw] inside it is a [Rejected]. *)

From stdpp Require Import base numbers option list gmap strings pretty sorting.
From Stdlib Require Import Ascii String QArith Qcanon Permutation Sorted.

Local Open Scope Z_scope.

(* ================================================================== *)
(** * JavaScript values                                                *)
(* ================================================================== *)

Module JS.

(** Numbers: a rational, or NaN. *)
Inductive jsnum : Type :=
| Num (q : Qc)
| NaN.

Definition of_Z (z : Z) : jsnum := Num (Qc_of_Z z).

(** [a <= b]: false as soon as one side is NaN. *)
Definition jle (a b : jsnum) : bool :=
  match a, b with
  | Num x, Num y => bool_decide (x ≤ y)%Qc
  | _, _ => false
  end.


Definition jsub (a b : jsnum) : jsnum :=
  match a, b with
  | Num x, Num y => Num (x - y)%Qc
  | _, _ => NaN
  end.

Definition jmul (a b : jsnum) : jsnum :=
  match a, b with
  | Num x, Num y => Num (x * y)%Qc
  | _, _ => NaN
  end.

(** [a / b]; a division by zero, an infinity or NaN in JavaScript, is
    [NaN] here. *)
Definition jdiv (a b : jsnum) : jsnum :=
  match a, b with
  | Num x, Num y => if bool_decide (y = 0%Qc) then NaN else Num (x / y)%Qc
  | _, _ => NaN
  end.

Definition Qcmax (x y : Qc) : Qc := if bool_decide (x ≤ y)%Qc then y else x.

(** [Math.max(a, b)]: NaN if an argument is NaN. *)
Definition jmax (a b : jsnum) : jsnum :=
  match a, b with
  | Num x, Num y => Num (Qcmax x y)
  | _, _ => NaN
  end.

(** The order used in the statements: [0 <= a] as a proposition. *)
Definition nonneg (a : jsnum) : Prop :=
  match a with
  | Num x => (0 ≤ x)%Qc
  | NaN => False
  end.

Definition is_num (a : jsnum) : Prop :=
  match a with Num _ => True | NaN => False end.

(** ** [parseInt(s)] without a radix argument

    leading white space is skipped, then an optional sign, then the
    prefix [0x]/[0X] selects radix 16 (radix 10 otherwise), then the
    longest run of digits is read; no digit at all gives NaN. *)

Definition is_space (c : ascii) : bool :=
  let n := N_of_ascii c in
  ((9 <=? n) && (n <=? 13) || (n =? 32) || (n =? 160))%N.

Fixpoint skip_space (s : string) : string :=
  match s with
  | String c r => if is_space c then skip_space r else s
  | EmptyString => s
  end.

Definition digit_val (radix : Z) (c : ascii) : option Z :=
  let n := Z.of_N (N_of_ascii c) in
  let d :=
    if (48 <=? n) && (n <=? 57) then Some (n - 48)
    else if (97 <=? n) && (n <=? 122) then Some (n - 87)
    else if (65 <=? n) && (n <=? 90) then Some (n - 55)
    else None in
  match d with
  | Some v => if v <? radix then Some v else None
  | None => None
  end.

(** Reads digits while they last; [None] when there was none. *)
Fixpoint digits (radix : Z) (acc : option Z) (s : string) : option Z :=
  match s with
  | String c r =>
      match digit_val radix c with
      | Some v => digits radix (Some (radix * default 0 acc + v)) r
      | None => acc
      end
  | EmptyString => acc
  end.

Definition strip_hex (s : string) : option string :=
  match s with
  | String "0" (String "x" r) => Some r
  | String "0" (String "X" r) => Some r
  | _ => None
  end.

Definition parseInt (s : string) : jsnum :=
  let s1 := skip_space s in
  let '(sign, s2) :=
    match s1 with
    | String "-" r => (-1, r)
    | String "+" r => (1, r)
    | _ => (1, s1)
    end in
  let r :=
    match strip_hex s2 with
    | Some s3 => digits 16 None s3
    | None => digits 10 None s2
    end in
  match r with
  | Some v => of_Z (sign * v)
  | None => NaN
  end.

(** [h || d] for a header value [h] that is [null] or a string: the
    empty string is falsy as well. *)
Definition or_default (h : option string) (d : string) : string :=
  match h with
  | Some s => if bool_decide (s = "") then d else s
  | None => d
  end.

(** Outcome of an [async] call or of a block that may [throw]. *)
Inductive outcome (A : Type) : Type :=
| Fulfilled (v : A)
| Rejected (message : string).
Arguments Fulfilled {A} v.
Arguments Rejected {A} message.

End JS.

Export JS.

(* ================================================================== *)
(** * RateLimitTracker and ProviderClient._directRequest               *)
(* ================================================================== *)

Module RateLimit.

(** The object handed to [update]: [{limit, remaining, reset_seconds}]. *)
Record info : Type := Info {
  limit : jsnum;
  remaining : jsnum;
  reset_seconds : jsnum
}.

(** A record of [this.limits]: [{...info, updatedAt: Date.now()}]. *)
Record stamped : Type := Stamped {
  inf : info;
  updatedAt : Z
}.

(** [this.limits]. *)
Abbreviation tracker := (gmap string stamped).

(** [constructor() { this.limits = {}; }] *)
Definition new_tracker : tracker := ∅.

(** [update(provider, info)] *)
Definition update (t : tracker) (provider : string) (i : info) (now : Z)
  : tracker :=
  <[provider := Stamped i now]> t.

(** [get(provider)]: [this.limits[provider] || null] *)
Definition get (t : tracker) (provider : string) : option stamped :=
  t !! provider.

(** [shouldWait(provider)]:
<<
      const info = this.limits[provider];
      if (!info) return false;
      return info.remaining <= 1;
>> *)
Definition shouldWait (t : tracker) (provider : string) : bool :=
  match t !! provider with
  | None => false
  | Some i => jle (remaining (inf i)) (of_Z 1)
  end.

(** [waitTime(provider)]:
<<
      const info = this.limits[provider];
      if (!info || !this.shouldWait(provider)) return 0;
      const elapsed = (Date.now() - info.updatedAt) / 1000;
      return Math.max(0, info.reset_seconds - elapsed) * 1000;
>> *)
Definition elapsed (now : Z) (i : stamped) : jsnum :=
  jdiv (of_Z (now - updatedAt i)) (of_Z 1000).

Definition waitTime (t : tracker) (provider : string) (now : Z) : jsnum :=
  match t !! provider with
  | None => of_Z 0
  | Some i =>
      if negb (shouldWait t provider) then of_Z 0
      else jmul (jmax (of_Z 0) (jsub (reset_seconds (inf i)) (elapsed now i)))
                (of_Z 1000)
  end.

(** ** The reserve policy of the specification

    The threshold the specification describes: a fraction of the
    provider's nominal limit, 10% below 100, 5% from 100 to 500, 3%
    above 500. *)
Definition spec_reserve (lim : Qc) : Qc :=
  if bool_decide (lim < Qc_of_Z 100)%Qc then (lim * Qc_of_Z 10 / Qc_of_Z 100)%Qc
  else if bool_decide (lim ≤ Qc_of_Z 500)%Qc then (lim * Qc_of_Z 5 / Qc_of_Z 100)%Qc
  else (lim * Qc_of_Z 3 / Qc_of_Z 100)%Qc.

Definition spec_shouldWait (t : tracker) (provider : string) : bool :=
  match t !! provider with
  | None => false
  | Some i =>
      match limit (inf i) with
      | Num l => jle (remaining (inf i)) (Num (spec_reserve l))
      | NaN => false
      end
  end.

End RateLimit.

(* ================================================================== *)
(** * Arrays                                                           *)
(* ================================================================== *)

Module JSArray.

Section Sort.
Context {A : Type}.
(** The comparator handed to [Array.prototype.sort]: negative when
    the first argument goes first, positive when the second does. *)
Variable cmp : A → A → Z.

Fixpoint insert (x : A) (l : list A) : list A :=
  match l with
  | [] => [x]
  | y :: r => if bool_decide (cmp x y ≤ 0) then x :: y :: r
              else y :: insert x r
  end.

(** [x] goes before [y], or they tie. *)
Definition before (x y : A) : Prop := cmp x y ≤ 0.

(** [arr.sort(cmp)].  The sort is stable (ECMAScript 2019), so for a
    consistent comparator the result does not depend on the engine's
    algorithm; insertion from the right is one stable sort. *)
Definition sort (l : list A) : list A := foldr insert [] l.
End Sort.

(** [arr.splice(arr.indexOf(key), 1)] when [key] occurs: the first
    occurrence goes. *)
Fixpoint remove_first (key : string) (l : list string) : list string :=
  match l with
  | [] => []
  | x :: r => if bool_decide (x = key) then r else x :: remove_first key r
  end.

(** [arr.includes(key)] *)
Definition includes (key : string) (l : list string) : bool :=
  bool_decide (key ∈ l).

End JSArray.

(* ================================================================== *)
(** * ProviderCache                                                    *)
(* ================================================================== *)

Module Cache.

Section WithValue.
Context {V : Type}.

(** The object stored under [prefix + key]:
    [{value, expires, created}]. *)
Record entry : Type := Entry {
  value : V;
  expires : Z;
  created : Z
}.

(** The object stored under [prefix + "_index"]:
    [{keys: [], timestamps: {}}]. *)
Record index : Type := Index {
  keys : list string;
  timestamps : gmap string Z
}.

(** [this.storage].  Cache keys have the shape
    [provider:method:params], so no entry is stored under the name
    of the index; the two are kept apart here.

    Every operation of the cache starts with
    [if (!this.storage) return]; the definitions below are the
    operations of a cache that has a storage.  An operation reads the
    clock more than once ([Date.now()] for [expires], [created] and the
    timestamp); it is given one time, [now]. *)
Record store : Type := Store {
  index_item : option index;
  items : gmap string entry
}.

(** Whether a content fits the storage: [setItem] throws when the
    content it would produce does not. *)
Variable quota : store → bool.

(** [this.maxSize] *)
Variable maxSize : nat.

Definition empty_index : index := Index [] ∅.

(** [_getIndex()]: a fresh object, parsed from the stored text. *)
Definition getIndex (s : store) : index :=
  default empty_index (index_item s).

(** [storage.setItem(prefix + "_index", ...)]; [None] when it throws. *)
Definition setItem_index (s : store) (ix : index) : option store :=
  let s' := Store (Some ix) (items s) in
  if quota s' then Some s' else None.

(** [storage.setItem(prefix + key, ...)]; [None] when it throws. *)
Definition setItem_entry (s : store) (key : string) (e : entry)
  : option store :=
  let s' := Store (index_item s) (<[key := e]> (items s)) in
  if quota s' then Some s' else None.

(** [storage.removeItem(prefix + key)] *)
Definition removeItem (s : store) (key : string) : store :=
  Store (index_item s) (delete key (items s)).

(** [(index.timestamps[a] || 0) - (index.timestamps[b] || 0)] *)
Definition by_timestamp (ts : gmap string Z) (a b : string) : Z :=
  default 0 (ts !! a) - default 0 (ts !! b).

(** The loop of [_evict]:
<<
    for (let i = 0; i < count && i < sorted.length; i++) {
        const key = sorted[i];
        this.storage?.removeItem(this._key(key));
        const idx = index.keys.indexOf(key);
        if (idx > -1) index.keys.splice(idx, 1);
        delete index.timestamps[key];
    }
>>
    [sorted] is the array [index.keys] itself ([sort] sorts in place
    and returns its receiver), so the [splice] shortens the array
    the loop walks.  [n] is [count - i]. *)
Fixpoint evict_loop (n i : nat) (arr : list string)
    (ts : gmap string Z) (its : gmap string entry)
  : list string * gmap string Z * gmap string entry :=
  match n with
  | O => (arr, ts, its)
  | S n' =>
      match arr !! i with
      | None => (arr, ts, its)
      | Some key =>
          evict_loop n' (S i) (JSArray.remove_first key arr)
                     (delete key ts) (delete key its)
      end
  end.

(** [_evict(count)] up to its last statement: the storage after the
    removals and the index handed to [_setIndex]. *)
Definition evict_body (count : nat) (s : store) : store * index :=
  let ix := getIndex s in
  let sorted := JSArray.sort (by_timestamp (timestamps ix)) (keys ix) in
  let '(arr, ts, its) :=
    evict_loop count 0 sorted (timestamps ix) (items s) in
  (Store (index_item s) its, Index arr ts).

(** [_setIndex(index)]:
<<
    try { this.storage.setItem(..., JSON.stringify(index)); }
    catch (e) { this._evict(Math.floor(this.maxSize / 2)); }
>>
    and [_evict] ends in [this._setIndex(index)]: the two call each
    other for as long as the write fails.  [depth] bounds the nesting
    of calls; [None] means the bound was reached. *)
Fixpoint setIndex (depth : nat) (s : store) (ix : index)
  : option store :=
  match depth with
  | O => None
  | S d =>
      match setItem_index s ix with
      | Some s' => Some s'
      | None =>
          let '(s1, ix1) := evict_body (maxSize / 2) s in
          setIndex d s1 ix1
      end
  end.

(** [_evict(count)] *)
Definition evict (depth : nat) (count : nat) (s : store) : option store :=
  let '(s1, ix1) := evict_body count s in
  setIndex depth s1 ix1.

(** [delete(key)] *)
Definition delete (depth : nat) (s : store) (key : string)
  : option store :=
  let s1 := removeItem s key in
  let ix := getIndex s1 in
  if JSArray.includes key (keys ix) then
    setIndex depth s1
      (Index (JSArray.remove_first key (keys ix))
             (base.delete key (timestamps ix)))
  else Some s1.

(** [get(key)] at time [now]: the storage afterwards and the value
    returned ([None] for [null]). *)
Definition get (depth : nat) (s : store) (key : string) (now : Z)
  : option (store * option V) :=
  match items s !! key with
  | None => Some (s, None)
  | Some e =>
      if bool_decide (now > expires e) then
        s' ← delete depth s key; Some (s', None)
      else
        let ix := getIndex s in
        s' ← setIndex depth s
               (Index (keys ix) (<[key := now]> (timestamps ix)));
        Some (s', Some (value e))
  end.

(** [set(key, value, ttl)] at time [now]. *)
Definition set (depth : nat) (s : store) (key : string) (v : V)
    (ttl : Z) (now : Z) : option store :=
  let ix := getIndex s in
  s1 ← (if bool_decide (maxSize ≤ List.length (keys ix))%nat
           && negb (JSArray.includes key (keys ix))
        then evict depth (maxSize / 4) s
        else Some s);
  let data := Entry v (now + ttl) now in
  match setItem_entry s1 key data with
  | Some s2 =>
      let keys' := if JSArray.includes key (keys ix) then keys ix
                   else keys ix ++ [key] in
      setIndex depth s2 (Index keys' (<[key := now]> (timestamps ix)))
  | None =>
      s3 ← evict depth (maxSize / 2) s1;
      match setItem_entry s3 key data with
      | Some s4 => Some s4
      | None => Some s3
      end
  end.

(** [clear(providerPrefix)] *)
Definition clear (depth : nat) (s : store) (providerPrefix : option string)
  : option store :=
  let ix := getIndex s in
  let keysToDelete :=
    match providerPrefix with
    | Some p => if bool_decide (p = "") then keys ix
                else filter (λ k, String.prefix p k = true) (keys ix)
    | None => keys ix
    end in
  let '(s1, ix1) :=
    foldl (λ '(s0, ix0) key,
             (removeItem s0 key,
              Index (JSArray.remove_first key (keys ix0))
                    (base.delete key (timestamps ix0))))
          (s, ix) keysToDelete in
  setIndex depth s1 ix1.

(** [stats().count] *)
Definition count (s : store) : nat := List.length (keys (getIndex s)).

(** ** The invariant of the specification *)



(** The same as a test: the set of the index keys is the set of the
    keys of the stored entries. *)
Definition consistentb (s : store) : bool :=
  bool_decide (list_to_set (keys (getIndex s)) = dom (items s) :> gset string).

End WithValue.

Arguments entry : clear implicits.
Arguments store : clear implicits.

End Cache.

(* ================================================================== *)
(** * ProviderClient                                                   *)
(* ================================================================== *)

Module Client.

Import RateLimit.

(** An entry of [PROVIDER_CONFIGS]. *)
Record config : Type := Config {
  id : string;
  baseUrl : string;
  authType : string;
  authParam : string;
  cacheDuration : Z;
  rateLimitWindow : Z;
  rateLimitRequests : Z
}.

Definition PROVIDER_CONFIGS : gmap string config :=
  <["pixabay" := Config "pixabay" "https://pixabay.com/api/" "query_param"
                        "key" 86400000 60000 100]>
 (<["pexels" := Config "pexels" "https://api.pexels.com/" "header"
                       "Authorization" 86400000 3600000 200]> ∅).

(** The fields of the client that [_directRequest] reads and writes. *)
Record client : Type := ClientState {
  apiKeys : gmap string string;
  rateLimits : tracker;
  configs : gmap string config
}.

(** [new ProviderClient({mode: 'direct', apiKeys})] *)
Definition new_client (keys : gmap string string) : client :=
  ClientState keys new_tracker PROVIDER_CONFIGS.

Section Request.
(** The parsed JSON payload. *)
Context {J : Type}.

(** What [fetch] resolves to.  [headers] maps the names the client
    asks for to their values ([Headers.get] ignores the case of a name
    and gives [null] for a header that is not there); [json] is the
    outcome of [response.json()]. *)
Record response : Type := Response {
  status : Z;
  headers : gmap string string;
  json : outcome J
}.

(** [response.ok] *)
Definition ok (r : response) : bool :=
  (200 <=? status r) && (status r <=? 299).

(** The argument of [this.rateLimits.update] in [_directRequest]:
<<
    limit: parseInt(response.headers.get('X-RateLimit-Limit') || '100'),
    remaining: parseInt(response.headers.get('X-RateLimit-Remaining') || '100'),
    reset_seconds: parseInt(response.headers.get('X-RateLimit-Reset') || '60')
>> *)
Definition info_of_headers (h : gmap string string) : info :=
  Info (parseInt (or_default (h !! "X-RateLimit-Limit") "100"))
       (parseInt (or_default (h !! "X-RateLimit-Remaining") "100"))
       (parseInt (or_default (h !! "X-RateLimit-Reset") "60")).


(** [_directRequest(provider, endpoint, params)].  [net] is what
    [fetch] does, a network error or a response, and [now] the time
    at which the response is in. *)
Definition directRequest (c : client) (provider : string)
    (net : outcome response) (now : Z) : client * outcome J :=
  match configs c !! provider with
  | None => (c, Rejected ("Unknown provider: " +:+ provider))
  | Some _ =>
      match apiKeys c !! provider with
      | None => (c, Rejected ("No API key for " +:+ provider))
      | Some key =>
          if bool_decide (key = "") then
            (c, Rejected ("No API key for " +:+ provider))
          else
            match net with
            | Rejected m => (c, Rejected m)
            | Fulfilled r =>
                let c' :=
                  ClientState (apiKeys c)
                    (update (rateLimits c) provider
                            (info_of_headers (headers r)) now)
                    (configs c) in
                if status r =? 429 then (c', Rejected "Rate limit exceeded")
                else if negb (ok r) then (c', Rejected ("Request failed: " +:+ pretty (status r)))
                else (c', json r)
            end
      end
  end.

(** The two checks that precede the request: the provider is
    configured and has a key. *)
Definition ready (c : client) (provider : string) : bool :=
  match configs c !! provider, apiKeys c !! provider with
  | Some _, Some key => negb (bool_decide (key = ""))
  | _, _ => false
  end.

(** A run of requests: each with its provider, what the network
    did, and the time of the answer. *)
Fixpoint requests (c : client)
    (l : list (string * outcome response * Z)) : client :=
  match l with
  | [] => c
  | (p, net, now) :: r => requests (directRequest c p net now).1 r
  end.

(** The response carries none of the three rate-limit headers. *)
Definition no_rate_headers (r : response) : Prop :=
  headers r !! "X-RateLimit-Limit" = None ∧
  headers r !! "X-RateLimit-Remaining" = None ∧
  headers r !! "X-RateLimit-Reset" = None.

End Request.

Arguments response : clear implicits.

(** ** [_cacheKey] *)

(** The values found in a [params] object. *)
Inductive jsval : Type :=
| VNull
| VUndefined
| VStr (s : string)
| VNum (n : Z)
| VBool (b : bool).

(** [`${v}`] *)
Definition to_string (v : jsval) : string :=
  match v with
  | VNull => "null"
  | VUndefined => "undefined"
  | VStr s => s
  | VNum n => pretty n
  | VBool true => "true"
  | VBool false => "false"
  end.

(** [v != null] *)
Definition not_nullish (v : jsval) : bool :=
  match v with
  | VNull | VUndefined => false
  | _ => true
  end.

(** [arr.join(sep)] *)
Fixpoint join (sep : string) (l : list string) : string :=
  match l with
  | [] => ""
  | [x] => x
  | x :: r => x +:+ sep +:+ join sep r
  end.

Section CacheKey.
(** [a.localeCompare(b)]: the collation of the host. *)
Variable localeCompare : string → string → Z.

(** [_cacheKey(provider, method, params)]:
<<
    const paramStr = Object.entries(params)
        .filter(([_, v]) => v != null)
        .sort(([a], [b]) => a.localeCompare(b))
        .map(([k, v]) => `${k}=${v}`)
        .join('&');
    return `${provider}:${method}:${paramStr}`;
>>
    [params] is given by [Object.entries(params)], the properties in
    the order of the object. *)
Definition cacheKey (provider method : string)
    (params : list (string * jsval)) : string :=
  let paramStr :=
    join "&"
      (map (λ kv, kv.1 +:+ "=" +:+ to_string kv.2)
         (JSArray.sort (λ a b, localeCompare a.1 b.1)
            (filter (λ kv, not_nullish kv.2 = true) params))) in
  provider +:+ ":" +:+ method +:+ ":" +:+ paramStr.
End CacheKey.

(** The comparison of strings by their code units, the order
    [localeCompare] gives to keys made of lower-case ASCII letters. *)
Definition ordinalCompare (a b : string) : Z :=
  match String.compare a b with
  | Lt => -1
  | Eq => 0
  | Gt => 1
  end.

(** ** [searchImages], direct mode *)

Section SearchImages.
(** A parsed image. *)
Context {Image : Type}.

(** What [_searchProviderImages] resolves to. *)
Record provider_result : Type := ProviderResult {
  provider : string;
  total : Z;
  images : list Image;
  cached : bool
}.

(** An element of the array [Promise.allSettled] resolves to. *)
Inductive settled : Type :=
| SFulfilled (v : provider_result)
| SRejected (reason : string).

(** How [Promise.allSettled] records one promise. *)
Definition settle (o : outcome provider_result) : settled :=
  match o with
  | Fulfilled v => SFulfilled v
  | Rejected m => SRejected m
  end.

(** [Promise.allSettled(promises)]: never rejects. *)
Definition allSettled (l : list (outcome provider_result))
  : outcome (list settled) :=
  Fulfilled (map settle l).

(** A property of [result.results]: the provider's value, or
    [{error, images: []}]. *)
Inductive slot : Type :=
| Value (v : provider_result)
| Failure (error : string) (imgs : list Image).

Record result : Type := Result {
  query : string;
  providers : list string;
  results : gmap string slot;
  total_images : Z
}.

(** The loop
<<
    providers.forEach((p, i) => {
        if (results[i].status === 'fulfilled') {
            result.results[p] = results[i].value;
            result.total_images += results[i].value.total || 0;
        } else {
            result.results[p] = { error: results[i].reason.message, images: [] };
        }
    });
>>
    over the providers and the settled array side by side. *)
Fixpoint collect (ps : list string) (rs : list settled) (acc : result)
  : result :=
  match ps, rs with
  | p :: ps', SFulfilled v :: rs' =>
      collect ps' rs'
        (Result (query acc) (providers acc)
                (<[p := Value v]> (results acc))
                (total_images acc + total v))
  | p :: ps', SRejected m :: rs' =>
      collect ps' rs'
        (Result (query acc) (providers acc)
                (<[p := Failure m []]> (results acc))
                (total_images acc))
  | _, _ => acc
  end.

(** The direct-mode branch of [searchImages]:
<<
        const results = await Promise.allSettled(
            providers.map(p => this._searchProviderImages(p, query, {...})));
        result = { query, providers, results: {}, total_images: 0 };
        providers.forEach((p, i) => { ... });
>>
    [run i p] is the outcome of the [i]-th call, the one for the
    provider [p]. *)
Definition searchImages_direct (q : string) (ps : list string)
    (run : nat → string → outcome provider_result) : outcome result :=
  match allSettled (imap run ps) with
  | Fulfilled rs => Fulfilled (collect ps rs (Result q ps ∅ 0))
  | Rejected m => Rejected m
  end.



End SearchImages.

Arguments provider_result : clear implicits.
Arguments settled : clear implicits.
Arguments slot : clear implicits.
Arguments result : clear implicits.

End Client.

(* ================================================================== *)
(** * Ranking: StagVault.getMatchScore and rankResults                 *)
(* ================================================================== *)

Module Ranking.

(** A search item as the index files and the provider adapters build
    it: [{id, n, s, t, l, _apiItem}]; [t] may be missing. *)
Record item : Type := Item {
  id : string;
  n : string;
  s : string;
  t : option (list string);
  l : option string;
  apiItem : bool
}.

(** [toLowerCase] on the letters A to Z; other characters stay. *)
Definition lower_char (c : ascii) : ascii :=
  let k := N_of_ascii c in
  if ((65 <=? k) && (k <=? 90))%N then ascii_of_N (k + 32) else c.

Fixpoint toLowerCase (x : string) : string :=
  match x with
  | EmptyString => EmptyString
  | String c r => String (lower_char c) (toLowerCase r)
  end.

(** [x.startsWith(q)] *)
Definition startsWith (x q : string) : bool := String.prefix q x.

(** [x.includes(q)] *)
Fixpoint includes (x q : string) : bool :=
  String.prefix q x ||
  match x with
  | EmptyString => false
  | String _ r => includes r q
  end.

(** [x.endsWith(q)] *)
Fixpoint endsWith (x q : string) : bool :=
  String.eqb x q ||
  match x with
  | EmptyString => false
  | String _ r => endsWith r q
  end.

(** [getMatchScore(item, query)]:
<<
      const name = item.n.toLowerCase();
      const tags = (item.t || []).map(t => t.toLowerCase());
      let score = 0;
      if (name === query) { score += 1000; }
      else if (name.startsWith(query)) { score += 500; }
      else if (name.includes(': ' + query) || name.endsWith(' ' + query)
               || name.includes(' ' + query + ' ')) { score += 350; }
      else if (name.includes(query)) { score += 100; }
      if (tags.includes(query)) { score += 600; }
      else if (tags.some(t => t.startsWith(query))) { score += 250; }
      else if (tags.some(t => t.includes(query))) { score += 50; }
      score += Math.max(0, 30 - name.length);
      return score;
>> *)
Definition getMatchScore (it : item) (query : string) : Z :=
  let name := toLowerCase (n it) in
  let tags := map toLowerCase (default [] (t it)) in
  let score := 0 in
  let score :=
    if String.eqb name query then score + 1000
    else if startsWith name query then score + 500
    else if includes name (": " +:+ query)
            || endsWith name (" " +:+ query)
            || includes name (" " +:+ query +:+ " ")
         then score + 350
    else if includes name query then score + 100
    else score in
  let score :=
    if bool_decide (query ∈ tags) then score + 600
    else if existsb (λ x, startsWith x query) tags then score + 250
    else if existsb (λ x, includes x query) tags then score + 50
    else score in
  score + Z.max 0 (30 - Z.of_nat (String.length name)).

(** [rankResults(results, query)]:
    [results.sort((a, b) => score(b) - score(a))] *)
Definition rankResults (results : list item) (query : string) : list item :=
  JSArray.sort (λ a b, getMatchScore b query - getMatchScore a query) results.

(** ** The scoring policy in the words of the specification *)

Definition is_prefix (q x : string) : Prop := ∃ post, x = q +:+ post.
Definition is_suffix (q x : string) : Prop := ∃ pre, x = pre +:+ q.
Definition is_infix (q x : string) : Prop := ∃ pre post, x = pre +:+ q +:+ post.

(** The query stands in the name as a delimited word: right after
    [": "], or after a space and at the end of the name, or between
    two spaces. *)
Definition delimited_word (q x : string) : Prop :=
  is_infix (": " +:+ q) x ∨ is_suffix (" " +:+ q) x
  ∨ is_infix (" " +:+ q +:+ " ") x.

(** The name component: the first tier that applies. *)
Inductive name_tier (name q : string) : Z → Prop :=
| name_equal : name = q → name_tier name q 1000
| name_starts : name ≠ q → is_prefix q name → name_tier name q 500
| name_word : name ≠ q → ¬ is_prefix q name → delimited_word q name →
              name_tier name q 350
| name_contains : name ≠ q → ¬ is_prefix q name → ¬ delimited_word q name →
                  is_infix q name → name_tier name q 100
| name_none : name ≠ q → ¬ is_prefix q name → ¬ delimited_word q name →
              ¬ is_infix q name → name_tier name q 0.

(** The tag component: the first tier that applies. *)
Inductive tag_tier (tags : list string) (q : string) : Z → Prop :=
| tag_equal : q ∈ tags → tag_tier tags q 600
| tag_starts : q ∉ tags → (∃ x, x ∈ tags ∧ is_prefix q x) →
               tag_tier tags q 250
| tag_contains : q ∉ tags → ¬ (∃ x, x ∈ tags ∧ is_prefix q x) →
                 (∃ x, x ∈ tags ∧ is_infix q x) → tag_tier tags q 50
| tag_none : q ∉ tags → ¬ (∃ x, x ∈ tags ∧ is_prefix q x) →
             ¬ (∃ x, x ∈ tags ∧ is_infix q x) → tag_tier tags q 0.

(** [max(0, 30 - nameLength)] *)
Definition length_bonus (name : string) : Z :=
  Z.max 0 (30 - Z.of_nat (String.length name)).

End Ranking.

(* ================================================================== *)
(** * The provider adapters of the web application                     *)
(* ================================================================== *)

Module Providers.

Import Ranking.

(** An entry of [this.apiProviders]. *)
Record provider : Type := Provider {
  apiKey : option string;
  enabled : bool
}.

(** [this.apiProviders], in the order the constructor lists them. *)
Record apiProviders : Type := ApiProviders {
  pexels : provider;
  pixabay : provider;
  unsplash : provider;
  wikimedia : provider
}.

(** A truthy [config.apiKey]: neither [null] nor empty. *)
Definition has_key (p : provider) : bool :=
  match apiKey p with
  | Some k => negb (bool_decide (k = ""))
  | None => false
  end.

(** [getEnabledProviders()]:
<<
      Object.entries(this.apiProviders)
          .filter(([id, config]) => config.enabled
                                    && (id === 'wikimedia' || config.apiKey))
          .map(([id]) => id)
>> *)
Definition getEnabledProviders (ps : apiProviders) : list string :=
  (if enabled (pexels ps) && has_key (pexels ps) then ["pexels"] else [])
  ++ (if enabled (pixabay ps) && has_key (pixabay ps) then ["pixabay"] else [])
  ++ (if enabled (unsplash ps) && has_key (unsplash ps) then ["unsplash"] else [])
  ++ (if enabled (wikimedia ps) then ["wikimedia"] else []).

(** [this.apiCache]: the data with its expiry, by cache key. *)
Abbreviation apiCache := (gmap string (list item * Z)).

(** The cache key of a provider's search: the request URL (Pexels,
    Unsplash, Wikimedia) or [pixabay:query:page:perPage]; it is
    determined by provider and query. *)
Definition cache_key (name query : string) : string :=
  name +:+ ":" +:+ query.

(** [getCachedApiResponse(url)]: the data of a live entry; an expired
    entry is removed. *)
Definition getCachedApiResponse (c : apiCache) (url : string) (now : Z)
  : apiCache * option (list item) :=
  match c !! url with
  | Some (data, expires) =>
      if bool_decide (expires > now) then (c, Some data)
      else (delete url c, None)
  | None => (c, None)
  end.

(** [API_CACHE_TTL] *)
Definition API_CACHE_TTL : Z := 24 * 60 * 60 * 1000.

(** [setCachedApiResponse(url, data)] *)
Definition setCachedApiResponse (c : apiCache) (url : string)
    (data : list item) (now : Z) : apiCache :=
  <[url := (data, now + API_CACHE_TTL)]> c.

(** The common shape of [searchPexels], [searchPixabay],
    [searchUnsplash] and [searchWikimedia]:
<<
      if (<guard fails>) return [];
      const cached = this.getCachedApiResponse(url);
      if (cached) return cached;
      try {
          const response = await fetch(url, ...);
          if (!response.ok) throw new Error(...);
          ...
          this.setCachedApiResponse(url, results);
          return results;
      } catch (error) {
          console.error(...);
          return [];
      }
>>
      [attempt] is the outcome of the [try] block: the items parsed
      from the response, or whatever was thrown there. *)
Definition search (guard : bool) (name query : string)
    (attempt : outcome (list item)) (now : Z) (c : apiCache)
  : apiCache * outcome (list item) :=
  if negb guard then (c, Fulfilled [])
  else
    let '(c1, cached) := getCachedApiResponse c (cache_key name query) now in
    match cached with
    | Some data => (c1, Fulfilled data)
    | None =>
        match attempt with
        | Fulfilled results =>
            (setCachedApiResponse c1 (cache_key name query) results now,
             Fulfilled results)
        | Rejected _ => (c1, Fulfilled [])
        end
    end.



(** [Promise.all(promises)]: the values when all are fulfilled, else a
    rejection. *)
Fixpoint all {A : Type} (l : list (outcome A)) : outcome (list A) :=
  match l with
  | [] => Fulfilled []
  | Rejected m :: _ => Rejected m
  | Fulfilled v :: r =>
      match all r with
      | Fulfilled vs => Fulfilled (v :: vs)
      | Rejected m => Rejected m
      end
  end.


(** What a provider contributes to a search: its items when its
    request succeeds (or is answered from the cache), nothing when it
    fails. *)
Definition contribution (guard : bool) (name query : string)
    (attempt : outcome (list item)) (now : Z) (c : apiCache) : list item :=
  if negb guard then []
  else match (getCachedApiResponse c (cache_key name query) now).2 with
       | Some data => data
       | None => match attempt with
                 | Fulfilled results => results
                 | Rejected _ => []
                 end
       end.

End Providers.


(* ================================================================== *)
(** * The search coordinator: StagVault.performSearch                  *)
(* ================================================================== *)

Module Coordinator.

Import Ranking.

(** What [resultsContainer] shows. *)
Inductive view : Type :=
| Blank
| Loading
| Results (shown : list item) (query : option string) (apiPending : bool)
| EmptyState
| ErrorView (message : string).

(** A continuation waiting on the event loop.  The first three close
    over [searchId], the generation [performSearch] read when it
    started.

    - [AwaitStatic]: after [await this.searchStaticIndex(query)];
    - [Timer]: the callback handed to [setTimeout(..., 800)];
    - [AwaitApi]: after [await this.searchApiProviders(query)];
    - [AwaitSamples]: the display at the end of
      [loadAndDisplaySamples()], which closes over no generation;
      [issued] only records the generation of the query that started
      it. *)
Inductive task : Type :=
| AwaitStatic (searchId : nat) (query : string)
| Timer (handle : nat) (searchId : nat) (query : string)
        (staticResults : list item)
| AwaitApi (searchId : nat) (query : string) (staticResults : list item)
| AwaitSamples (issued : nat).

(** The fields [performSearch] works on, and the pending tasks.
    [screenBy] and [resultsBy] are not fields of the program: they
    record the generation of the flow that last wrote [screen] and
    [currentResults]. *)
Record state : Type := State {
  currentSearchId : nat;
  apiSearchDebounceTimer : option nat;
  currentResults : list item;
  screen : view;
  tasks : list task;
  nextHandle : nat;
  screenBy : nat;
  resultsBy : nat
}.

Section WithEnvironment.

(** [this.getEnabledProviders()] and the predicate of
    [this.applyFilters]. *)
Variable enabledProviders : list string.
Variable passes : item → bool.

Definition applyFilters (items : list item) : list item :=
  filter (λ it, passes it = true) items.

(** [clearTimeout(h)]: the callback will not run. *)
Definition is_timer (h : nat) (t : task) : bool :=
  match t with
  | Timer h' _ _ _ => bool_decide (h' = h)
  | _ => false
  end.

Definition clearTimeout (h : nat) (ts : list task) : list task :=
  filter (λ t, is_timer h t = false) ts.

(** [performSearch()] up to its first [await]; [query] is the trimmed,
    lower-cased content of the search box:
<<
        if (this.apiSearchDebounceTimer) {
            clearTimeout(this.apiSearchDebounceTimer);
            this.apiSearchDebounceTimer = null;
        }
        if (query.length < 2) {
            this.currentSearchId++;
            await this.loadAndDisplaySamples();
            return;
        }
        const searchId = ++this.currentSearchId;
        ... innerHTML = loading ...
        const staticResults = await this.searchStaticIndex(query);
>> *)
Definition performSearch (st : state) (query : string) : state :=
  let ts :=
    match apiSearchDebounceTimer st with
    | Some h => clearTimeout h (tasks st)
    | None => tasks st
    end in
  if bool_decide (String.length query < 2)%nat then
    State (S (currentSearchId st)) None (currentResults st) (screen st)
          (ts ++ [AwaitSamples (S (currentSearchId st))])
          (nextHandle st) (screenBy st) (resultsBy st)
  else
    let searchId := S (currentSearchId st) in
    State searchId None (currentResults st) Loading
          (ts ++ [AwaitStatic searchId query])
          (nextHandle st) searchId (resultsBy st).

(** The continuation after [await this.searchStaticIndex(query)]:
<<
            if (searchId !== this.currentSearchId) return;
            let results = this.rankResults([...staticResults], query);
            this.currentResults = results;
            this.displayResults(results, query, true);
            const enabledProviders = this.getEnabledProviders();
            if (enabledProviders.length > 0) {
                this.apiSearchDebounceTimer = setTimeout(async () => ..., 800);
            }
        } catch (error) {
            console.error('Search failed:', error);
            if (searchId === this.currentSearchId) this.showError(...);
        }
>> *)
Definition afterStatic (st : state) (searchId : nat) (query : string)
    (r : outcome (list item)) : state :=
  match r with
  | Fulfilled staticResults =>
      if bool_decide (searchId ≠ currentSearchId st) then st
      else
        let results := rankResults staticResults query in
        let shown := Results results (Some query) true in
        if bool_decide (enabledProviders = []) then
          State (currentSearchId st) (apiSearchDebounceTimer st) results shown
                (tasks st) (nextHandle st) searchId searchId
        else
          State (currentSearchId st) (Some (nextHandle st)) results shown
                (tasks st ++ [Timer (nextHandle st) searchId query staticResults])
                (S (nextHandle st)) searchId searchId
  | Rejected _ =>
      if bool_decide (searchId = currentSearchId st) then
        State (currentSearchId st) (apiSearchDebounceTimer st)
              (currentResults st) (ErrorView "Search failed. Please try again.")
              (tasks st) (nextHandle st) searchId (resultsBy st)
      else st
  end.

(** The timer callback up to its [await]:
<<
                    if (searchId !== this.currentSearchId) return;
                    try {
                        const apiResults = await this.searchApiProviders(query);
>> *)
Definition timerFired (st : state) (searchId : nat) (query : string)
    (staticResults : list item) : state :=
  if bool_decide (searchId ≠ currentSearchId st) then st
  else
    State (currentSearchId st) (apiSearchDebounceTimer st) (currentResults st)
          (screen st) (tasks st ++ [AwaitApi searchId query staticResults])
          (nextHandle st) (screenBy st) (resultsBy st).

(** The merge of the timer callback:
    [[...staticResults, ...this.applyFilters(apiResults)]], ranked. *)
Definition merge (staticResults apiResults : list item) (query : string)
  : list item :=
  rankResults (staticResults ++ applyFilters apiResults) query.

(** The continuation after [await this.searchApiProviders(query)]:
<<
                        if (searchId !== this.currentSearchId) return;
                        this.refreshLicensesIfNeeded(apiResults);
                        const filteredApiResults = this.applyFilters(apiResults);
                        const mergedResults = [...staticResults, ...filteredApiResults];
                        const rankedResults = this.rankResults(mergedResults, query);
                        this.currentResults = rankedResults;
                        this.displayResults(rankedResults, query, false);
                    } catch (error) {
                        console.error('API search failed:', error);
                    }
>> *)
Definition afterApi (st : state) (searchId : nat) (query : string)
    (staticResults : list item) (r : outcome (list item)) : state :=
  match r with
  | Fulfilled apiResults =>
      if bool_decide (searchId ≠ currentSearchId st) then st
      else
        let rankedResults := merge staticResults apiResults query in
        State (currentSearchId st) (apiSearchDebounceTimer st) rankedResults
              (Results rankedResults (Some query) false)
              (tasks st) (nextHandle st) searchId searchId
  | Rejected _ => st
  end.

(** The end of [loadAndDisplaySamples()]:
<<
            if (displayItems.length > 0) this.displayResults(displayItems, null);
            else this.showEmptyState();
        } catch (error) { ...; this.showEmptyState(); }
>> *)
Definition afterSamples (st : state) (issued : nat)
    (r : outcome (list item)) : state :=
  let shown :=
    match r with
    | Fulfilled (x :: displayItems) => Results (x :: displayItems) None false
    | _ => EmptyState
    end in
  State (currentSearchId st) (apiSearchDebounceTimer st) (currentResults st)
        shown (tasks st) (nextHandle st) issued (resultsBy st).

(** Running a task that the event loop took out of the queue; [r] is
    what the awaited call produced (unused by a timer). *)
Definition resume (st : state) (t : task) (r : outcome (list item)) : state :=
  match t with
  | AwaitStatic searchId query => afterStatic st searchId query r
  | Timer _ searchId query staticResults =>
      timerFired st searchId query staticResults
  | AwaitApi searchId query staticResults =>
      afterApi st searchId query staticResults r
  | AwaitSamples issued => afterSamples st issued r
  end.

(** What happens next: the user's input reaches [performSearch], or
    the [i]-th pending task runs. *)
Inductive event : Type :=
| Query (query : string)
| Resume (i : nat) (r : outcome (list item)).

Definition without (i : nat) (st : state) : state :=
  State (currentSearchId st) (apiSearchDebounceTimer st) (currentResults st)
        (screen st) (base.delete i (tasks st)) (nextHandle st)
        (screenBy st) (resultsBy st).

Definition step (st : state) (e : event) : state :=
  match e with
  | Query q => performSearch st q
  | Resume i r =>
      match tasks st !! i with
      | Some t => resume (without i st) t r
      | None => st
      end
  end.

Definition run (st : state) (es : list event) : state := foldl step st es.

(** The generation a continuation of [performSearch] closed over. *)
Definition captured (t : task) : option nat :=
  match t with
  | AwaitStatic searchId _ => Some searchId
  | Timer _ searchId _ _ => Some searchId
  | AwaitApi searchId _ _ => Some searchId
  | AwaitSamples _ => None
  end.




(** The constructor's state: [currentSearchId = 0], nothing pending. *)
Definition initial : state := State 0 None [] Blank [] 1 0 0.

End WithEnvironment.

End Coordinator.

(* ================================================================== *)
(** * Concrete caches and searches used in the statements below        *)
(* ================================================================== *)

Module Examples.

Import Cache Ranking Coordinator.

(** A storage that accepts every write. *)
Definition unbounded (s : store string) : bool := true.

(** A storage with room for two entries. *)
Definition two_entries (s : store string) : bool :=
  bool_decide (size (items s) ≤ 2)%nat.

(** A storage that is full once the text of the index grows: an
    index with a timestamp of 50 or more does not fit. *)
Definition no_room_to_grow (s : store string) : bool :=
  bool_decide (map_Forall (λ _ t, t < 50) (timestamps (getIndex s))).

(** The cache holding one entry per key of [l], each with its time of
    last access, all expiring at [expiry]. *)
Definition cache_of (l : list (string * Z)) (expiry : Z) : store string :=
  Store (Some (Index (l.*1) (list_to_map l)))
        (list_to_map (map (λ kt, (kt.1, Entry ("value of " +:+ kt.1) expiry kt.2)) l)).

(** A full cache of capacity 4, oldest access first. *)
Definition full4 : store string :=
  cache_of [("a", 1); ("b", 2); ("c", 3); ("d", 4)] 1000.

(** A full cache of capacity 8, oldest access first. *)
Definition full8 : store string :=
  cache_of [("k0", 1); ("k1", 2); ("k2", 3); ("k3", 4);
            ("k4", 5); ("k5", 6); ("k6", 7); ("k7", 8)] 1000.

(** Two entries in a storage with room for two. *)
Definition pair2 : store string := cache_of [("a", 1); ("b", 2)] 1000.

(** One entry that expires at time 100. *)
Definition single : store string := cache_of [("k", 0)] 100.

Definition user_icon : item :=
  Item "user" "user" "feather" (Some ["icon"; "ui"]) None false.
Definition delete_icon : item :=
  Item "delete" "delete" "feather" (Some ["icon"; "ui"]) None false.
Definition us_photo : item :=
  Item "pexels-1" "US skyline" "pexels" (Some ["photo"; "pexels"]) None true.
Definition us_flag : item :=
  Item "us-flag" "flag: United States" "noto-emoji"
       (Some ["emoji"; "flags"; "country-flag"; "us"]) None false.
Definition de_flag : item :=
  Item "de-flag" "flag: Germany" "noto-emoji"
       (Some ["emoji"; "flags"; "country-flag"; "de"]) None false.

(** The flow of ["us"]: its local results come in, the debounce timer
    fires, the providers are being asked. *)
Definition us_in_flight : list event :=
  [Resume 0 (Fulfilled [user_icon]); Resume 0 (Fulfilled [])].

(** After ["de"] was typed: the providers answer for ["us"], then the
    local results for ["de"] come in. *)
Definition de_then : list event :=
  [Resume 0 (Fulfilled [us_photo]); Resume 0 (Fulfilled [delete_icon])].

End Examples.

(* ================================================================== *)
(** * Strings                                                          *)
(* ================================================================== *)

Module Text.

(** [s.trimEnd()] *)
Fixpoint trimEnd (s : string) : string :=
  match s with
  | EmptyString => EmptyString
  | String c r =>
      match trimEnd r with
      | EmptyString => if is_space c then EmptyString else String c EmptyString
      | r' => String c r'
      end
  end.

(** [s.trim()] *)
Definition trim (s : string) : string := trimEnd (skip_space s).

End Text.

(* ================================================================== *)
(** * Titles of provider items: stripHtml                              *)
(* ================================================================== *)

Module Html.

Import Ranking Text.

(** A [>] occurs in [s]. *)
Fixpoint has_gt (s : string) : bool :=
  match s with
  | EmptyString => false
  | String c r => Ascii.eqb c ">" || has_gt r
  end.

(** [text.replace(/<[^>]*>/g, '')].  A match starts at a [<] that has
    a [>] after it and ends at the first such [>]; the search goes on
    behind the match.  [inside] tells that a match has started. *)
Fixpoint replace_tags (inside : bool) (s : string) : string :=
  match s with
  | EmptyString => EmptyString
  | String c r =>
      if inside then
        if Ascii.eqb c ">" then replace_tags false r else replace_tags true r
      else if Ascii.eqb c "<" && has_gt r then replace_tags true r
      else String c (replace_tags false r)
  end.

(** [stripHtml(text)] on a string:
<<
    if (!text || typeof text !== 'string') return text;
    if (!text.includes('<') || !text.includes('>')) return text;
    return text.replace(/<[^>]*>/g, '').trim();
>> *)
Definition stripHtml (text : string) : string :=
  if bool_decide (text = "") then text
  else if negb (includes text "<") || negb (includes text ">") then text
  else trim (replace_tags false text).

Definition is_letter (c : ascii) : bool :=
  let k := N_of_ascii c in
  ((65 <=? k) && (k <=? 90) || (97 <=? k) && (k <=? 122))%N.

(** [/<[a-zA-Z][^>]*>/.test(text)] on a string: somewhere a [<], a
    letter right after it, and a [>] further on. *)
Fixpoint containsHtmlTags (text : string) : bool :=
  match text with
  | EmptyString => false
  | String c r =>
      Ascii.eqb c "<"
      && match r with
         | String d r' => is_letter d && has_gt r'
         | EmptyString => false
         end
      || containsHtmlTags r
  end.

(** No match of [/<[^>]*>/] in [s]: no [<] has a [>] after it. *)
Fixpoint tag_free (s : string) : bool :=
  match s with
  | EmptyString => true
  | String c r => negb (Ascii.eqb c "<" && has_gt r) && tag_free r
  end.

End Html.

(* ================================================================== *)
(** * The sidebar filters and the static index of the web application  *)
(* ================================================================== *)

Module Sidebar.

Import Ranking.

(** An entry of [this.sources]: [{id, name, license, count}]. *)
Record source : Type := Source {
  source_id : string;
  license : option string;
  count : Z
}.

(** [this.excludedSources] and [this.excludedLicenses]. *)
Record filters : Type := Filters {
  excludedSources : gset string;
  excludedLicenses : gset string
}.

(** [this.sources.find(s => s.id === id)] *)
Definition find_source (sources : list source) (id : string)
  : option source :=
  List.find (λ s, String.eqb (source_id s) id) sources.

(** [item.l || this.sources.find(s => s.id === item.s)?.license] *)
Definition itemLicense (sources : list source) (it : item) : option string :=
  match l it with
  | Some x => if bool_decide (x = "")
              then find_source sources (s it) ≫= license
              else Some x
  | None => find_source sources (s it) ≫= license
  end.

(** The predicate of [applyFilters]:
<<
      if (this.excludedSources.has(item.s)) return false;
      if (this.excludedLicenses.size > 0) {
          const itemLicense = item.l || this.sources.find(s => s.id === item.s)?.license;
          if (this.excludedLicenses.has(itemLicense)) return false;
      }
      return true;
>> *)
Definition passes (f : filters) (sources : list source) (it : item) : bool :=
  if bool_decide (s it ∈ excludedSources f) then false
  else if bool_decide (0 < size (excludedLicenses f))%nat then
    match itemLicense sources it with
    | Some lic => negb (bool_decide (lic ∈ excludedLicenses f))
    | None => true
    end
  else true.

(** [applyFilters(items)] *)
Definition applyFilters (f : filters) (sources : list source)
    (items : list item) : list item :=
  Coordinator.applyFilters (passes f sources) items.

(** [handleSourceChange(id, checked)], on the filter state:
    [checked ? excludedSources.delete(id) : excludedSources.add(id)]. *)
Definition handleSourceChange (f : filters) (id : string) (checked : bool)
  : filters :=
  Filters (if checked then excludedSources f ∖ {[id]}
           else {[id]} ∪ excludedSources f)
          (excludedLicenses f).

(** [handleFilterChange('license', id, checked, this.excludedLicenses)],
    on the filter state. *)
Definition handleFilterChange (f : filters) (id : string) (checked : bool)
  : filters :=
  Filters (excludedSources f)
          (if checked then excludedLicenses f ∖ {[id]}
           else {[id]} ∪ excludedLicenses f).

(** [removeExclusion(type, id)], on the filter state. *)
Definition removeExclusion (f : filters) (type id : string) : filters :=
  if bool_decide (type = "source") then
    Filters (excludedSources f ∖ {[id]}) (excludedLicenses f)
  else if bool_decide (type = "license") then
    Filters (excludedSources f) (excludedLicenses f ∖ {[id]})
  else f.

(** [clearAllFilters()], on the filter state. *)
Definition clearAllFilters (f : filters) : filters := Filters ∅ ∅.

(** The change handler of a branch checkbox, on the filter state:
<<
      sourceIds.forEach(id => {
          if (checked) this.excludedSources.delete(id);
          else this.excludedSources.add(id);
      });
>> *)
Definition branchChange (f : filters) (sourceIds : list string)
    (checked : bool) : filters :=
  foldl (λ f0 id, handleSourceChange f0 id checked) f sourceIds.

(** ** The static index *)

(** The fields [searchStaticIndex] reads and writes.  An entry of
    [prefixManifest] is given by its [prefix]. *)
Record library : Type := Library {
  prefixManifest : list string;
  prefixCache : gmap string (list item);
  allLoadedItems : list item
}.

(** The loop that records the items of a prefix file:
<<
      items.forEach(item => {
          if (!this.allLoadedItems.find(i => i.id === item.id))
              this.allLoadedItems.push(item);
      });
>> *)
Definition remember (loaded items : list item) : list item :=
  foldl (λ acc it,
           if existsb (λ i, String.eqb (id i) (id it)) acc then acc
           else acc ++ [it])
        loaded items.

(** The predicate of the query filter of [searchStaticIndex]:
<<
      const name = item.n.toLowerCase();
      const tags = (item.t || []).map(t => t.toLowerCase());
      const matchesName = name.includes(query);
      const matchesTag = tags.some(t => t.includes(query) || t === query);
      return matchesName || matchesTag;
>> *)
Definition matchesQuery (query : string) (it : item) : bool :=
  let name := toLowerCase (n it) in
  let tags := map toLowerCase (default [] (t it)) in
  let matchesName := includes name query in
  let matchesTag :=
    existsb (λ x, includes x query || String.eqb x query) tags in
  matchesName || matchesTag.

(** The last two statements of [searchStaticIndex]: the query filter,
    then the sidebar filters. *)
Definition select (f : filters) (sources : list source) (query : string)
    (items : list item) : list item :=
  applyFilters f sources (filter (λ it, matchesQuery query it = true) items).

(** [searchStaticIndex(query)] up to its [await]:
<<
      const prefix = query.substring(0, 2);
      const prefixEntry = this.prefixManifest.find(p => p.prefix === prefix);
      if (!prefixEntry) return [];
      let items = this.prefixCache.get(prefix);
      if (!items) { items = await this.fetchJSON(...); ... }
>>
    Either the search is answered from what is loaded, or the prefix
    file is being fetched. *)
Inductive started : Type :=
| Answered (results : list item)
| Fetching (prefix : string).

Definition start (f : filters) (sources : list source) (lib : library)
    (query : string) : started :=
  let prefix := String.substring 0 2 query in
  if negb (bool_decide (prefix ∈ prefixManifest lib)) then Answered []
  else match prefixCache lib !! prefix with
       | Some items => Answered (select f sources query items)
       | None => Fetching prefix
       end.

(** [searchStaticIndex(query)] from the [await] on: [fetched] is the
    outcome of [fetchJSON], [lib] and the filters are the ones of the
    moment the function goes on. *)
Definition finish (f : filters) (sources : list source) (lib : library)
    (prefix query : string) (fetched : outcome (list item))
  : library * outcome (list item) :=
  match fetched with
  | Rejected m => (lib, Rejected m)
  | Fulfilled items =>
      (Library (prefixManifest lib) (<[prefix := items]> (prefixCache lib))
               (remember (allLoadedItems lib) items),
       Fulfilled (select f sources query items))
  end.

(** [searchStaticIndex(query)] when nothing else runs in between. *)
Definition searchStaticIndex (f : filters) (sources : list source)
    (lib : library) (query : string) (fetched : outcome (list item))
  : library * outcome (list item) :=
  match start f sources lib query with
  | Answered results => (lib, Fulfilled results)
  | Fetching prefix => finish f sources lib prefix query fetched
  end.

(** ** The samples of the start page *)

(** The loop of [loadAndDisplaySamples] over the prefix files; [files]
    holds, for each prefix tried, the items obtained for it (from
    [prefixCache] or from [fetchJSON], which may throw):
<<
      for (const prefixEntry of prefixesToTry) {
          ... items ...
          const filtered = this.applyFilters(items);
          samples.push(...filtered.slice(0, 10));
          if (samples.length >= 400) break;
      }
>> *)
Fixpoint gather (f : filters) (sources : list source)
    (files : list (outcome (list item))) (samples : list item)
  : outcome (list item) :=
  match files with
  | [] => Fulfilled samples
  | Rejected m :: _ => Rejected m
  | Fulfilled items :: rest =>
      let samples' := samples ++ take 10 (applyFilters f sources items) in
      if bool_decide (400 ≤ List.length samples')%nat then Fulfilled samples'
      else gather f sources rest samples'
  end.

(** The deduplication:
<<
      const seen = new Set();
      const unique = samples.filter(item => {
          if (seen.has(item.id)) return false;
          seen.add(item.id);
          return true;
      });
>> *)
Fixpoint unique (seen : gset string) (samples : list item) : list item :=
  match samples with
  | [] => []
  | it :: r =>
      if bool_decide (id it ∈ seen) then unique seen r
      else it :: unique ({[id it]} ∪ seen) r
  end.

(** [loadAndDisplaySamples()] up to the display: the items handed to
    [displayResults], [Rejected] when the [catch] block is entered.
    [shuffle] is what [unique.sort(() => 0.5 - Math.random())] does to
    the array; [files] are the items of the prefixes of
    [prefixManifest.slice(0, 100)]. *)
Definition displayItems (shuffle : list item → list item) (f : filters)
    (sources : list source) (files : list (outcome (list item)))
  : outcome (list item) :=
  match gather f sources (take 100 files) [] with
  | Fulfilled samples => Fulfilled (take 120 (shuffle (unique ∅ samples)))
  | Rejected m => Rejected m
  end.

End Sidebar.

(* ================================================================== *)
(** * The provider settings of the web application                     *)
(* ================================================================== *)

Module Settings.

Import Text Providers.

(** [this.apiProviders[provider]]; [None] when there is no such
    provider. *)
Definition lookup (ps : apiProviders) (name : string) : option provider :=
  if bool_decide (name = "pexels") then Some (pexels ps)
  else if bool_decide (name = "pixabay") then Some (pixabay ps)
  else if bool_decide (name = "unsplash") then Some (unsplash ps)
  else if bool_decide (name = "wikimedia") then Some (wikimedia ps)
  else None.

(** [this.apiProviders[provider] = p], for a provider that exists. *)
Definition assign (ps : apiProviders) (name : string) (p : provider)
  : apiProviders :=
  if bool_decide (name = "pexels") then
    ApiProviders p (pixabay ps) (unsplash ps) (wikimedia ps)
  else if bool_decide (name = "pixabay") then
    ApiProviders (pexels ps) p (unsplash ps) (wikimedia ps)
  else if bool_decide (name = "unsplash") then
    ApiProviders (pexels ps) (pixabay ps) p (wikimedia ps)
  else if bool_decide (name = "wikimedia") then
    ApiProviders (pexels ps) (pixabay ps) (unsplash ps) p
  else ps.

(** The constructor's [this.apiProviders]: no key, the three keyed
    providers disabled, Wikimedia enabled. *)
Definition defaults : apiProviders :=
  ApiProviders (Provider None false) (Provider None false)
               (Provider None false) (Provider None true).

(** [v || null] for a key [v] that is [null] or a string. *)
Definition or_null (v : option string) : option string :=
  match v with
  | Some k => if bool_decide (k = "") then None else Some k
  | None => None
  end.

(** [saveApiKey(provider, value)], on [this.apiProviders]:
<<
      if (!this.apiProviders[provider]) return;
      const trimmedValue = value.trim();
      this.apiProviders[provider].apiKey = trimmedValue || null;
      if (trimmedValue) { this.apiProviders[provider].enabled = true; ... }
>> *)
Definition saveApiKey (ps : apiProviders) (name value : string)
  : apiProviders :=
  match lookup ps name with
  | None => ps
  | Some p =>
      let trimmedValue := trim value in
      assign ps name
        (Provider (or_null (Some trimmedValue))
                  (if bool_decide (trimmedValue = "") then enabled p else true))
  end.

(** [toggleProvider(provider, enabled)], on [this.apiProviders]. *)
Definition toggleProvider (ps : apiProviders) (name : string) (on : bool)
  : apiProviders :=
  match lookup ps name with
  | None => ps
  | Some p => assign ps name (Provider (apiKey p) on)
  end.

(** [clearAllApiKeys()], on [this.apiProviders]: every provider but
    Wikimedia loses its key and is disabled. *)
Definition clearAllApiKeys (ps : apiProviders) : apiProviders :=
  ApiProviders (Provider None false) (Provider None false)
               (Provider None false) (wikimedia ps).

(** The two items of [localStorage] that hold the settings: the
    object under [stagvault_api_keys], by provider, and the text under
    [stagvault_wikimedia_enabled]. *)
Record storage : Type := Storage {
  stagvault_api_keys : option (gmap string provider);
  stagvault_wikimedia_enabled : option string
}.

(** [saveApiKeys()]:
<<
      const keys = {};
      for (const [provider, config] of Object.entries(this.apiProviders))
          if (provider !== 'wikimedia')
              keys[provider] = { apiKey: config.apiKey, enabled: config.enabled };
      localStorage.setItem('stagvault_api_keys', JSON.stringify(keys));
      localStorage.setItem('stagvault_wikimedia_enabled',
                           this.apiProviders.wikimedia.enabled);
>>
    [accepted1] and [accepted2] tell whether the first and the second
    [setItem] go through; when one throws, the rest is skipped. *)
Definition saveApiKeys (accepted1 accepted2 : bool) (ps : apiProviders)
    (st : storage) : storage :=
  if accepted1 then
    let keys : gmap string provider :=
      <["unsplash" := unsplash ps]>
        (<["pixabay" := pixabay ps]> (<["pexels" := pexels ps]> ∅)) in
    let st1 := Storage (Some keys) (stagvault_wikimedia_enabled st) in
    if accepted2 then
      Storage (Some keys)
              (Some (if enabled (wikimedia ps) then "true" else "false"))
    else st1
  else st.

(** The body of the loop of [loadApiKeys] for one provider:
<<
      this.apiProviders[provider].apiKey = data.apiKey || null;
      this.apiProviders[provider].enabled = data.enabled || false;
>> *)
Definition restore (keys : gmap string provider) (name : string)
    (p : provider) : provider :=
  match keys !! name with
  | Some data => Provider (or_null (apiKey data)) (enabled data)
  | None => p
  end.

(** [loadApiKeys()], on [this.apiProviders]:
<<
      const stored = localStorage.getItem('stagvault_api_keys');
      if (stored) {
          const keys = JSON.parse(stored);
          for (const [provider, data] of Object.entries(keys))
              if (this.apiProviders[provider]) { ... }
      }
      const wikimediaEnabled = localStorage.getItem('stagvault_wikimedia_enabled');
      if (wikimediaEnabled !== null)
          this.apiProviders.wikimedia.enabled = wikimediaEnabled === 'true';
>> *)
Definition loadApiKeys (ps : apiProviders) (st : storage) : apiProviders :=
  let ps1 :=
    match stagvault_api_keys st with
    | Some keys =>
        ApiProviders (restore keys "pexels" (pexels ps))
                     (restore keys "pixabay" (pixabay ps))
                     (restore keys "unsplash" (unsplash ps))
                     (restore keys "wikimedia" (wikimedia ps))
    | None => ps
    end in
  match stagvault_wikimedia_enabled st with
  | Some text =>
      ApiProviders (pexels ps1) (pixabay ps1) (unsplash ps1)
                   (Provider (apiKey (wikimedia ps1))
                             (bool_decide (text = "true")))
  | None => ps1
  end.

End Settings.

(* ================================================================== *)
(** * The providers among the sources of the sidebar                   *)
(* ================================================================== *)

Module ApiSources.

Import Providers Sidebar.

(** [config.licenses] of a provider, as the constructor sets it. *)
Definition licenses (providerId : string) : list string :=
  if bool_decide (providerId = "pexels") then ["Pexels License"]
  else if bool_decide (providerId = "pixabay") then ["Pixabay License"]
  else if bool_decide (providerId = "unsplash") then ["Unsplash License"]
  else if bool_decide (providerId = "wikimedia") then
    ["CC0"; "CC-BY"; "CC-BY-SA"; "CC-BY-SA-4.0"; "CC-BY-4.0"; "Public domain";
     "GFDL"]
  else [].

(** [this.sources] and [this.discoveredLicenses]. *)
Record listing : Type := Listing {
  sources : list source;
  discoveredLicenses : gset string
}.

(** The body of the loop of [addApiSourcesToTree] for one provider;
    [active] is [config.enabled && (providerId === 'wikimedia' ||
    config.apiKey)]:
<<
    if (!this.sources.find(s => s.id === providerId))
        this.sources.push({ id: providerId, name: config.name, count: 0,
                            license: config.licenses[0] || 'Various',
                            _isApi: true });
    config.licenses.forEach(lic => this.discoveredLicenses.add(lic));
>> *)
Definition add_provider (active : bool) (providerId : string) (st : listing)
  : listing :=
  if active then
    Listing
      (if existsb (λ s, String.eqb (source_id s) providerId) (sources st)
       then sources st
       else sources st
            ++ [Source providerId
                       (Some (default "Various" (head (licenses providerId))))
                       0])
      (list_to_set (licenses providerId) ∪ discoveredLicenses st)
  else st.

(** [addApiSourcesToTree()], over the providers in the order of
    [this.apiProviders]. *)
Definition addApiSourcesToTree (ps : apiProviders) (st : listing) : listing :=
  add_provider (enabled (wikimedia ps)) "wikimedia"
    (add_provider (enabled (unsplash ps) && has_key (unsplash ps)) "unsplash"
       (add_provider (enabled (pixabay ps) && has_key (pixabay ps)) "pixabay"
          (add_provider (enabled (pexels ps) && has_key (pexels ps)) "pexels"
             st))).

(** [addDiscoveredLicense(license)]: the set afterwards and whether
    the licence is new.
<<
    if (!license || this.discoveredLicenses.has(license)) return false;
    this.discoveredLicenses.add(license);
    return true;
>> *)
Definition addDiscoveredLicense (discovered : gset string)
    (license : option string) : gset string * bool :=
  match license with
  | Some lic =>
      if bool_decide (lic = "") || bool_decide (lic ∈ discovered)
      then (discovered, false)
      else ({[lic]} ∪ discovered, true)
  | None => (discovered, false)
  end.

(** One turn of the loop of [refreshLicensesIfNeeded], on the set and
    [needsRefresh]:
<<
    if (item.l && this.addDiscoveredLicense(item.l)) needsRefresh = true;
>> *)
Definition refresh_item (acc : gset string * bool) (it : Ranking.item)
  : gset string * bool :=
  let '(d, needsRefresh) := acc in
  match Settings.or_null (Ranking.l it) with
  | Some _ =>
      let '(d', added) := addDiscoveredLicense d (Ranking.l it) in
      (d', added || needsRefresh)
  | None => (d, needsRefresh)
  end.

(** [refreshLicensesIfNeeded(items)]: the set afterwards and whether
    [renderLicenses] is called.
<<
    let needsRefresh = false;
    for (const item of items) ...
    if (needsRefresh) this.renderLicenses();
>> *)
Definition refreshLicensesIfNeeded (discovered : gset string)
    (items : list Ranking.item) : gset string * bool :=
  foldl refresh_item (discovered, false) items.

End ApiSources.

(* ================================================================== *)
(** * ProviderClient: the cache around a search                        *)
(* ================================================================== *)

Module ClientCache.

Import Cache Client.

(** Whether [clear(providerPrefix)] selects the key [k]:
    [providerPrefix ? k.startsWith(providerPrefix) : true]. *)
Definition selects (providerPrefix : option string) (k : string) : bool :=
  match providerPrefix with
  | Some p => bool_decide (p = "") || String.prefix p k
  | None => true
  end.

Section WithCache.
(** The objects the cache holds. *)
Context {V : Type}.
Variable quota : store V → bool.
Variable maxSize : nat.
(** [this.cache.defaultTTL] *)
Variable defaultTTL : Z.
(** [{ ...cached, cached: true }] *)
Variable mark_cached : V → V.
(** [a.localeCompare(b)] *)
Variable localeCompare : string → string → Z.




End WithCache.

End ClientCache.

(* ================================================================== *)
(** * StagVault: search over the static index (stagvault.js)           *)
(* ================================================================== *)

Module Vault.

Import Client.

(** An item of [data.items], with the fields [search] reads. *)
Record item : Type := Item {
  id : string;
  name : option string;
  canonical_name : option string;
  source_id : option string;
  style : option string;
  tags : option (list string)
}.

(** The options of [search]: [{sourceId, styles, tags, limit}]. *)
Record options : Type := Options {
  sourceId : option string;
  styles : option (list string);
  wanted_tags : option (list string);
  limit : Z
}.

(** [s.split(/\s+/)]: the pieces between the runs of white space.
    [piece] is the piece being read, [sep] tells that the last
    character belonged to a separator. *)
Fixpoint split_go (piece : string) (sep : bool) (s : string) : list string :=
  match s with
  | EmptyString => [piece]
  | String c r =>
      if is_space c then
        if sep then split_go piece true r
        else piece :: split_go EmptyString true r
      else split_go (piece +:+ String c EmptyString) false r
  end.

Definition split_space (s : string) : list string :=
  split_go EmptyString false s.

(** [query.toLowerCase().split(/\s+/).filter(t => t.length > 0)] *)
Definition queryTerms (query : string) : list string :=
  filter (λ t, t ≠ EmptyString) (split_space (Ranking.toLowerCase query)).

(** [a || b] on values that are undefined or strings. *)
Definition or_else (a b : option string) : option string :=
  match a with
  | Some x => if bool_decide (x = "") then b else a
  | None => b
  end.

(** [[item.name || item.canonical_name, ...(item.tags || []),
      item.source_id].join(' ').toLowerCase()]; [join] writes nothing
    for an element that is undefined. *)
Definition searchText (it : item) : string :=
  Ranking.toLowerCase
    (join " " (default "" (or_else (name it) (canonical_name it))
               :: default [] (tags it) ++ [default "" (source_id it)])).

(** The test of the loop of [search]:
<<
    const matches = queryTerms.every(term => searchText.includes(term));
    if (!matches) continue;
    if (sourceId && item.source_id !== sourceId) continue;
    if (styles && styles.length > 0 && !styles.includes(item.style)) continue;
    if (tags && tags.length > 0 && !tags.some(t => item.tags?.includes(t))) continue;
>> *)
Definition truthy (s : option string) : bool :=
  match s with
  | Some x => negb (bool_decide (x = ""))
  | None => false
  end.

Definition kept (terms : list string) (o : options) (it : item) : bool :=
  forallb (λ term, Ranking.includes (searchText it) term) terms
  && negb (truthy (sourceId o)
           && negb (bool_decide (source_id it = sourceId o)))
  && negb (match styles o with
           | Some (x :: l) =>
               negb (match style it with
                     | Some st => bool_decide (st ∈ x :: l)
                     | None => false
                     end)
           | _ => false
           end)
  && negb (match wanted_tags o with
           | Some (x :: l) =>
               negb (existsb (λ w, match tags it with
                                   | Some ts => bool_decide (w ∈ ts)
                                   | None => false
                                   end) (x :: l))
           | _ => false
           end).

(** [arr.slice(0, end)] for an integer [end]: a negative [end] counts
    from the end of the array. *)
Definition slice0 {A : Type} (l : list A) (e : Z) : list A :=
  if e <? 0 then take (Z.to_nat (Z.of_nat (List.length l) + e)) l
  else take (Z.to_nat e) l.

(** [search(query, options)] over the items of a loaded index. *)
Definition search (items : list item) (query : string) (o : options)
  : list item :=
  slice0 (filter (λ it, kept (queryTerms query) o it = true) items) (limit o).

(** A variant of a group: [{id, style, path, format}]. *)
Record variant : Type := Variant {
  variant_id : string;
  variant_style : option string
}.

(** The first argument of [_selectDefaultStyle]: nothing, an array of
    style names or an array of variants. *)
Inductive variants : Type :=
| Missing
| Styles (l : list string)
| Variants (l : list variant).

(** [_selectDefaultStyle(variants, preferredStyles)]:
<<
    if (!variants || variants.length === 0) return null;
    if (typeof variants[0] === 'string') {
        for (const pref of preferredStyles)
            if (variants.includes(pref)) return pref;
        return variants[0];
    }
    for (const pref of preferredStyles) {
        const match = variants.find(v => v.style === pref);
        if (match) return match.style;
    }
    return variants[0]?.style || null;
>> *)
Definition selectDefaultStyle (vs : variants) (preferredStyles : list string)
  : option string :=
  match vs with
  | Missing | Styles [] | Variants [] => None
  | Styles (x :: l) =>
      match List.find (λ pref, bool_decide (pref ∈ x :: l)) preferredStyles with
      | Some pref => Some pref
      | None => Some x
      end
  | Variants (v :: l) =>
      match List.find
              (λ pref, existsb (λ w, bool_decide (variant_style w = Some pref))
                               (v :: l))
              preferredStyles with
      | Some pref => Some pref
      | None => or_else (variant_style v) None
      end
  end.

(** The styles a list of variants offers. *)
Definition offered (vs : variants) : list string :=
  match vs with
  | Missing => []
  | Styles l => l
  | Variants l => omap variant_style l
  end.

End Vault.

(* ================================================================== *)
(** * StagVault: grouped search (stagvault.js)                         *)
(* ================================================================== *)

Module Grouped.

Import Client Vault.

(** A group of [data.groups]:
    [{canonical_name, source_id, tags, variants, styles}]. *)
Record group : Type := Group {
  group_name : option string;
  group_source : option string;
  group_tags : option (list string);
  group_variants : option (list variant);
  group_styles : option (list string)
}.

(** An entry of the search index: [{type: 'group', data}] or
    [{type: 'item', data}]. *)
Inductive entry : Type :=
| OfGroup (data : group)
| OfItem (data : item).

(** [_itemToGroup(item)] *)
Definition itemToGroup (it : item) : group :=
  Group (or_else (canonical_name it) (name it))
        (source_id it)
        (Some (default [] (tags it)))
        (Some [Variant (id it) (style it)])
        (Some (match style it with
               | Some st => if bool_decide (st = "") then [] else [st]
               | None => []
               end)).

(** [entry.type === 'group' ? entry.data : this._itemToGroup(entry.data)] *)
Definition group_of (e : entry) : group :=
  match e with
  | OfGroup g => g
  | OfItem it => itemToGroup it
  end.

(** [terms.add(x)] on a [Set], which keeps the order of insertion. *)
Definition add (x : string) (terms : list string) : list string :=
  if bool_decide (x ∈ terms) then terms else terms ++ [x].

(** [s.split(/[-_]/)]: the pieces between the separators. *)
Fixpoint split_dash_go (piece : string) (s : string) : list string :=
  match s with
  | EmptyString => [piece]
  | String c r =>
      if Ascii.eqb c "-" || Ascii.eqb c "_"
      then piece :: split_dash_go EmptyString r
      else split_dash_go (piece +:+ String c EmptyString) r
  end.

Definition split_dash (s : string) : list string :=
  split_dash_go EmptyString s.

(** [_extractTerms(obj)], from the fields of [obj] it reads:
<<
    const name = obj.canonical_name || obj.name || '';
    terms.add(name.toLowerCase());
    for (const part of name.toLowerCase().split(/[-_]/))
        if (part.length > 1) terms.add(part);
    if (obj.tags) for (const tag of obj.tags) terms.add(tag.toLowerCase());
    if (obj.source_id) terms.add(obj.source_id.toLowerCase());
>> *)
Definition extractTerms (canonical name : option string)
    (tags : option (list string)) (source : option string) : list string :=
  let nm := Ranking.toLowerCase (default "" (or_else (or_else canonical name)
                                                      (Some ""))) in
  let t1 := add nm [] in
  let t2 := foldl (λ ts part, if bool_decide (1 < String.length part)%nat
                              then add part ts else ts)
                  t1 (split_dash nm) in
  let t3 := foldl (λ ts tag, add (Ranking.toLowerCase tag) ts)
                  t2 (default [] tags) in
  if truthy source then add (Ranking.toLowerCase (default "" source)) t3
  else t3.

(** The lower-cased name of an entry, its first search term. *)
Definition name_of (e : entry) : string :=
  match e with
  | OfGroup g =>
      Ranking.toLowerCase
        (default "" (or_else (or_else (group_name g) None) (Some "")))
  | OfItem it =>
      Ranking.toLowerCase
        (default "" (or_else (or_else (canonical_name it) (name it)) (Some "")))
  end.

Definition terms_of (e : entry) : list string :=
  match e with
  | OfGroup g =>
      extractTerms (group_name g) None (group_tags g) (group_source g)
  | OfItem it =>
      extractTerms (canonical_name it) (name it) (tags it) (source_id it)
  end.

(** [this._searchIndex]: a [Map] from a term to its entries, in the
    order of insertion. *)
Abbreviation index := (list (string * list entry)).

(** The body of the inner loop of [_buildSearchIndex]:
<<
    if (!this._searchIndex.has(term)) this._searchIndex.set(term, []);
    this._searchIndex.get(term).push(entry);
>> *)
Fixpoint push (ix : index) (term : string) (e : entry) : index :=
  match ix with
  | [] => [(term, [e])]
  | (t, es) :: r =>
      if bool_decide (t = term) then (t, es ++ [e]) :: r
      else (t, es) :: push r term e
  end.

(** [_buildSearchIndex()], over the groups or the items of the data. *)
Definition buildSearchIndex (data : list entry) : index :=
  foldl (λ ix e, foldl (λ ix' term, push ix' term e) ix (terms_of e)) [] data.

(** [`${data.source_id}:${data.canonical_name}`]; a field that is
    undefined is written [undefined]. *)
Definition key_of (g : group) : string :=
  default "undefined" (group_source g) +:+ ":"
  +:+ default "undefined" (group_name g).

(** [results]: a [Map] from a key to [{group, score}], in the order of
    insertion. *)
Abbreviation scored := (list (string * (group * Z))).

(** The body of the innermost loop of [searchGrouped]:
<<
    if (!results.has(key)) results.set(key, { group: data, score: 0 });
    results.get(key).score += exactMatch ? 10 : 5;
>> *)
Fixpoint credit (rs : scored) (key : string) (data : group) (points : Z)
  : scored :=
  match rs with
  | [] => [(key, (data, 0 + points))]
  | (k, (g, score)) :: r =>
      if bool_decide (k = key) then (k, (g, score + points)) :: r
      else (k, (g, score)) :: credit r key data points
  end.

(** The loops of [searchGrouped]:
<<
    for (const term of queryTerms)
        for (const [indexTerm, entries] of this._searchIndex)
            if (indexTerm.includes(term) || term.includes(indexTerm))
                for (const entry of entries) { ... }
>> *)
Definition credit_entries (term indexTerm : string) (entries : list entry)
    (rs : scored) : scored :=
  foldl (λ rs' e,
           credit rs' (key_of (group_of e)) (group_of e)
                  (if String.eqb indexTerm term then 10 else 5))
        rs entries.

Definition credit_term (ix : index) (rs : scored) (term : string) : scored :=
  foldl (λ rs' '(indexTerm, entries),
           if Ranking.includes indexTerm term || Ranking.includes term indexTerm
           then credit_entries term indexTerm entries rs'
           else rs')
        rs ix.

Definition matches (ix : index) (terms : list string) : scored :=
  foldl (credit_term ix) [] terms.

(** The map of results is well formed: every key once, each the key
    of its group, each score at least 5. *)
Definition keyed (rs : scored) : Prop :=
  NoDup rs.*1 ∧ ∀ k g score, (k, (g, score)) ∈ rs → k = key_of g ∧ 5 ≤ score.

(** The index lists the entry [x] under the term [t]. *)
Definition holds (ix : index) (t : string) (x : entry) : Prop :=
  ∃ es, (t, es) ∈ ix ∧ x ∈ es.

(** The options of [searchGrouped]:
    [{sourceId, tags, preferredStyles, limit}]. *)
Record options : Type := Options {
  sourceId : option string;
  wanted_tags : option (list string);
  preferredStyles : list string;
  limit : Z
}.

(** The two filters of [searchGrouped]:
<<
    if (sourceId) filtered = filtered.filter(r => r.group.source_id === sourceId);
    if (tags && tags.length > 0)
        filtered = filtered.filter(r =>
            tags.some(tag => r.group.tags?.includes(tag)));
>> *)
Definition wanted (o : options) (g : group) : bool :=
  (negb (truthy (sourceId o)) || bool_decide (group_source g = sourceId o))
  && match wanted_tags o with
     | Some (x :: l) =>
         existsb (λ w, match group_tags g with
                       | Some ts => bool_decide (w ∈ ts)
                       | None => false
                       end) (x :: l)
     | _ => true
     end.

(** [r.group.variants || r.group.styles]: an array is truthy, also
    when it is empty. *)
Definition variants_of (g : group) : variants :=
  match group_variants g with
  | Some l => Variants l
  | None => match group_styles g with
            | Some l => Styles l
            | None => Missing
            end
  end.

(** The results of [searchGrouped] before the last [map]: filtered,
    sorted with [(a, b) => b.score - a.score], cut at [limit]. *)
Definition ranked (ix : index) (query : string) (o : options)
  : list (group * Z) :=
  slice0
    (JSArray.sort (λ a b, b.2 - a.2)
       (filter (λ r, wanted o r.1 = true) (map snd (matches ix (queryTerms query)))))
    (limit o).

(** [searchGrouped(query, options)]: each group with its
    [defaultStyle]. *)
Definition searchGrouped (ix : index) (query : string) (o : options)
  : list (group * option string) :=
  map (λ r, (r.1, selectDefaultStyle (variants_of r.1) (preferredStyles o)))
      (ranked ix query o).

(** [_flattenGroups()] *)
Definition flattenGroups (groups : list group) : list item :=
  flat_map (λ g, map (λ v, Item (variant_id v) (group_name g) (group_name g)
                                (group_source g) (variant_style v)
                                (group_tags g))
                     (default [] (group_variants g)))
           groups.

(** [getItem(itemId)] on grouped data:
<<
    for (const group of this.data.groups) {
        const variant = group.variants?.find(v => v.id === itemId);
        if (variant) return { ...variant, source_id: group.source_id,
                              canonical_name: group.canonical_name,
                              tags: group.tags, ... };
    }
    return null;
>> *)
Fixpoint getItem (groups : list group) (itemId : string) : option item :=
  match groups with
  | [] => None
  | g :: rest =>
      match List.find (λ v, String.eqb (variant_id v) itemId)
                      (default [] (group_variants g)) with
      | Some v => Some (Item (variant_id v) None (group_name g)
                             (group_source g) (variant_style v) (group_tags g))
      | None => getItem rest itemId
      end
  end.

End Grouped.

(* ================================================================== *)
(** * The tree of sources and the zoom of the preview                  *)
(* ================================================================== *)

Module Tree.

Import Sidebar.

(** [this.sourceTree]: an object whose values are arrays of source ids
    or objects of the same kind, with its properties in order. *)
Inductive value : Type :=
| Arr (ids : list string)
| Obj (entries : branch)
with branch : Type :=
| Empty
| Entry (key : string) (v : value) (rest : branch).

Scheme branch_value_ind := Induction for branch Sort Prop
  with value_branch_ind := Induction for value Sort Prop.

(** [getSourceIdsInBranch(branch)] (and [getAllSourceIds], which has
    the same body):
<<
    for (const [key, value] of Object.entries(branch)) {
        if (key === '_sources' && Array.isArray(value)) ids.push(...value);
        else if (Array.isArray(value)) ids.push(...value);
        else if (typeof value === 'object')
            ids.push(...this.getSourceIdsInBranch(value));
    }
>> *)
Fixpoint getSourceIdsInBranch (b : branch) : list string :=
  match b with
  | Empty => []
  | Entry key v rest =>
      match v with
      | Arr ids => if bool_decide (key = "_sources") then ids else ids
      | Obj sub => getSourceIdsInBranch sub
      end ++ getSourceIdsInBranch rest
  end.

(** The loop over an array of ids in [countSourcesInBranch]:
<<
    for (const id of value) {
        const source = this.sources.find(s => s.id === id);
        if (source) count += source.count;
    }
>> *)
Definition count_ids (sources : list source) (count : Z) (ids : list string)
  : Z :=
  foldl (λ acc id, match find_source sources id with
                   | Some src => acc + Sidebar.count src
                   | None => acc
                   end) count ids.

(** [countSourcesInBranch(branch)]; [count] is the local counter. *)
Fixpoint countSourcesInBranch_from (sources : list source) (count : Z)
    (b : branch) : Z :=
  match b with
  | Empty => count
  | Entry key v rest =>
      let count' :=
        match v with
        | Arr ids => if bool_decide (key = "_sources")
                     then count_ids sources count ids
                     else count_ids sources count ids
        | Obj sub => count + countSourcesInBranch_from sources 0 sub
        end in
      countSourcesInBranch_from sources count' rest
  end.

Definition countSourcesInBranch (sources : list source) (b : branch) : Z :=
  countSourcesInBranch_from sources 0 b.

(** [findSourcesInTree(branchName)], on the tree it searches:
<<
    for (const [key, value] of Object.entries(tree)) {
        if (key === branchName) {
            if (Array.isArray(value)) return value;
            return this.getSourceIdsInBranch(value);
        }
        if (typeof value === 'object' && !Array.isArray(value)) {
            const result = findInBranch(value);
            if (result.length > 0) return result;
        }
    }
    return [];
>> *)
Fixpoint findInBranch (branchName : string) (b : branch) : list string :=
  match b with
  | Empty => []
  | Entry key v rest =>
      if bool_decide (key = branchName) then
        match v with
        | Arr ids => ids
        | Obj sub => getSourceIdsInBranch sub
        end
      else
        match v with
        | Arr _ => findInBranch branchName rest
        | Obj sub =>
            match findInBranch branchName sub with
            | [] => findInBranch branchName rest
            | result => result
            end
        end
  end.

(** The count a source contributes: its [count], nothing when
    [this.sources] does not have it. *)
Definition count_of (sources : list source) (id : string) : Z :=
  match find_source sources id with
  | Some src => Sidebar.count src
  | None => 0
  end.

End Tree.

Module Zoom.

(** [zoomIn()], on [this.zoomPercent], which holds an integer (100, or
    the result of a [Math.round]):
<<
    if (this.zoomPercent < 400)
        this.zoomPercent = Math.min(400, Math.round(this.zoomPercent * 1.5));
>>
    [Math.round] rounds a half up: for an integer [z],
    [Math.round(z * 1.5)] is the floor of [(3 z + 1) / 2]. *)
Definition zoomIn (zoomPercent : Z) : Z :=
  if zoomPercent <? 400 then Z.min 400 ((3 * zoomPercent + 1) / 2)
  else zoomPercent.

(** [zoomOut()]:
<<
    if (this.zoomPercent > 10)
        this.zoomPercent = Math.max(10, Math.round(this.zoomPercent / 1.5));
>>
    for an integer [z], [Math.round(z / 1.5)] is the floor of
    [(4 z + 3) / 6]. *)
Definition zoomOut (zoomPercent : Z) : Z :=
  if 10 <? zoomPercent then Z.max 10 ((4 * zoomPercent + 3) / 6)
  else zoomPercent.

End Zoom.

(* ================================================================== *)
(** * The debounce of the provider search                              *)
(* ================================================================== *)

Module Debounce.

Import Coordinator.

Definition is_Timer (t : task) : bool :=
  match t with
  | Timer _ _ _ _ => true
  | _ => false
  end.

(** The tasks through which the provider search of the generation
    [current] comes about: the static search that will set the timer,
    a timer, the provider search in flight. *)
Definition live (current : nat) (t : task) : bool :=
  match t with
  | AwaitStatic searchId _ => bool_decide (searchId = current)
  | Timer _ _ _ _ => true
  | AwaitApi searchId _ _ => bool_decide (searchId = current)
  | AwaitSamples _ => false
  end.

(** At most one such task is pending; a pending timer is the one
    [apiSearchDebounceTimer] holds and is of the current generation;
    no task is of a generation to come. *)
Definition debounced (st : state) : Prop :=
  (List.length (filter (λ t, live (currentSearchId st) t = true) (tasks st))
   ≤ 1)%nat
  ∧ (∀ t, t ∈ tasks st →
       match t with
       | Timer h searchId _ _ =>
           apiSearchDebounceTimer st = Some h ∧ searchId = currentSearchId st
       | _ => True
       end)
  ∧ (∀ t i, t ∈ tasks st → captured t = Some i → (i ≤ currentSearchId st)%nat).

End Debounce.

(* ================================================================== *)
(** * What displayResults shows                                        *)
(* ================================================================== *)

Module Display.

Import Ranking.

(** [results.filter(r => !r._apiItem).length] *)
Definition staticCount (results : list item) : nat :=
  List.length (filter (λ r, apiItem r = false) results).

(** [results.filter(r => r._apiItem).length] *)
Definition apiCount (results : list item) : nat :=
  List.length (filter (λ r, apiItem r = true) results).

(** The cards: [results.slice(0, 200)]. *)
Definition displayResults (results : list item) : list item :=
  take 200 results.

(** The results that get no card. *)
Definition hidden (results : list item) : list item := drop 200 results.

End Display.

(* ================================================================== *)
(** * Further concrete inputs used in the statements below             *)
(* ================================================================== *)

Module Scenarios.

Import Ranking.

(** No exclusion in the sidebar. *)
Definition no_filters : Sidebar.filters := Sidebar.Filters ∅ ∅.

(** A page that has loaded the manifest and no prefix file yet. *)
Definition fresh_library : Sidebar.library :=
  Sidebar.Library ["us"; "de"] ∅ [].

(** Two prefix files that share an item. *)
Definition two_files : list (outcome (list item)) :=
  [Fulfilled [Examples.user_icon; Examples.delete_icon];
   Fulfilled [Examples.user_icon; Examples.us_flag]].

(** A cache whose index lists [a] and whose storage holds an entry
    for [c] as well. *)
Definition stray : Cache.store string :=
  Cache.Store (Some (Cache.Index ["a"] {[ "a" := 1 ]}))
              (<["c" := Cache.Entry "value of c" 1000 2]>
                 {[ "a" := Cache.Entry "value of a" 1000 1 ]}).






(** An index of two entries: an item and a group. *)
Definition arrow_left : Vault.item :=
  Vault.Item "lucide-arrow-left" (Some "arrow-left") (Some "arrow-left")
             (Some "lucide") (Some "regular") (Some ["navigation"]).

Definition heart : Grouped.group :=
  Grouped.Group (Some "heart") (Some "phosphor") (Some ["love"; "like"])
                (Some [Vault.Variant "phosphor-heart-fill" (Some "fill");
                       Vault.Variant "phosphor-heart" (Some "regular")])
                (Some ["fill"; "regular"]).

Definition icons : list Grouped.entry :=
  [Grouped.OfItem arrow_left; Grouped.OfGroup heart].

(** [searchGrouped] called without options. *)
Definition no_options : Grouped.options :=
  Grouped.Options None None ["regular"] 50.

End Scenarios.

(* ================================================================== *)
(** * Properties of the rate-limit tracker                             *)
(* ================================================================== *)

Section RateLimitFacts.

Import RateLimit Client.

Lemma Qc_of_Z_nonneg (z : Z) : 0 ≤ z → (0 ≤ Qc_of_Z z)%Qc.
Proof.
  intros Hz. unfold Qcle. simpl. unfold Qle. simpl. lia.
Qed.

Lemma Qcmax_nonneg (x : Qc) : (0 ≤ Qcmax (Qc_of_Z 0) x)%Qc.
Proof.
  unfold Qcmax. case_bool_decide as H; [exact H | by apply Qc_of_Z_nonneg].
Qed.

Lemma jle_spec (a b : jsnum) :
  jle a b = true ↔ ∃ x y, a = Num x ∧ b = Num y ∧ (x ≤ y)%Qc.
Proof.
  split.
  - destruct a as [x|], b as [y|]; simpl; try discriminate.
    intros H. apply bool_decide_eq_true in H. eauto.
  - intros (x & y & -> & -> & H). simpl. by apply bool_decide_eq_true.
Qed.

Lemma shouldWait_spec (t : tracker) (p : string) :
  shouldWait t p = true ↔
  ∃ i r, t !! p = Some i ∧ remaining (inf i) = Num r ∧ (r ≤ Qc_of_Z 1)%Qc.
Proof.
  unfold shouldWait. destruct (t !! p) as [i|] eqn:E.
  - rewrite jle_spec. split.
    + intros (x & y & Hx & Hy & Hle). exists i, x. injection Hy as <-. auto.
    + intros (i' & r & Hi & Hr & Hle). injection Hi as <-.
      exists r, (Qc_of_Z 1). auto.
  - split; [discriminate|]. intros (i & r & Hi & _). discriminate.
Qed.

End RateLimitFacts.

Section RateLimitClaims.

Import RateLimit Client.

(** C1, as stated, fails: with a nominal limit of 100 and 5 requests
    remaining, the reserve of the specification (5% of 100) says wait,
    and [shouldWait] says no. *)
Lemma shouldWait_tiered_reserve_refuted :
  let t := update new_tracker "pixabay"
             (Info (of_Z 100) (of_Z 5) (of_Z 60)) 0 in
  spec_shouldWait t "pixabay" = true ∧ shouldWait t "pixabay" = false.
Proof. split; vm_compute; reflexivity. Qed.

(** C1, amended: [shouldWait(provider)] is true if and only if a record
    exists for the provider and its [remaining] is a number at or below
    1; the provider's limit plays no part. *)
Theorem shouldWait_iff_remaining_le_1 (t : tracker) (p : string) :
  (shouldWait t p = true ↔
   ∃ i r, t !! p = Some i ∧ remaining (inf i) = Num r ∧ (r ≤ Qc_of_Z 1)%Qc)
  ∧ (∀ lim lim' rem rst now,
       shouldWait (update t p (Info lim rem rst) now) p
       = shouldWait (update t p (Info lim' rem rst) now) p).
Proof.
  split; [apply shouldWait_spec|].
  intros. unfold shouldWait, update. by rewrite !lookup_insert_eq.
Qed.

(** The closed form of [waitTime] on a record whose [reset_seconds] is
    the number [r]. *)
Lemma waitTime_num (t : tracker) (p : string) (now : Z) i r :
  t !! p = Some i → shouldWait t p = true → reset_seconds (inf i) = Num r →
  waitTime t p now
  = Num (Qcmax (Qc_of_Z 0) (r - Qc_of_Z (now - updatedAt i) / Qc_of_Z 1000)
         * Qc_of_Z 1000)%Qc.
Proof.
  intros Hi Hw Hr. unfold waitTime. rewrite Hi, Hw. simpl.
  rewrite Hr. unfold elapsed, of_Z. simpl.
  reflexivity.
Qed.

(** C9, as stated, fails: a response whose [X-RateLimit-Reset] header is
    not a number leaves [reset_seconds = NaN] in the record; with no
    request remaining [shouldWait] holds and [waitTime] is NaN, which
    is not at or above 0. *)
Lemma waitTime_nonneg_refuted :
  let r : response unit :=
    Response 200 (<["X-RateLimit-Remaining" := "0"]>
                  (<["X-RateLimit-Reset" := "soon"]> ∅)) (Fulfilled ()) in
  let c := (directRequest (new_client (<["pixabay" := "k"]> ∅)) "pixabay"
                          (Fulfilled r) 1000).1 in
  shouldWait (rateLimits c) "pixabay" = true
  ∧ waitTime (rateLimits c) "pixabay" 2000 = NaN
  ∧ ¬ nonneg (waitTime (rateLimits c) "pixabay" 2000).
Proof.
  vm_compute. split; [reflexivity|]. split; [reflexivity|]. intros [].
Qed.

(** C9, amended: [waitTime] returns 0 when [shouldWait] is false (also
    when there is no record); otherwise it returns
    [max(0, reset_seconds - (now - updatedAt)/1000) * 1000]; and the
    value returned is at or above 0 whenever the record's
    [reset_seconds] is a number.  For a record with [remaining = 1] and
    [limit = 100], [shouldWait] is true and [waitTime] is that value. *)
Theorem waitTime_spec (t : tracker) (p : string) (now : Z) :
  (shouldWait t p = false → waitTime t p now = of_Z 0)
  ∧ (t !! p = None → shouldWait t p = false)
  ∧ (∀ i, t !! p = Some i → shouldWait t p = true →
       waitTime t p now
       = jmul (jmax (of_Z 0)
                 (jsub (reset_seconds (inf i))
                       (jdiv (of_Z (now - updatedAt i)) (of_Z 1000))))
              (of_Z 1000))
  ∧ ((∀ i, t !! p = Some i → is_num (reset_seconds (inf i))) →
       nonneg (waitTime t p now))
  ∧ (∀ i r, t !! p = Some i → remaining (inf i) = of_Z 1 →
       limit (inf i) = of_Z 100 → reset_seconds (inf i) = Num r →
       shouldWait t p = true
       ∧ waitTime t p now
         = Num (Qcmax (Qc_of_Z 0) (r - Qc_of_Z (now - updatedAt i) / Qc_of_Z 1000)
                * Qc_of_Z 1000)%Qc
       ∧ nonneg (waitTime t p now)).
Proof.
  assert (Hnn : ∀ x : Qc, (0 ≤ Qcmax (Qc_of_Z 0) x * Qc_of_Z 1000)%Qc).
  { intros x. rewrite <- (Qcmult_0_l (Qc_of_Z 1000)).
    apply Qcmult_le_compat_r; [apply Qcmax_nonneg|].
    by apply Qc_of_Z_nonneg. }
  split; [|split; [|split; [|split]]].
  - intros Hw. unfold waitTime. rewrite Hw. by destruct (t !! p).
  - intros Hn. unfold shouldWait. by rewrite Hn.
  - intros i Hi Hw. unfold waitTime. by rewrite Hi, Hw.
  - intros Hnum. destruct (shouldWait t p) eqn:Hw.
    + destruct (t !! p) as [i|] eqn:Hi.
      * specialize (Hnum i eq_refl).
        destruct (reset_seconds (inf i)) as [r|] eqn:Hr; [|destruct Hnum].
        rewrite (waitTime_num t p now i r Hi Hw Hr). apply Hnn.
      * unfold shouldWait in Hw. rewrite Hi in Hw. discriminate.
    + unfold waitTime. rewrite Hw. destruct (t !! p); simpl;
        by apply Qc_of_Z_nonneg.
  - intros i r Hi Hrem Hlim Hr.
    assert (Hw : shouldWait t p = true).
    { unfold shouldWait. rewrite Hi, Hrem. reflexivity. }
    split; [exact Hw|].
    rewrite (waitTime_num t p now i r Hi Hw Hr). split; [reflexivity|apply Hnn].
Qed.

End RateLimitClaims.

(** A record with [remaining = 1], [limit = 100] and 60 seconds to the
    reset, read 15 seconds after it was written. *)
Lemma waitTime_spec_witness :
  let t := RateLimit.update RateLimit.new_tracker "pixabay"
             (RateLimit.Info (of_Z 100) (of_Z 1) (of_Z 60)) 0 in
  RateLimit.shouldWait t "pixabay" = true
  ∧ RateLimit.waitTime t "pixabay" 15000
    = Num (Qcmax (Qc_of_Z 0)
             (Qc_of_Z 60 - Qc_of_Z (15000 - 0) / Qc_of_Z 1000)
           * Qc_of_Z 1000)%Qc
  ∧ nonneg (RateLimit.waitTime t "pixabay" 15000).
Proof.
  intros t.
  apply (proj2 (proj2 (proj2 (proj2 (waitTime_spec t "pixabay" 15000))))
           (RateLimit.Stamped (RateLimit.Info (of_Z 100) (of_Z 1) (of_Z 60)) 0)
           (Qc_of_Z 60));
    reflexivity.
Defined.

Example waitTime_45_seconds :
  RateLimit.waitTime
    (RateLimit.update RateLimit.new_tracker "pixabay"
       (RateLimit.Info (of_Z 100) (of_Z 1) (of_Z 60)) 0) "pixabay" 15000
  = of_Z 45000.
Proof.
  rewrite (waitTime_num _ "pixabay" 15000
             (RateLimit.Stamped (RateLimit.Info (of_Z 100) (of_Z 1) (of_Z 60)) 0)
             (Qc_of_Z 60)) by reflexivity.
  unfold of_Z. f_equal. apply Qc_is_canon. reflexivity.
Qed.

Section DirectRequestClaims.

Import RateLimit Client.
Context {J : Type}.

Lemma directRequest_tracker (c : client) (p : string) (net : outcome (response J))
    (now : Z) :
  rateLimits (directRequest c p net now).1
  = match net with
    | Fulfilled r =>
        if ready c p
        then update (rateLimits c) p (info_of_headers (headers r)) now
        else rateLimits c
    | Rejected _ => rateLimits c
    end.
Proof.
  unfold directRequest, ready.
  destruct (configs c !! p) as [cfg|] eqn:Hc; [|by destruct net].
  destruct (apiKeys c !! p) as [k|] eqn:Hk; [|by destruct net].
  case_bool_decide as Hke; [by destruct net|].
  destruct net as [r|m]; [|done]. simpl.
  destruct (status r =? 429); [done|]. by destruct (negb (ok r)).
Qed.

(** Requests to other providers leave the record of [p] alone, and a
    request to [p] whose answer has no rate-limit header records
    [remaining = 100]. *)
Lemma requests_no_headers (p : string)
    (l : list (string * outcome (response J) * Z)) (c : client) :
  (∀ r now, (p, Fulfilled r, now) ∈ l → no_rate_headers r) →
  (rateLimits c !! p = None
   ∨ ∃ i, rateLimits c !! p = Some i ∧ remaining (inf i) = of_Z 100) →
  rateLimits (requests c l) !! p = None
  ∨ ∃ i, rateLimits (requests c l) !! p = Some i
         ∧ remaining (inf i) = of_Z 100.
Proof.
  revert c. induction l as [|[[q net] now] l IH]; intros c Hl Hc; [exact Hc|].
  simpl. apply IH.
  - intros r now' Hin. apply (Hl r now'). by right.
  - rewrite directRequest_tracker. destruct net as [r|m]; [|exact Hc].
    destruct (ready c q); [|exact Hc]. unfold update.
    destruct (decide (q = p)) as [->|Hne].
    + right. rewrite lookup_insert_eq. eexists. split; [reflexivity|].
      destruct (Hl r now) as (_ & Hrem & _); [by left|].
      simpl. by rewrite Hrem.
    + by rewrite lookup_insert_ne.
Qed.

(** C10: when [_directRequest] has a response, whatever its status, the
    tracker's record of the provider is replaced by the one read from
    the response: each of [X-RateLimit-Limit], [X-RateLimit-Remaining]
    and [X-RateLimit-Reset] is parsed when present (and not empty), and
    100, 100 and 60 are taken when absent; on status 429 the call is
    rejected after the record is written.  Hence, for a provider whose
    responses carry none of these headers, every request records
    [remaining = 100], and [shouldWait] is false after any run of
    requests of a fresh client. *)
Theorem directRequest_updates_rate_limit
    (c : client) (p key : string) (cfg : config) (r : response J) (now : Z) :
  configs c !! p = Some cfg → apiKeys c !! p = Some key → key ≠ "" →
  let c' := (directRequest c p (Fulfilled r) now).1 in
  rateLimits c' !! p = Some (Stamped (info_of_headers (headers r)) now)
  ∧ (∀ v, headers r !! "X-RateLimit-Limit" = Some v → v ≠ "" →
       limit (info_of_headers (headers r)) = parseInt v)
  ∧ (∀ v, headers r !! "X-RateLimit-Remaining" = Some v → v ≠ "" →
       remaining (info_of_headers (headers r)) = parseInt v)
  ∧ (∀ v, headers r !! "X-RateLimit-Reset" = Some v → v ≠ "" →
       reset_seconds (info_of_headers (headers r)) = parseInt v)
  ∧ (headers r !! "X-RateLimit-Limit" = None →
       limit (info_of_headers (headers r)) = of_Z 100)
  ∧ (headers r !! "X-RateLimit-Remaining" = None →
       remaining (info_of_headers (headers r)) = of_Z 100)
  ∧ (headers r !! "X-RateLimit-Reset" = None →
       reset_seconds (info_of_headers (headers r)) = of_Z 60)
  ∧ (status r = 429 →
       (directRequest c p (Fulfilled r) now).2 = Rejected "Rate limit exceeded")
  ∧ (no_rate_headers r → shouldWait (rateLimits c') p = false)
  ∧ (∀ keys (l : list (string * outcome (response J) * Z)),
       (∀ r' now', (p, Fulfilled r', now') ∈ l → no_rate_headers r') →
       shouldWait (rateLimits (requests (new_client keys) l)) p = false
       ∧ ∀ i, rateLimits (requests (new_client keys) l) !! p = Some i →
              remaining (inf i) = of_Z 100).
Proof.
  intros Hc Hk Hne c'.
  assert (Hup : rateLimits c'
                = update (rateLimits c) p (info_of_headers (headers r)) now).
  { unfold c'. rewrite directRequest_tracker.
    unfold ready. rewrite Hc, Hk. by rewrite bool_decide_eq_false_2. }
  assert (Hdef : ∀ v d, v ≠ "" → or_default (Some v) d = v).
  { intros v d Hv. unfold or_default. by rewrite bool_decide_eq_false_2. }
  repeat split.
  - rewrite Hup. unfold update. by rewrite lookup_insert_eq.
  - intros v Hv Hv'. unfold info_of_headers. simpl. by rewrite Hv, Hdef.
  - intros v Hv Hv'. unfold info_of_headers. simpl. by rewrite Hv, Hdef.
  - intros v Hv Hv'. unfold info_of_headers. simpl. by rewrite Hv, Hdef.
  - intros Hv. unfold info_of_headers. simpl. by rewrite Hv.
  - intros Hv. unfold info_of_headers. simpl. by rewrite Hv.
  - intros Hv. unfold info_of_headers. simpl. by rewrite Hv.
  - intros Hs. unfold directRequest. rewrite Hc, Hk.
    rewrite bool_decide_eq_false_2 by done. by rewrite Hs.
  - intros (_ & Hrem & _). rewrite Hup. unfold shouldWait, update.
    rewrite lookup_insert_eq. simpl. by rewrite Hrem.
  - destruct (requests_no_headers p l (new_client keys) H) as [Hn|(i & Hi & Hr)].
    + by left.
    + unfold shouldWait. by rewrite Hn.
    + unfold shouldWait. by rewrite Hi, Hr.
  - intros i Hi.
    destruct (requests_no_headers p l (new_client keys) H) as [Hn|(i' & Hi' & Hr)].
    + by left.
    + congruence.
    + congruence.
Qed.

End DirectRequestClaims.

(** The claim at a Pixabay response with status 429 and no headers. *)
Lemma directRequest_updates_rate_limit_witness :
  let c := Client.new_client (<["pixabay" := "secret"]> ∅) in
  let r : Client.response unit := Client.Response 429 ∅ (Rejected "no body") in
  RateLimit.shouldWait
    (Client.rateLimits (Client.directRequest c "pixabay" (Fulfilled r) 5).1)
    "pixabay" = false.
Proof.
  intros c r.
  refine (proj1 (proj2 (proj2 (proj2 (proj2 (proj2 (proj2 (proj2 (proj2
    (directRequest_updates_rate_limit c "pixabay" "secret"
       (Client.Config "pixabay" "https://pixabay.com/api/" "query_param"
                      "key" 86400000 60000 100) r 5 _ _ _))))))))) _).
  - reflexivity.
  - reflexivity.
  - discriminate.
  - repeat split.
Defined.

(* ================================================================== *)
(** * Properties of [Array.prototype.sort]                             *)
(* ================================================================== *)

Section SortFacts.

Context {A : Type} (cmp : A → A → Z).

Abbreviation before := (JSArray.before cmp).

Lemma insert_Permutation (x : A) (l : list A) :
  JSArray.insert cmp x l ≡ₚ x :: l.
Proof.
  induction l as [|y r IH]; simpl; [done|].
  case_bool_decide; [done|]. rewrite IH. apply Permutation_swap.
Qed.

Lemma sort_Permutation (l : list A) : JSArray.sort cmp l ≡ₚ l.
Proof.
  induction l as [|x l IH]; simpl; [done|].
  unfold JSArray.sort in *. simpl. by rewrite insert_Permutation, IH.
Qed.

Hypothesis before_total : ∀ x y, before x y ∨ before y x.
Hypothesis before_trans : ∀ x y z, before x y → before y z → before x z.

Lemma insert_StronglySorted (x : A) (l : list A) :
  StronglySorted before l → StronglySorted before (JSArray.insert cmp x l).
Proof.
  induction 1 as [|y r Hr IH Hy]; simpl.
  - repeat constructor.
  - case_bool_decide as Hxy.
    + constructor; [by constructor|]. constructor; [exact Hxy|].
      eapply Forall_impl; [exact Hy|]. intros z Hz. by eapply before_trans.
    + constructor; [exact IH|]. rewrite insert_Permutation.
      constructor; [|exact Hy].
      destruct (before_total x y) as [H'|H']; [contradiction|exact H'].
Qed.

Lemma sort_StronglySorted (l : list A) :
  StronglySorted before (JSArray.sort cmp l).
Proof.
  induction l as [|x l IH]; [constructor|].
  unfold JSArray.sort in *. simpl. by apply insert_StronglySorted.
Qed.


End SortFacts.

(* ================================================================== *)
(** * Properties of the cache key                                      *)
(* ================================================================== *)

Section CacheKeyClaims.

Import Client.

Variable localeCompare : string → string → Z.

(** The collation is a total order of the keys. *)
Hypothesis collation_total :
  ∀ a b, localeCompare a b ≤ 0 ∨ localeCompare b a ≤ 0.
Hypothesis collation_trans :
  ∀ a b c, localeCompare a b ≤ 0 → localeCompare b c ≤ 0 →
           localeCompare a c ≤ 0.
Hypothesis collation_antisym :
  ∀ a b, localeCompare a b ≤ 0 → localeCompare b a ≤ 0 → a = b.



End CacheKeyClaims.

Section OrdinalCompare.

Import Client.

Lemma ascii_compare_trans (a b c : ascii) :
  Ascii.compare a b ≠ Gt → Ascii.compare b c ≠ Gt → Ascii.compare a c ≠ Gt.
Proof.
  unfold Ascii.compare. rewrite !N.compare_le_iff. lia.
Qed.






End OrdinalCompare.


Example cacheKey_sunset :
  Client.cacheKey Client.ordinalCompare "pixabay" "searchImages"
    [("q", Client.VStr "sunset"); ("page", Client.VNum 1);
     ("perPage", Client.VNull)]
  = "pixabay:searchImages:page=1&q=sunset".
Proof. vm_compute. reflexivity. Qed.

(* ================================================================== *)
(** * Properties of the ranking score                                  *)
(* ================================================================== *)

Section RankingFacts.

Import Ranking.

Lemma prefix_spec (q x : string) :
  String.prefix q x = true ↔ is_prefix q x.
Proof.
  unfold is_prefix. revert x. induction q as [|c q IH]; intros x.
  - destruct x; simpl; split; eauto.
  - destruct x as [|d x]; simpl.
    + split; [discriminate|]. intros [post H]. discriminate.
    + destruct (ascii_dec c d) as [->|Hne].
      * rewrite IH. split; intros [post H]; exists post.
        -- by rewrite H.
        -- by injection H.
      * split; [discriminate|]. intros [post H]. injection H. congruence.
Qed.

Lemma startsWith_spec (x q : string) : startsWith x q = true ↔ is_prefix q x.
Proof. apply prefix_spec. Qed.

Lemma includes_unfold (x q : string) :
  includes x q
  = String.prefix q x
    || match x with EmptyString => false | String _ r => includes r q end.
Proof. by destruct x. Qed.

Lemma includes_spec (x q : string) : includes x q = true ↔ is_infix q x.
Proof.
  unfold is_infix. induction x as [|c x IH]; rewrite includes_unfold.
  - rewrite orb_false_r, prefix_spec. split.
    + intros [post H]. by exists "", post.
    + intros ([|d pre] & post & H); [by exists post|discriminate].
  - rewrite orb_true_iff, prefix_spec, IH. split.
    + intros [[post H]|(pre & post & H)].
      * by exists "", post.
      * exists (String c pre), post. simpl. by rewrite H.
    + intros ([|d pre] & post & H).
      * left. by exists post.
      * right. exists pre, post. simpl in H. by injection H.
Qed.

Lemma endsWith_unfold (x q : string) :
  endsWith x q
  = String.eqb x q
    || match x with EmptyString => false | String _ r => endsWith r q end.
Proof. by destruct x. Qed.

Lemma endsWith_spec (x q : string) : endsWith x q = true ↔ is_suffix q x.
Proof.
  unfold is_suffix. induction x as [|c x IH]; rewrite endsWith_unfold.
  - rewrite orb_false_r, String.eqb_eq. split.
    + intros <-. by exists "".
    + intros ([|d pre] & H); [done|discriminate].
  - rewrite orb_true_iff, String.eqb_eq, IH. split.
    + intros [<-|(pre & H)].
      * by exists "".
      * exists (String c pre). simpl. by rewrite H.
    + intros ([|d pre] & H).
      * by left.
      * right. exists pre. simpl in H. by injection H.
Qed.

Lemma delimited_word_spec (x q : string) :
  includes x (": " +:+ q) || endsWith x (" " +:+ q)
  || includes x (" " +:+ q +:+ " ") = true
  ↔ delimited_word q x.
Proof.
  unfold delimited_word.
  rewrite !orb_true_iff, !includes_spec, endsWith_spec. tauto.
Qed.

Lemma existsb_spec (f : string → bool) (P : string → Prop) (l : list string) :
  (∀ x, f x = true ↔ P x) →
  existsb f l = true ↔ ∃ x, x ∈ l ∧ P x.
Proof.
  intros Hf. rewrite existsb_exists. split; intros (x & Hx & Hp); exists x.
  - split; [by apply list_elem_of_In|by apply Hf].
  - split; [by apply list_elem_of_In|by apply Hf].
Qed.

Lemma length_bonus_bounds (name : string) : 0 ≤ length_bonus name ≤ 30.
Proof. unfold length_bonus. lia. Qed.



Lemma name_tier_total (name q : string) :
  ∃ a, name_tier name q a ∧
       a = (if String.eqb name q then 1000
            else if startsWith name q then 500
            else if includes name (": " +:+ q) || endsWith name (" " +:+ q)
                    || includes name (" " +:+ q +:+ " ") then 350
            else if includes name q then 100 else 0).
Proof.
  destruct (String.eqb name q) eqn:He.
  { apply String.eqb_eq in He. eexists. split; [by apply name_equal|done]. }
  apply String.eqb_neq in He.
  destruct (startsWith name q) eqn:Hp.
  { apply startsWith_spec in Hp. eexists. split; [by apply name_starts|done]. }
  assert (¬ is_prefix q name) as Hp'.
  { rewrite <- startsWith_spec. by rewrite Hp. }
  destruct (includes name (": " +:+ q) || endsWith name (" " +:+ q)
            || includes name (" " +:+ q +:+ " ")) eqn:Hw.
  { apply delimited_word_spec in Hw. eexists. split; [by apply name_word|done]. }
  assert (¬ delimited_word q name) as Hw'.
  { rewrite <- delimited_word_spec. by rewrite Hw. }
  destruct (includes name q) eqn:Hi.
  { apply includes_spec in Hi. eexists. split; [by apply name_contains|done]. }
  assert (¬ is_infix q name) as Hi'.
  { rewrite <- includes_spec. by rewrite Hi. }
  eexists. split; [by apply name_none|done].
Qed.

Lemma tag_tier_total (tags : list string) (q : string) :
  ∃ a, tag_tier tags q a ∧
       a = (if bool_decide (q ∈ tags) then 600
            else if existsb (λ x, startsWith x q) tags then 250
            else if existsb (λ x, includes x q) tags then 50 else 0).
Proof.
  case_bool_decide as He.
  { eexists. split; [by apply tag_equal|done]. }
  destruct (existsb (λ x, startsWith x q) tags) eqn:Hp.
  { rewrite (existsb_spec _ (is_prefix q)) in Hp
      by (intros; apply startsWith_spec).
    eexists. split; [by apply tag_starts|done]. }
  assert (¬ ∃ x, x ∈ tags ∧ is_prefix q x) as Hp'.
  { rewrite <- (existsb_spec (λ x, startsWith x q))
      by (intros; apply startsWith_spec). by rewrite Hp. }
  destruct (existsb (λ x, includes x q) tags) eqn:Hi.
  { rewrite (existsb_spec _ (is_infix q)) in Hi
      by (intros; apply includes_spec).
    eexists. split; [by apply tag_contains|done]. }
  assert (¬ ∃ x, x ∈ tags ∧ is_infix q x) as Hi'.
  { rewrite <- (existsb_spec (λ x, includes x q))
      by (intros; apply includes_spec). by rewrite Hi. }
  eexists. split; [by apply tag_none|done].
Qed.

Lemma getMatchScore_sum (it : item) (q : string) :
  ∃ nameScore tagScore,
    name_tier (toLowerCase (n it)) q nameScore
    ∧ tag_tier (map toLowerCase (default [] (t it))) q tagScore
    ∧ getMatchScore it q
      = nameScore + tagScore + length_bonus (toLowerCase (n it)).
Proof.
  destruct (name_tier_total (toLowerCase (n it)) q) as (a & Ha & Ea).
  destruct (tag_tier_total (map toLowerCase (default [] (t it))) q)
    as (b & Hb & Eb).
  exists a, b. split; [done|]. split; [done|].
  unfold getMatchScore, length_bonus. rewrite Ea, Eb.
  repeat match goal with |- context [if ?c then _ else _] => destruct c end;
    lia.
Qed.

End RankingFacts.

Section RankingClaims.

Import Ranking.


End RankingClaims.


Example score_us_flag :
  Ranking.getMatchScore
    (Ranking.Item "us-flag" "flag: United States" "noto-emoji"
       (Some ["emoji"; "flags"; "country-flag"; "us"]) None false) "us" = 611.
Proof. reflexivity. Qed.

Example score_user :
  Ranking.getMatchScore
    (Ranking.Item "user" "user" "feather" (Some ["icon"; "ui"]) None false)
    "us" = 526.
Proof. reflexivity. Qed.

Example score_de_flag_beats_delete :
  Ranking.getMatchScore
    (Ranking.Item "de-flag" "flag: Germany" "noto-emoji"
       (Some ["emoji"; "flags"; "country-flag"; "de"]) None false) "de" = 617
  ∧ Ranking.getMatchScore
      (Ranking.Item "delete" "delete" "feather" (Some ["icon"; "ui"]) None false)
      "de" = 524.
Proof. split; reflexivity. Qed.

Example score_delimited_word :
  Ranking.getMatchScore
    (Ranking.Item "x" "Flag: US Virgin Islands" "noto-emoji" None None false)
    "us" = 357
  ∧ Ranking.getMatchScore
      (Ranking.Item "y" "focus" "feather" None None false) "us" = 125.
Proof. split; reflexivity. Qed.

(* ================================================================== *)
(** * Properties of the fan-out to the providers                       *)
(* ================================================================== *)

Section SearchImagesFacts.

Import Client.
Context {Image : Type}.

Abbreviation presult := (provider_result Image).






End SearchImagesFacts.

Section SearchApiFacts.

Import Ranking Providers.

Lemma all_Fulfilled {A : Type} (l : list A) : all (map Fulfilled l) = Fulfilled l.
Proof. induction l as [|x l IH]; simpl; [done|]. by rewrite IH. Qed.



Lemma contribution_no_guard (name query : string)
    (attempt : outcome (list item)) (now : Z) (c : apiCache) :
  contribution false name query attempt now c = [].
Proof. reflexivity. Qed.







End SearchApiFacts.

Section FanOutClaims.

Import Ranking Client Providers.



End FanOutClaims.


Example searchImages_one_failure :
  let v := Client.ProviderResult (Image := string) "pexels" 3 ["x"; "y"; "z"] false in
  let run (i : nat) (p : string) :=
    if bool_decide (p = "pexels") then Fulfilled v
    else Rejected "Rate limit exceeded" in
  ∃ r, Client.searchImages_direct "sunset" ["pixabay"; "pexels"] run = Fulfilled r
       ∧ Client.results r !! "pexels" = Some (Client.Value v)
       ∧ Client.results r !! "pixabay"
         = Some (Client.Failure "Rate limit exceeded" [])
       ∧ Client.total_images r = 3.
Proof. eexists. split; [reflexivity|]. vm_compute. done. Qed.

(* ================================================================== *)
(** * Properties of the search coordinator                             *)
(* ================================================================== *)

Section CoordinatorFacts.

Import Ranking Coordinator.

Variable enabledProviders : list string.
Variable passes : item → bool.

Abbreviation resume' := (resume enabledProviders passes).
Abbreviation step' := (step enabledProviders passes).
Abbreviation run' := (run enabledProviders passes).









End CoordinatorFacts.

Section CoordinatorScenario.

Import Examples.



Example superseded_search_is_dropped :
  let st1 := Coordinator.run ["pexels"] (λ _, true)
               (Coordinator.performSearch Coordinator.initial "us")
               us_in_flight in
  let st2 := Coordinator.performSearch st1 "de" in
  Coordinator.tasks st1 = [Coordinator.AwaitApi 1 "us" [user_icon]]
  ∧ Coordinator.screen st1
    = Coordinator.Results [user_icon] (Some "us") true
  ∧ Coordinator.screen
      (Coordinator.step ["pexels"] (λ _, true) st2
         (Coordinator.Resume 0 (Fulfilled [us_photo])))
    = Coordinator.Loading
  ∧ Coordinator.screen
      (Coordinator.run ["pexels"] (λ _, true) st2 de_then)
    = Coordinator.Results [delete_icon] (Some "de") true
  ∧ Coordinator.currentResults
      (Coordinator.run ["pexels"] (λ _, true) st2 de_then)
    = [delete_icon].
Proof. vm_compute. repeat split. Qed.

(** The display at the end of [loadAndDisplaySamples], started by a
    query of fewer than two characters, does not look at the
    generation: when it ends after the results of a later query are
    shown, the samples replace them. *)
Example samples_replace_later_results :
  let st := Coordinator.run [] (λ _, true) Coordinator.initial
              [Coordinator.Query "u"; Coordinator.Query "us";
               Coordinator.Resume 1 (Fulfilled [user_icon]);
               Coordinator.Resume 0 (Fulfilled [delete_icon])] in
  Coordinator.currentSearchId st = 2%nat
  ∧ Coordinator.screen st = Coordinator.Results [delete_icon] None false
  ∧ Coordinator.screenBy st = 1%nat.
Proof. vm_compute. repeat split. Qed.

End CoordinatorScenario.

(* ================================================================== *)
(** * Properties of the provider cache                                 *)
(* ================================================================== *)

Section CacheFacts.

Import Cache.
Context {V : Type}.
Variable quota : store V → bool.
Variable maxSize : nat.

(** The storage accepts every write. *)
Hypothesis fits : ∀ s, quota s = true.

Lemma setIndex_fits (depth : nat) (s : store V) (ix : index) :
  setIndex quota maxSize (S depth) s ix = Some (Store (Some ix) (items s)).
Proof. simpl. unfold setItem_index. by rewrite fits. Qed.

Lemma evict_fits (depth count : nat) (s : store V) :
  ∃ ix its,
    evict quota maxSize (S depth) count s = Some (Store (Some ix) its)
    ∧ ∀ k, is_Some (its !! k) → is_Some (items s !! k).
Proof.
  unfold evict, evict_body.
  set (ix := getIndex s).
  set (sorted := JSArray.sort (by_timestamp (timestamps ix)) (keys ix)).
  assert (∀ n i arr ts (its : gmap string (entry V)),
            ∀ k, is_Some ((evict_loop n i arr ts its).2 !! k)
                 → is_Some (its !! k)) as Hloop.
  { induction n as [|n IH]; intros i arr ts its k; simpl; [done|].
    destruct (arr !! i); [|done]. intros H%IH.
    destruct (decide (k = s0)) as [->|Hne].
    - rewrite lookup_delete_eq in H. by destruct H.
    - by rewrite lookup_delete_ne in H. }
  specialize (Hloop count 0%nat sorted (timestamps ix) (items s)).
  destruct (evict_loop count 0 sorted (timestamps ix) (items s))
    as [[arr ts] its].
  cbv beta iota zeta. rewrite setIndex_fits. simpl. eauto.
Qed.



(** [get] on an entry that is not yet past its expiry. *)
Lemma get_live (depth : nat) (s : store V) (key : string) (now : Z)
    (e : entry V) :
  items s !! key = Some e → now ≤ expires e →
  get quota maxSize (S depth) s key now
  = Some (Store (Some (Index (keys (getIndex s))
                             (<[key := now]> (timestamps (getIndex s)))))
                (items s),
          Some (value e)).
Proof.
  intros He Hnow. unfold get. rewrite He.
  rewrite bool_decide_eq_false_2 by lia. by rewrite setIndex_fits.
Qed.


(** [set] stores the entry; the index it writes is the one it read
    before evicting, with the key added. *)
Lemma set_fits (depth : nat) (s : store V) (key : string) (v : V)
    (ttl now : Z) :
  ∃ s', set quota maxSize (S depth) s key v ttl now = Some s'
        ∧ items s' !! key = Some (Entry v (now + ttl) now)
        ∧ keys (getIndex s')
          = (if JSArray.includes key (keys (getIndex s)) then keys (getIndex s)
             else keys (getIndex s) ++ [key])
        ∧ timestamps (getIndex s') = <[key := now]> (timestamps (getIndex s)).
Proof.
  unfold set.
  destruct (bool_decide (maxSize ≤ List.length (keys (getIndex s)))%nat
            && negb (JSArray.includes key (keys (getIndex s)))).
  - destruct (evict_fits depth (maxSize / 4) s) as (ix & its & -> & _).
    simpl. unfold setItem_entry, setItem_index. rewrite !fits.
    eexists. split; [reflexivity|]. simpl. by rewrite lookup_insert_eq.
  - simpl. unfold setItem_entry, setItem_index. rewrite !fits.
    eexists. split; [reflexivity|]. simpl. by rewrite lookup_insert_eq.
Qed.

End CacheFacts.

Section CacheInvariant.

Import Cache.
Context {V : Type}.
Variable quota : store V → bool.
Variable maxSize : nat.
Hypothesis fits : ∀ s, quota s = true.






(** [set] of a key the index does not list adds it to the index it
    read at the start, whatever an eviction did in between: the count
    grows by one, at capacity too. *)
Lemma set_new_key_count (depth : nat) (s : store V) (key : string) (v : V)
    (ttl now : Z) :
  key ∉ keys (getIndex s) →
  ∃ s', set quota maxSize (S depth) s key v ttl now = Some s'
        ∧ keys (getIndex s') = keys (getIndex s) ++ [key]
        ∧ count s' = S (count s).
Proof.
  intros Hnew.
  destruct (set_fits quota maxSize fits depth s key v ttl now)
    as (s' & Hset & _ & Hkeys & _).
  exists s'. split; [done|]. unfold JSArray.includes in Hkeys.
  rewrite bool_decide_eq_false_2 in Hkeys by done. split; [done|].
  unfold count. rewrite Hkeys, length_app. simpl. lia.
Qed.



End CacheInvariant.

Section CacheRefusal.

Import Cache.
Context {V : Type}.
Variable quota : store V → bool.
Variable maxSize : nat.

(** In a storage that refuses every write, [_setIndex] and [_evict]
    call each other without end: no bound on the nesting of calls is
    enough for [_setIndex] to return. *)
Lemma setIndex_never_returns (depth : nat) (s : store V) (ix : index) :
  (∀ s', quota s' = false) → setIndex quota maxSize depth s ix = None.
Proof.
  intros Hno. revert s ix. induction depth as [|d IH]; intros s ix; [done|].
  simpl. unfold setItem_index. rewrite Hno.
  destruct (evict_body _ s) as [s1 ix1]. apply IH.
Qed.

End CacheRefusal.

Section CacheClaims.

Import Cache.
Context {V : Type}.
Variable quota : store V → bool.
Variable maxSize : nat.


End CacheClaims.

Section CacheScenarios.

Import Cache Examples.


(** When the storage refuses the index that [get] writes, the catch
    block of [_setIndex] evicts, here the very entry that was read: the
    first [get] returns the value, the second nothing, although the
    entry had not expired. *)
Example get_twice_when_storage_is_full :
  ∃ s1 s2,
    get no_room_to_grow 2 2 single "k" 60 = Some (s1, Some "value of k")
    ∧ get no_room_to_grow 2 2 s1 "k" 61 = Some (s2, None).
Proof. eexists _, _. split; vm_compute; reflexivity. Qed.


(** C4 at a full cache.  With capacity 4 and the keys a, b, c, d, the
    oldest first, [set("e", ...)] evicts the entry of a and then writes
    the index it had read before the eviction, with e added: the index
    counts 5 keys.  A second [set] evicts nothing more and leaves 5
    stored entries.  With capacity 8, the two victims are k0 and k2,
    not the two oldest: the loop walks the array it is shortening.  In
    general, on a storage that accepts the writes, [set] of a key the
    index does not list makes the index one key longer, at capacity
    too. *)
Theorem set_at_capacity_overflows :
  (∃ s1 s2,
     set unbounded 4 1 full4 "e" "new" 1000 5 = Some s1
     ∧ keys (getIndex s1) = ["a"; "b"; "c"; "d"; "e"]
     ∧ count s1 = 5%nat
     ∧ items s1 !! "a" = None
     ∧ size (items s1) = 4%nat
     ∧ set unbounded 4 1 s1 "f" "new" 1000 6 = Some s2
     ∧ count s2 = 6%nat
     ∧ size (items s2) = 5%nat)
  ∧ (∃ s1,
       evict unbounded 8 1 (8 / 4) full8 = Some s1
       ∧ keys (getIndex s1) = ["k1"; "k3"; "k4"; "k5"; "k6"; "k7"]
       ∧ is_Some (items s1 !! "k1") ∧ items s1 !! "k2" = None)
  ∧ (∃ s1,
       set unbounded 8 1 full8 "new" "new" 1000 9 = Some s1
       ∧ size (items s1) = 7%nat
       ∧ items s1 !! "k0" = None ∧ is_Some (items s1 !! "k1")
       ∧ items s1 !! "k2" = None)
  ∧ (∀ (V : Type) (quota : store V → bool) (maxSize depth : nat)
       (s : store V) (key : string) (v : V) (ttl now : Z),
       (∀ s', quota s' = true) → key ∉ keys (getIndex s) →
       ∃ s', set quota maxSize (S depth) s key v ttl now = Some s'
             ∧ keys (getIndex s') = keys (getIndex s) ++ [key]
             ∧ count s' = S (count s)).
Proof.
  split; [|split; [|split]].
  - eexists _, _. split; [vm_compute; reflexivity|].
    split; [vm_compute; reflexivity|]. split; [vm_compute; reflexivity|].
    split; [vm_compute; reflexivity|]. split; [vm_compute; reflexivity|].
    split; [vm_compute; reflexivity|]. split; vm_compute; reflexivity.
  - eexists. split; [vm_compute; reflexivity|].
    split; [vm_compute; reflexivity|]. split; [|vm_compute; reflexivity].
    vm_compute. eauto.
  - eexists. split; [vm_compute; reflexivity|].
    split; [vm_compute; reflexivity|]. split; [vm_compute; reflexivity|].
    split; [|vm_compute; reflexivity]. vm_compute. eauto.
  - intros. by apply set_new_key_count.
Qed.

(** C5 at two runs of [set].  On the full cache of capacity 4, after
    [set("e", ...)] the index still lists a, whose entry is gone.  In a
    storage with room for two entries, [set("c", ...)] fails to write,
    evicts, writes the entry at the second attempt and leaves the
    index alone: the entry of c is stored and the index does not list
    c. *)
Theorem set_breaks_index_consistency :
  (∃ s1, set unbounded 4 1 full4 "e" "new" 1000 5 = Some s1
         ∧ ("a" ∈ keys (getIndex s1)) ∧ items s1 !! "a" = None
         ∧ consistentb s1 = false)
  ∧ (∃ s1, set two_entries 4 1 pair2 "c" "new" 1000 5 = Some s1
           ∧ is_Some (items s1 !! "c") ∧ ("c" ∉ keys (getIndex s1))
           ∧ keys (getIndex s1) = ["b"]
           ∧ consistentb s1 = false)
  ∧ consistentb full4 = true ∧ consistentb pair2 = true.
Proof.
  split; [|split; [|split]].
  - eexists. split; [vm_compute; reflexivity|].
    split; [compute_done|]. split; vm_compute; reflexivity.
  - eexists. split; [vm_compute; reflexivity|].
    split; [vm_compute; eauto|]. split; [compute_done|].
    split; vm_compute; reflexivity.
  - vm_compute. reflexivity.
  - vm_compute. reflexivity.
Qed.

End CacheScenarios.

(* ================================================================== *)
(** * Further properties                                               *)
(* ================================================================== *)

Section Further.

Import Cache Ranking.



(** [rankResults] reorders the results by descending score. *)
Theorem rankResults_sorted (results : list item) (query : string) :
  rankResults results query ≡ₚ results
  ∧ StronglySorted
      (λ a b, getMatchScore b query ≤ getMatchScore a query)
      (rankResults results query).
Proof.
  split; [apply sort_Permutation|].
  unfold rankResults.
  set (cmp := λ a b : item, getMatchScore b query - getMatchScore a query).
  assert (Hs : StronglySorted (JSArray.before cmp) (JSArray.sort cmp results)).
  { apply sort_StronglySorted; unfold JSArray.before, cmp; intros; lia. }
  induction Hs as [|x l Hl IH Hx]; constructor; [exact IH|].
  eapply Forall_impl; [exact Hx|].
  intros y. unfold JSArray.before, cmp. lia.
Qed.

End Further.


Lemma setIndex_never_returns_witness :
  Cache.setIndex (λ _ : Cache.store string, false) 4 1000 Examples.full4
                 Cache.empty_index = None.
Proof.
  apply (setIndex_never_returns (λ _ : Cache.store string, false) 4 1000).
  reflexivity.
Defined.

Section HtmlFacts.

Import Ranking Text Html.

Lemma has_gt_replace_tags (b : bool) (s : string) :
  has_gt (replace_tags b s) = true → has_gt s = true.
Proof.
  revert b. induction s as [|c r IH]; intros b; simpl; [done|].
  destruct b.
  - destruct (Ascii.eqb c ">"); [done|]. simpl. apply IH.
  - destruct (Ascii.eqb c "<" && has_gt r) eqn:E.
    + intros _. apply andb_true_iff in E as [_ ->]. by rewrite orb_true_r.
    + simpl. destruct (Ascii.eqb c ">"); [done|]. simpl. apply IH.
Qed.

Lemma replace_tags_tag_free (b : bool) (s : string) :
  tag_free (replace_tags b s) = true.
Proof.
  revert b. induction s as [|c r IH]; intros b; simpl; [done|].
  destruct b.
  - destruct (Ascii.eqb c ">"); apply IH.
  - destruct (Ascii.eqb c "<" && has_gt r) eqn:E; [apply IH|].
    simpl. rewrite IH, andb_true_r. apply negb_true_iff.
    apply andb_false_iff in E as [E|E]; [by rewrite E|].
    apply andb_false_iff. right.
    destruct (has_gt (replace_tags false r)) eqn:G; [|done].
    apply has_gt_replace_tags in G. congruence.
Qed.

Lemma tag_free_fixed (s : string) :
  tag_free s = true → replace_tags false s = s.
Proof.
  induction s as [|c r IH]; simpl; [done|].
  intros [H1 H2]%andb_true_iff. apply negb_true_iff in H1.
  rewrite H1. by rewrite IH.
Qed.

Lemma tag_free_skip_space (s : string) :
  tag_free s = true → tag_free (skip_space s) = true.
Proof.
  induction s as [|c r IH]; simpl; [done|].
  destruct (is_space c); [|done].
  intros [_ H]%andb_true_iff. by apply IH.
Qed.

Lemma has_gt_trimEnd (s : string) :
  has_gt (trimEnd s) = true → has_gt s = true.
Proof.
  induction s as [|c r IH]; simpl; [done|].
  destruct (trimEnd r) as [|d r'] eqn:E.
  - destruct (is_space c); simpl; [done|].
    rewrite orb_false_r. intros ->. done.
  - simpl. simpl in IH. destruct (Ascii.eqb c ">"); [done|]. simpl. apply IH.
Qed.

Lemma tag_free_trimEnd (s : string) :
  tag_free s = true → tag_free (trimEnd s) = true.
Proof.
  induction s as [|c r IH]; simpl; [done|].
  intros [H1 H2]%andb_true_iff. specialize (IH H2).
  pose proof (has_gt_trimEnd r) as Hg.
  destruct (trimEnd r) as [|d r'] eqn:E.
  - destruct (is_space c); simpl; [done|]. by rewrite andb_false_r.
  - simpl. simpl in IH, Hg. rewrite IH, andb_true_r.
    apply negb_true_iff. apply negb_true_iff in H1.
    apply andb_false_iff in H1 as [H1|H1]; [by rewrite H1|].
    apply andb_false_iff. right.
    destruct (Ascii.eqb d ">" || has_gt r') eqn:G; [|done].
    specialize (Hg eq_refl). congruence.
Qed.

Lemma tag_free_containsHtmlTags (s : string) :
  tag_free s = true → containsHtmlTags s = false.
Proof.
  induction s as [|c r IH]; simpl; [done|].
  intros [H1 H2]%andb_true_iff. rewrite (IH H2), orb_false_r.
  apply negb_true_iff in H1.
  apply andb_false_iff in H1 as [H1|H1]; [by rewrite H1|].
  apply andb_false_iff. right. destruct r as [|d r']; [done|].
  simpl in H1. apply orb_false_iff in H1 as [_ ->]. apply andb_false_r.
Qed.

Lemma includes_gt_has_gt (s : string) :
  includes s ">" = has_gt s.
Proof.
  induction s as [|c r IH]; [done|].
  rewrite includes_unfold. cbn [has_gt String.prefix]. rewrite IH. f_equal.
  destruct (ascii_dec ">" c) as [<-|Hne]; [by destruct r|].
  symmetry. apply Ascii.eqb_neq. congruence.
Qed.

Lemma tag_free_no_lt (s : string) :
  includes s "<" = false → tag_free s = true.
Proof.
  induction s as [|c r IH]; [done|].
  rewrite includes_unfold. simpl.
  intros [H1 H2]%orb_false_iff. rewrite (IH H2), andb_true_r.
  apply negb_true_iff, andb_false_iff. left.
  destruct (ascii_dec "<" c) as [<-|Hne].
  - by destruct r.
  - apply Ascii.eqb_neq. congruence.
Qed.

Lemma tag_free_no_gt (s : string) :
  has_gt s = false → tag_free s = true.
Proof.
  induction s as [|c r IH]; simpl; [done|].
  intros [_ H]%orb_false_iff. rewrite H, andb_false_r. simpl. by apply IH.
Qed.

Lemma skip_space_trimEnd (s : string) :
  skip_space (trimEnd (skip_space s)) = trimEnd (skip_space s).
Proof.
  induction s as [|c r IH]; [done|]. cbn [skip_space].
  destruct (is_space c) eqn:E; [exact IH|].
  cbn [trimEnd]. destruct (trimEnd r); rewrite ?E; cbn [skip_space]; by rewrite E.
Qed.

Lemma trimEnd_idemp (s : string) : trimEnd (trimEnd s) = trimEnd s.
Proof.
  induction s as [|c r IH]; [done|]. cbn [trimEnd].
  destruct (trimEnd r) as [|d r'] eqn:E.
  - destruct (is_space c) eqn:S; cbn [trimEnd]; [done|]. by rewrite S.
  - change (trimEnd (String c (String d r')) = String c (String d r')).
    cbn [trimEnd]. cbn [trimEnd] in IH. by rewrite IH.
Qed.

Lemma trim_idemp (s : string) : trim (trim s) = trim s.
Proof.
  unfold trim. rewrite skip_space_trimEnd. apply trimEnd_idemp.
Qed.

(** The text [stripHtml] returns holds no HTML tag, and stripping it
    again changes nothing; a text without [<] or without [>] comes back
    as it is. *)
Theorem stripHtml_removes_tags (text : string) :
  containsHtmlTags (stripHtml text) = false
  ∧ tag_free (stripHtml text) = true
  ∧ stripHtml (stripHtml text) = stripHtml text
  ∧ (includes text "<" = false ∨ includes text ">" = false →
     stripHtml text = text).
Proof.
  assert (Hfree : tag_free (stripHtml text) = true).
  { unfold stripHtml. case_bool_decide as He; [by subst|].
    destruct (includes text "<") eqn:Hl; simpl; [|by apply tag_free_no_lt].
    destruct (includes text ">") eqn:Hg; simpl.
    - apply tag_free_trimEnd, tag_free_skip_space, replace_tags_tag_free.
    - apply tag_free_no_gt. by rewrite <- includes_gt_has_gt. }
  split; [by apply tag_free_containsHtmlTags|]. split; [done|]. split.
  - destruct (decide (text = "")) as [->|He]; [reflexivity|].
    destruct (negb (includes text "<") || negb (includes text ">")) eqn:Hn.
    + assert (stripHtml text = text) as H; [|by rewrite !H].
      unfold stripHtml. rewrite bool_decide_eq_false_2 by done. by rewrite Hn.
    + assert (stripHtml text = trim (replace_tags false text)) as ->.
      { unfold stripHtml. rewrite bool_decide_eq_false_2 by done.
        by rewrite Hn. }
      set (u := trim (replace_tags false text)).
      assert (Hu : tag_free u = true).
      { apply tag_free_trimEnd, tag_free_skip_space, replace_tags_tag_free. }
      unfold stripHtml. case_bool_decide; [done|].
      destruct (negb (includes u "<") || negb (includes u ">")); [done|].
      rewrite (tag_free_fixed u Hu). apply trim_idemp.
  - intros H. unfold stripHtml. case_bool_decide; [done|].
    destruct H as [-> | ->]; simpl; [done|]. by rewrite orb_true_r.
Qed.

Example stripHtml_bold : stripHtml "<b>Bold</b>" = "Bold".
Proof. reflexivity. Qed.

Example stripHtml_nested :
  stripHtml "<div> <span>Woman on Beach</span></div> " = "Woman on Beach".
Proof. reflexivity. Qed.

Example stripHtml_comparison : stripHtml "5 > 3 and 2 < 4" = "5 > 3 and 2 < 4".
Proof. reflexivity. Qed.

End HtmlFacts.

(* ================================================================== *)
(** * Properties of the sidebar filters and of the static index        *)
(* ================================================================== *)

Section SidebarFacts.

Import Ranking Sidebar.

Lemma append_cons (c : ascii) (a b : string) :
  String c a +:+ b = String c (a +:+ b).
Proof. reflexivity. Qed.

Lemma append_assoc (a b c : string) : (a +:+ b) +:+ c = a +:+ (b +:+ c).
Proof.
  induction a as [|x a IH]; [done|]. by rewrite !append_cons, IH.
Qed.

Lemma append_nil_r (a : string) : a +:+ "" = a.
Proof. induction a as [|x a IH]; [done|]. by rewrite append_cons, IH. Qed.

Lemma is_infix_refl (q : string) : is_infix q q.
Proof. exists "", "". by rewrite append_nil_r. Qed.

Lemma is_prefix_infix (q x : string) : is_prefix q x → is_infix q x.
Proof. intros [post ->]. by exists "", post. Qed.

Lemma is_suffix_infix (q x : string) : is_suffix q x → is_infix q x.
Proof. intros [pre ->]. exists pre, "". by rewrite append_nil_r. Qed.

Lemma is_infix_app_l (a q x : string) : is_infix (a +:+ q) x → is_infix q x.
Proof.
  intros (pre & post & ->). exists (pre +:+ a), post.
  by rewrite !append_assoc.
Qed.

Lemma is_infix_app_r (q b x : string) : is_infix (q +:+ b) x → is_infix q x.
Proof.
  intros (pre & post & ->). exists pre, (b +:+ post).
  by rewrite !append_assoc.
Qed.

Lemma delimited_word_infix (q x : string) : delimited_word q x → is_infix q x.
Proof.
  intros [H|[H|H]].
  - by apply is_infix_app_l in H.
  - by apply is_suffix_infix, is_infix_app_l in H.
  - by apply is_infix_app_l, is_infix_app_r in H.
Qed.

(** The name component is 0 when the name does not contain the query
    and at least 100 when it does. *)
Lemma name_tier_infix (name q : string) (a : Z) :
  name_tier name q a →
  (is_infix q name ∧ 100 ≤ a) ∨ (¬ is_infix q name ∧ a = 0).
Proof.
  intros [->|? ?|? ? ?|? ? ? ?|? ? ? ?].
  - left. split; [apply is_infix_refl|lia].
  - left. split; [by apply is_prefix_infix|lia].
  - left. split; [by apply delimited_word_infix|lia].
  - left. split; [done|lia].
  - by right.
Qed.

(** The tag component is 0 when no tag contains the query and at
    least 50 when one does. *)
Lemma tag_tier_infix (tags : list string) (q : string) (b : Z) :
  tag_tier tags q b →
  ((∃ x, x ∈ tags ∧ is_infix q x) ∧ 50 ≤ b)
  ∨ (¬ (∃ x, x ∈ tags ∧ is_infix q x) ∧ b = 0).
Proof.
  intros [?|? (x & ? & ?)|? ? ?|? ? ?].
  - left. split; [|lia]. exists q. split; [done|apply is_infix_refl].
  - left. split; [|lia]. exists x. split; [done|by apply is_prefix_infix].
  - left. split; [done|lia].
  - by right.
Qed.

Lemma matchesQuery_spec (query : string) (it : item) :
  matchesQuery query it = true
  ↔ is_infix query (toLowerCase (n it))
    ∨ ∃ x, x ∈ map toLowerCase (default [] (t it)) ∧ is_infix query x.
Proof.
  unfold matchesQuery. rewrite orb_true_iff, includes_spec.
  rewrite (existsb_spec _ (is_infix query)); [done|].
  intros x. rewrite orb_true_iff, includes_spec, String.eqb_eq. split.
  - intros [H| ->]; [done|apply is_infix_refl].
  - by left.
Qed.

Lemma matchesQuery_score (query : string) (it : item) :
  (matchesQuery query it = true → 50 ≤ getMatchScore it query)
  ∧ (matchesQuery query it = false → getMatchScore it query ≤ 30).
Proof.
  destruct (getMatchScore_sum it query) as (a & b & Ha & Hb & ->).
  pose proof (length_bonus_bounds (toLowerCase (n it))) as Hl.
  apply name_tier_infix in Ha. apply tag_tier_infix in Hb.
  split.
  - rewrite matchesQuery_spec. intros Hm.
    destruct Ha as [[_ Ha]|[Hna ->]], Hb as [[_ Hb]|[Hnb ->]]; try lia.
    destruct Hm; contradiction.
  - intros Hm. assert (¬ (matchesQuery query it = true)) as Hm'
      by (by rewrite Hm).
    rewrite matchesQuery_spec in Hm'.
    destruct Ha as [[Ha _]|[_ ->]]; [tauto|].
    destruct Hb as [[Hb _]|[_ ->]]; [tauto|]. lia.
Qed.

Lemma elem_of_applyFilters (f : filters) (sources : list source)
    (items : list item) (it : item) :
  it ∈ applyFilters f sources items
  ↔ passes f sources it = true ∧ it ∈ items.
Proof.
  unfold applyFilters, Coordinator.applyFilters.
  by rewrite list_elem_of_filter.
Qed.

Lemma elem_of_select (f : filters) (sources : list source) (query : string)
    (items : list item) (it : item) :
  it ∈ select f sources query items
  ↔ it ∈ items ∧ passes f sources it = true ∧ matchesQuery query it = true.
Proof.
  unfold select. rewrite elem_of_applyFilters, list_elem_of_filter. tauto.
Qed.

Lemma remember_ids (items loaded : list item) :
  NoDup (map id loaded) →
  NoDup (map id (remember loaded items))
  ∧ (∀ x, x ∈ map id (remember loaded items)
          ↔ x ∈ map id loaded ∨ x ∈ map id items)
  ∧ loaded `prefix_of` remember loaded items.
Proof.
  revert loaded. induction items as [|it items IH]; intros loaded Hnd.
  - simpl. split; [done|]. split; [|done].
    intros x. rewrite elem_of_nil. tauto.
  - unfold remember. simpl. fold (remember
      (if existsb (λ i, String.eqb (id i) (id it)) loaded then loaded
       else loaded ++ [it]) items).
    destruct (existsb (λ i, String.eqb (id i) (id it)) loaded) eqn:E.
    + destruct (IH loaded Hnd) as (H1 & H2 & H3).
      split; [done|]. split; [|done].
      intros x. rewrite H2, elem_of_cons.
      apply existsb_exists in E as (i & Hi & He).
      apply String.eqb_eq in He.
      assert (id it ∈ map id loaded).
      { rewrite <- He. apply list_elem_of_fmap_2. by apply list_elem_of_In. }
      split; [tauto|]. intros [?|[->|?]]; tauto.
    + assert (id it ∉ map id loaded) as Hnew.
      { intros (i & He & Hi)%list_elem_of_fmap.
        assert (existsb (λ i, String.eqb (id i) (id it)) loaded = true);
          [|congruence].
        apply existsb_exists. exists i.
        split; [by apply list_elem_of_In|]. by apply String.eqb_eq. }
      destruct (IH (loaded ++ [it])) as (H1 & H2 & H3).
      { rewrite map_app. apply NoDup_app. split; [done|].
        split; [|apply NoDup_singleton].
        intros x Hx ->%list_elem_of_singleton. done. }
      split; [done|]. split.
      * intros x. rewrite H2, map_app, elem_of_app, elem_of_cons.
        simpl. rewrite list_elem_of_singleton. tauto.
      * etrans; [|exact H3]. by apply prefix_app_r.
Qed.

End SidebarFacts.

Section SidebarClaims.

Import Ranking Sidebar.

(** The sidebar filters.  With every exclusion cleared, everything
    passes.  Excluding a source removes its items from what passed
    before and nothing else; including it again, when it was not
    excluded before, gives the filters back.  After a branch is
    unchecked no item of a source of the branch passes.  An item whose
    own licence is excluded never passes.  Filtering twice is filtering
    once. *)
Theorem sidebar_filters (f : filters) (sources : list source)
    (items : list item) :
  applyFilters (clearAllFilters f) sources items = items
  ∧ (∀ id, applyFilters (handleSourceChange f id false) sources items
           = filter (λ it, s it ≠ id) (applyFilters f sources items))
  ∧ (∀ id, id ∉ excludedSources f →
       handleSourceChange (handleSourceChange f id false) id true = f
       ∧ removeExclusion (handleSourceChange f id false) "source" id = f)
  ∧ (∀ ids it, it ∈ applyFilters (branchChange f ids false) sources items →
       (s it ∉ ids) ∧ it ∈ applyFilters f sources items)
  ∧ (∀ lic it, l it = Some lic → lic ≠ "" →
       (it ∉ applyFilters (handleFilterChange f lic false) sources items))
  ∧ applyFilters f sources (applyFilters f sources items)
    = applyFilters f sources items.
Proof.
  split; [|split; [|split; [|split; [|split]]]].
  - unfold applyFilters, Coordinator.applyFilters.
    induction items as [|it items IH]; [done|].
    rewrite filter_cons_True; [by rewrite IH|].
    unfold passes, clearAllFilters. cbn [excludedSources excludedLicenses].
    rewrite bool_decide_eq_false_2 by apply not_elem_of_empty.
    rewrite bool_decide_eq_false_2; [done|]. rewrite size_empty. lia.
  - intros id. unfold applyFilters, Coordinator.applyFilters.
    rewrite list_filter_filter. apply list_filter_iff. intros it.
    unfold passes. simpl.
    destruct (decide (s it = id)) as [He|Hne].
    + rewrite bool_decide_eq_true_2
        by (apply elem_of_union; left; by apply elem_of_singleton).
      split; [done|tauto].
    + destruct (decide (s it ∈ excludedSources f)) as [Hin|Hnin].
      * rewrite !bool_decide_eq_true_2
          by (done || (apply elem_of_union; by right)).
        tauto.
      * rewrite !(bool_decide_eq_false_2 (s it ∈ _))
          by (done || (rewrite elem_of_union, elem_of_singleton; tauto)).
        tauto.
  - intros id Hid. destruct f as [xs xl].
    unfold handleSourceChange, removeExclusion. simpl. simpl in Hid.
    assert (({[id]} ∪ xs) ∖ {[id]} = xs) as ->; [|done].
    apply set_eq. intros x.
    rewrite elem_of_difference, elem_of_union, elem_of_singleton.
    split; [tauto|]. intros Hx. split; [tauto|]. by intros ->.
  - intros ids it.
    assert (∀ f0, excludedLicenses (branchChange f0 ids false)
                  = excludedLicenses f0
                  ∧ ∀ x, x ∈ excludedSources (branchChange f0 ids false)
                         ↔ x ∈ ids ∨ x ∈ excludedSources f0) as Hb.
    { induction ids as [|i ids IH]; intros f0.
      - simpl. split; [done|]. intros x. rewrite elem_of_nil. tauto.
      - unfold branchChange. simpl.
        destruct (IH (handleSourceChange f0 i false)) as [H1 H2].
        split; [exact H1|]. intros x.
        unfold branchChange in H2. rewrite H2. simpl.
        rewrite elem_of_cons, elem_of_union, elem_of_singleton. tauto. }
    destruct (Hb f) as [Hl Hs].
    rewrite !elem_of_applyFilters. unfold passes. rewrite Hl.
    intros [Hp Hin].
    destruct (decide (s it ∈ excludedSources (branchChange f ids false)))
      as [Hx|Hx].
    { by rewrite bool_decide_eq_true_2 in Hp. }
    rewrite bool_decide_eq_false_2 in Hp by done.
    rewrite Hs in Hx. split; [tauto|]. split; [|done].
    rewrite bool_decide_eq_false_2 by tauto. done.
  - intros lic it Hl Hne. rewrite elem_of_applyFilters. intros [Hp _].
    unfold passes in Hp. simpl in Hp.
    destruct (bool_decide (s it ∈ excludedSources f)); [done|].
    rewrite bool_decide_eq_true_2 in Hp.
    + unfold itemLicense in Hp. rewrite Hl in Hp.
      rewrite bool_decide_eq_false_2 in Hp by done.
      rewrite bool_decide_eq_true_2 in Hp; [done|].
      apply elem_of_union. left. by apply elem_of_singleton.
    + rewrite size_union_alt, size_singleton. lia.
  - unfold applyFilters, Coordinator.applyFilters.
    rewrite list_filter_filter. apply list_filter_iff. tauto.
Qed.

(** The static search and the ranking agree.  An item passes the query
    filter of [searchStaticIndex] exactly when its score exceeds 30,
    the most the bonus for a short name can give, and then the score is
    at least 50.  So the search returns, of the items of the prefix
    file, those that pass the sidebar filters and score more than 30;
    whatever [searchStaticIndex] resolves to passes the sidebar filters
    and scores at least 50. *)
Theorem static_search_scored (f : filters) (sources : list source)
    (query : string) :
  (∀ it, matchesQuery query it = true ↔ 30 < getMatchScore it query)
  ∧ (∀ items it,
       it ∈ select f sources query items
       ↔ it ∈ items ∧ passes f sources it = true
         ∧ 30 < getMatchScore it query)
  ∧ (∀ lib fetched results it,
       (searchStaticIndex f sources lib query fetched).2 = Fulfilled results →
       it ∈ results →
       passes f sources it = true ∧ 50 ≤ getMatchScore it query).
Proof.
  assert (Hm : ∀ it, matchesQuery query it = true ↔ 30 < getMatchScore it query).
  { intros it. destruct (matchesQuery_score query it) as [H1 H2].
    destruct (matchesQuery query it); split; intros H; try done.
    - specialize (H1 eq_refl). lia.
    - specialize (H2 eq_refl). lia. }
  split; [exact Hm|]. split.
  - intros items it. by rewrite elem_of_select, Hm.
  - intros lib fetched results it.
    assert (∀ items, it ∈ select f sources query items →
              passes f sources it = true ∧ 50 ≤ getMatchScore it query) as Hs.
    { intros items (_ & Hp & Hq)%elem_of_select. split; [done|].
      by apply matchesQuery_score. }
    unfold searchStaticIndex, start.
    destruct (negb (bool_decide (_ ∈ prefixManifest lib))); simpl.
    { intros [= <-]. by intros ?%elem_of_nil. }
    destruct (prefixCache lib !! _) as [items|]; simpl.
    { intros [= <-]. apply Hs. }
    destruct fetched as [items|m]; simpl; [|done].
    intros [= <-]. apply Hs.
Qed.

(** Loading a prefix file.  When [searchStaticIndex] has fetched the
    file of a prefix, every later search with the same first two
    characters is answered from the file without the network; the items
    of the file are all recorded in [allLoadedItems], which keeps the
    items it had, in place, and holds no two items of one id if it held
    none before. *)
Theorem prefix_file_loaded_once (f : filters) (sources : list source)
    (lib : library) (query : string) (items : list item) :
  String.substring 0 2 query ∈ prefixManifest lib →
  prefixCache lib !! String.substring 0 2 query = None →
  ∃ lib',
    searchStaticIndex f sources lib query (Fulfilled items)
    = (lib', Fulfilled (select f sources query items))
    ∧ (∀ f' sources' query' fetched,
         String.substring 0 2 query' = String.substring 0 2 query →
         searchStaticIndex f' sources' lib' query' fetched
         = (lib', Fulfilled (select f' sources' query' items)))
    ∧ (∀ it, it ∈ items → id it ∈ map id (allLoadedItems lib'))
    ∧ allLoadedItems lib `prefix_of` allLoadedItems lib'
    ∧ (NoDup (map id (allLoadedItems lib)) →
       NoDup (map id (allLoadedItems lib'))).
Proof.
  intros Hm Hc. eexists. split.
  { unfold searchStaticIndex, start.
    rewrite bool_decide_eq_true_2 by done. simpl. rewrite Hc. reflexivity. }
  split.
  { intros f' sources' query' fetched Hq.
    unfold searchStaticIndex, start. simpl. rewrite Hq.
    rewrite bool_decide_eq_true_2 by done. simpl.
    by rewrite lookup_insert_eq. }
  simpl.
  assert (∀ loaded,
            (∀ it, it ∈ items → id it ∈ map id (remember loaded items))
            ∧ loaded `prefix_of` remember loaded items) as Hr.
  { clear. induction items as [|it items IH]; intros loaded.
    - split; [by intros it ?%elem_of_nil|done].
    - unfold remember. simpl.
      set (loaded' := if existsb _ loaded then loaded else loaded ++ [it]).
      fold (remember loaded' items).
      destruct (IH loaded') as [H1 H2].
      assert (loaded `prefix_of` loaded') as Hp.
      { unfold loaded'. destruct (existsb _ loaded); [done|].
        by apply prefix_app_r. }
      assert (id it ∈ map id loaded') as Hin.
      { unfold loaded'.
        destruct (existsb (λ i, String.eqb (id i) (id it)) loaded) eqn:E.
        - apply existsb_exists in E as (i & Hi & He).
          apply String.eqb_eq in He. rewrite <- He.
          apply list_elem_of_fmap_2. by apply list_elem_of_In.
        - rewrite map_app, elem_of_app. right. simpl. by left. }
      split; [|by etrans].
      intros x [->|Hx]%elem_of_cons; [|by apply H1].
      destruct H2 as [k ->]. rewrite map_app, elem_of_app. by left. }
  destruct (Hr (allLoadedItems lib)) as [H1 H2].
  split; [exact H1|]. split; [exact H2|].
  intros Hnd. by apply remember_ids.
Qed.

(** The samples of the start page.  Whatever order the shuffle
    produces, at most 120 items are shown, no two of them with the same
    id, each of them passing the sidebar filters and taken from one of
    the first 100 prefix files. *)
Theorem displayItems_spec (shuffle : list item → list item) (f : filters)
    (sources : list source) (files : list (outcome (list item)))
    (shown : list item) :
  (∀ items, shuffle items ≡ₚ items) →
  displayItems shuffle f sources files = Fulfilled shown →
  (List.length shown ≤ 120)%nat
  ∧ NoDup (map id shown)
  ∧ ∀ it, it ∈ shown →
      passes f sources it = true
      ∧ ∃ items, Fulfilled items ∈ take 100 files ∧ it ∈ items.
Proof.
  intros Hsh. unfold displayItems.
  set (tried := take 100 files).
  set (Q := λ it : item,
         passes f sources it = true ∧ ∃ items, Fulfilled items ∈ tried ∧ it ∈ items).
  assert (∀ fs samples out,
            (∀ x, x ∈ fs → x ∈ tried) → Forall Q samples →
            gather f sources fs samples = Fulfilled out → Forall Q out) as Hg.
  { induction fs as [|[items|m] fs IH]; intros samples out Hfs Hs; simpl.
    - by intros [= <-].
    - assert (Forall Q (samples ++ take 10 (applyFilters f sources items))) as Hs'.
      { apply Forall_app. split; [done|]. apply Forall_forall. intros it Hit.
        apply elem_of_take in Hit as (i & Hit & _).
        apply list_elem_of_lookup_2, elem_of_applyFilters in Hit as [Hp Hin].
        split; [done|]. exists items. split; [|done]. apply Hfs. by left. }
      case_bool_decide; [by intros [= <-]|].
      apply IH; [|done]. intros x Hx. apply Hfs. by right.
    - done. }
  assert (∀ samples seen,
            NoDup (map id (unique seen samples))
            ∧ (∀ it, it ∈ unique seen samples → it ∈ samples ∧ id it ∉ seen))
    as Hu.
  { induction samples as [|it samples IH]; intros seen; simpl.
    - split; [constructor|]. by intros it ?%elem_of_nil.
    - case_bool_decide as Hin.
      + destruct (IH seen) as [H1 H2]. split; [done|].
        intros x Hx. destruct (H2 x Hx). split; [by right|done].
      + destruct (IH ({[id it]} ∪ seen)) as [H1 H2]. split.
        * simpl. constructor; [|done].
          intros (y & Hy & Hyin)%list_elem_of_fmap.
          destruct (H2 y Hyin) as [_ Hn]. apply Hn.
          apply elem_of_union. left. by apply elem_of_singleton.
        * intros x [->|Hx]%elem_of_cons; [split; [by left|done]|].
          destruct (H2 x Hx) as [? Hn]. split; [by right|].
          intros ?. apply Hn. apply elem_of_union. by right. }
  destruct (gather f sources tried []) as [samples|m] eqn:E; [|done].
  intros [= <-].
  apply Hg in E; [|done|constructor].
  destruct (Hu samples ∅) as [Hnd Hsub].
  split; [rewrite length_take; lia|]. split.
  - assert (NoDup (map id (shuffle (unique ∅ samples)))) as Hnd'.
    { assert (map id (shuffle (unique ∅ samples))
              ≡ₚ map id (unique ∅ samples)) as Hp
        by apply Permutation_map, Hsh.
      by rewrite Hp. }
    revert Hnd'. generalize (shuffle (unique ∅ samples)). intros l.
    rewrite <- (take_drop 120 l) at 1. rewrite map_app.
    by intros [? _]%NoDup_app.
  - intros it Hit.
    apply elem_of_take in Hit as (i & Hit & _).
    apply list_elem_of_lookup_2 in Hit. rewrite (Hsh _) in Hit.
    apply Hsub in Hit as [Hit _].
    rewrite Forall_forall in E. by apply E.
Qed.

End SidebarClaims.

(* ================================================================== *)
(** * Properties of the provider settings                              *)
(* ================================================================== *)

Section SettingsClaims.

Import Text Providers Settings.

Lemma or_null_has_key (p : provider) :
  has_key (Provider (or_null (apiKey p)) (enabled p)) = has_key p.
Proof.
  unfold has_key, or_null. simpl. destruct (apiKey p) as [k|]; [|done].
  case_bool_decide as He; simpl; [done|]. by rewrite bool_decide_eq_false_2.
Qed.

Lemma elem_of_getEnabledProviders (ps : apiProviders) (x : string) :
  x ∈ getEnabledProviders ps
  ↔ (x = "pexels" ∧ enabled (pexels ps) && has_key (pexels ps) = true)
    ∨ (x = "pixabay" ∧ enabled (pixabay ps) && has_key (pixabay ps) = true)
    ∨ (x = "unsplash" ∧ enabled (unsplash ps) && has_key (unsplash ps) = true)
    ∨ (x = "wikimedia" ∧ enabled (wikimedia ps) = true).
Proof.
  unfold getEnabledProviders. rewrite !elem_of_app.
  destruct (enabled (pexels ps) && has_key (pexels ps)),
    (enabled (pixabay ps) && has_key (pixabay ps)),
    (enabled (unsplash ps) && has_key (unsplash ps)),
    (enabled (wikimedia ps));
    rewrite ?list_elem_of_singleton, ?elem_of_nil; intuition congruence.
Qed.

Lemma has_key_trimmed (v : string) (e : bool) :
  has_key (Provider (or_null (Some v)) e) = negb (bool_decide (v = "")).
Proof.
  unfold has_key, or_null. cbn [apiKey]. case_bool_decide as He; [done|].
  by rewrite bool_decide_eq_false_2.
Qed.

(** The enabled providers are the ones the filter of
    [getEnabledProviders] keeps: enabled, and with a key unless the
    provider is Wikimedia. *)
Lemma elem_of_enabled_lookup (ps : apiProviders) (x : string) :
  x ∈ getEnabledProviders ps
  ↔ ∃ p, lookup ps x = Some p ∧ enabled p = true
         ∧ (x = "wikimedia" ∨ has_key p = true).
Proof.
  rewrite elem_of_getEnabledProviders. unfold lookup. split.
  - intros [[-> H]|[[-> H]|[[-> H]|[-> H]]]];
      try apply andb_true_iff in H as [H1 H2]; eexists;
      (split; [reflexivity|]); auto.
  - intros (p & Hp & He & Hk).
    repeat case_bool_decide; subst; try discriminate;
      injection Hp as <-; rewrite He;
      destruct Hk as [Hk|Hk]; try discriminate; rewrite ?Hk; auto 6.
Qed.

Lemma lookup_assign_eq (ps : apiProviders) (name : string) (p : provider) :
  is_Some (lookup ps name) → lookup (assign ps name p) name = Some p.
Proof.
  unfold lookup, assign. intros [q Hq].
  repeat case_bool_decide; subst; try discriminate; reflexivity.
Qed.

Lemma lookup_assign_ne (ps : apiProviders) (name other : string)
    (p : provider) :
  other ≠ name → lookup (assign ps name p) other = lookup ps other.
Proof.
  unfold lookup, assign. intros Hne.
  repeat case_bool_decide; subst; try done.
Qed.

Lemma lookup_keyed (ps : apiProviders) (name : string) :
  name ∈ ["pexels"; "pixabay"; "unsplash"] →
  is_Some (lookup ps name) ∧ name ≠ "wikimedia".
Proof.
  intros Hn. unfold lookup.
  repeat (apply elem_of_cons in Hn as [->|Hn]);
    [| | |by apply elem_of_nil in Hn]; split; eauto; discriminate.
Qed.

(** Saving a key and the list of enabled providers.  A key that is
    not blank, saved for Pexels, Pixabay or Unsplash, puts the provider
    on the list, with the trimmed key; a blank one takes it off;
    switching a provider off takes it off; neither changes whether
    another provider is listed; clearing all keys leaves Wikimedia, if
    it was enabled, and nothing else; a provider that does not exist
    changes nothing. *)
Theorem settings_enable_providers (ps : apiProviders) (name value : string) :
  (name ∈ ["pexels"; "pixabay"; "unsplash"] →
     (name ∈ getEnabledProviders (saveApiKey ps name value)
      ↔ trim value ≠ ""))
  ∧ (trim value ≠ "" → is_Some (lookup ps name) →
     lookup (saveApiKey ps name value) name
     = Some (Provider (Some (trim value)) true))
  ∧ (name ∉ getEnabledProviders (toggleProvider ps name false))
  ∧ (∀ other, other ≠ name →
       (other ∈ getEnabledProviders (toggleProvider ps name false)
        ↔ other ∈ getEnabledProviders ps)
       ∧ (other ∈ getEnabledProviders (saveApiKey ps name value)
          ↔ other ∈ getEnabledProviders ps))
  ∧ getEnabledProviders (clearAllApiKeys ps)
    = (if enabled (wikimedia ps) then ["wikimedia"] else [])
  ∧ (lookup ps name = None →
     saveApiKey ps name value = ps ∧ toggleProvider ps name false = ps).
Proof.
  split; [|split; [|split; [|split; [|split]]]].
  - intros Hn. destruct (lookup_keyed ps name Hn) as [[q Hq] Hw].
    rewrite elem_of_enabled_lookup. unfold saveApiKey. rewrite Hq.
    rewrite lookup_assign_eq by eauto. split.
    + intros (p & [= <-] & He & [?|Hk]); [done|].
      intros Hv. rewrite !(bool_decide_eq_true_2 _ Hv) in Hk. discriminate.
    + intros Hv. eexists. split; [reflexivity|].
      rewrite has_key_trimmed. cbn [enabled].
      rewrite !bool_decide_eq_false_2 by done. auto.
  - intros Hv [q Hq]. unfold saveApiKey. rewrite Hq.
    rewrite lookup_assign_eq by eauto. unfold or_null.
    by rewrite !bool_decide_eq_false_2.
  - rewrite elem_of_enabled_lookup. unfold toggleProvider.
    destruct (lookup ps name) as [q|] eqn:Hq.
    + rewrite lookup_assign_eq by eauto. by intros (p & [= <-] & He & _).
    + rewrite Hq. by intros (p & ? & _).
  - intros other Hne. rewrite !elem_of_enabled_lookup.
    unfold toggleProvider, saveApiKey.
    destruct (lookup ps name) as [q|]; [|done].
    by rewrite !lookup_assign_ne.
  - unfold getEnabledProviders, clearAllApiKeys.
    cbn [pexels pixabay unsplash wikimedia enabled]. simpl.
    by destruct (enabled (wikimedia ps)).
  - unfold saveApiKey, toggleProvider. by intros ->.
Qed.

(** The settings survive a reload.  When the storage accepts the two
    writes of [saveApiKeys], [loadApiKeys] on a fresh page restores,
    for every provider, whether it is enabled and whether it has a key,
    and the keys of Pexels, Pixabay and Unsplash (an empty key comes
    back as none); the list of enabled providers is the same.  A key
    given to Wikimedia is not saved. *)
Theorem settings_survive_reload (ps : apiProviders) (st : storage) :
  let ps' := loadApiKeys defaults (saveApiKeys true true ps st) in
  getEnabledProviders ps' = getEnabledProviders ps
  ∧ (∀ name p, lookup ps name = Some p →
       ∃ p', lookup ps' name = Some p' ∧ enabled p' = enabled p
             ∧ apiKey p' = (if bool_decide (name = "wikimedia") then None
                            else or_null (apiKey p))).
Proof.
  intros ps'. unfold ps', loadApiKeys, saveApiKeys, restore.
  cbn [stagvault_api_keys stagvault_wikimedia_enabled].
  set (keys := <["unsplash" := unsplash ps]> _).
  assert (keys !! "pexels" = Some (pexels ps)) as ->.
  { unfold keys. rewrite !lookup_insert_ne by done. apply lookup_insert_eq. }
  assert (keys !! "pixabay" = Some (pixabay ps)) as ->.
  { unfold keys. rewrite lookup_insert_ne by done. apply lookup_insert_eq. }
  assert (keys !! "unsplash" = Some (unsplash ps)) as ->
    by apply lookup_insert_eq.
  assert (keys !! "wikimedia" = None) as ->.
  { unfold keys. rewrite !lookup_insert_ne by done. apply lookup_empty. }
  cbn [pexels pixabay unsplash wikimedia apiKey enabled defaults].
  assert (bool_decide ((if enabled (wikimedia ps) then "true" else "false")
                       = "true") = enabled (wikimedia ps)) as ->.
  { by destruct (enabled (wikimedia ps)). }
  split.
  - unfold getEnabledProviders.
    cbn [pexels pixabay unsplash wikimedia enabled].
    by rewrite !or_null_has_key.
  - intros name p. unfold lookup.
    repeat case_bool_decide; subst; try discriminate; intros [= <-];
      eexists; (split; [reflexivity|]); done.
Qed.

End SettingsClaims.

Section ApiSourcesClaims.

Import Providers Sidebar Settings ApiSources.

Lemma add_provider_spec (active : bool) (providerId : string) (st : listing) :
  sources st `prefix_of` sources (add_provider active providerId st)
  ∧ (NoDup (map source_id (sources st)) →
     NoDup (map source_id (sources (add_provider active providerId st))))
  ∧ (∀ x, x ∈ map source_id (sources (add_provider active providerId st))
          ↔ x ∈ map source_id (sources st) ∨ (active = true ∧ x = providerId))
  ∧ discoveredLicenses st ⊆ discoveredLicenses (add_provider active providerId st)
  ∧ (active = true →
     list_to_set (licenses providerId)
     ⊆ discoveredLicenses (add_provider active providerId st)).
Proof.
  unfold add_provider. destruct active; simpl.
  2:{ split; [done|]. split; [done|]. split; [|done]. intros x.
      split; [by left|]. by intros [?|[? _]]. }
  destruct (existsb _ (sources st)) eqn:E.
  - apply existsb_exists in E as (src & Hin & He). apply String.eqb_eq in He.
    assert (providerId ∈ map source_id (sources st)) as Hp.
    { rewrite <- He. apply list_elem_of_fmap_2. by apply list_elem_of_In. }
    split; [done|]. split; [done|]. split; [|split].
    + intros x. split; [by left|]. by intros [?|[_ ->]].
    + apply union_subseteq_r.
    + intros _. apply union_subseteq_l.
  - assert (providerId ∉ map source_id (sources st)) as Hp.
    { intros (src & He & Hin)%list_elem_of_fmap.
      assert (existsb (λ s, String.eqb (source_id s) providerId) (sources st)
              = true); [|congruence].
      apply existsb_exists. exists src. split; [by apply list_elem_of_In|].
      by apply String.eqb_eq. }
    split; [by apply prefix_app_r|]. split; [|split; [|split]].
    + intros Hnd. rewrite map_app. apply NoDup_app. split; [done|].
      split; [|apply NoDup_singleton].
      intros x Hx ->%list_elem_of_singleton. done.
    + intros x. rewrite map_app, elem_of_app. simpl.
      rewrite list_elem_of_singleton. tauto.
    + apply union_subseteq_r.
    + intros _. apply union_subseteq_l.
Qed.

Lemma add_provider_idemp (active : bool) (providerId : string) (st : listing) :
  add_provider active providerId (add_provider active providerId st)
  = add_provider active providerId st.
Proof.
  unfold add_provider. destruct active; [|done]. simpl.
  set (new := Source providerId _ 0).
  assert (existsb (λ s, String.eqb (source_id s) providerId)
            (if existsb (λ s, String.eqb (source_id s) providerId) (sources st)
             then sources st else sources st ++ [new]) = true) as ->.
  { destruct (existsb _ (sources st)) eqn:E; [done|].
    rewrite existsb_app. simpl. rewrite String.eqb_refl.
    by rewrite orb_true_r. }
  f_equal. apply set_eq. intros x. rewrite !elem_of_union. tauto.
Qed.

Lemma add_provider_fixed (active : bool) (providerId : string) (st : listing) :
  (active = true →
   providerId ∈ map source_id (sources st)
   ∧ list_to_set (licenses providerId) ⊆ discoveredLicenses st) →
  add_provider active providerId st = st.
Proof.
  unfold add_provider. destruct active; [|done]. intros H.
  destruct (H eq_refl) as [Hin Hsub]. destruct st as [srcs disc]. simpl in *.
  assert (existsb (λ s, String.eqb (source_id s) providerId) srcs = true) as ->.
  { apply list_elem_of_fmap in Hin as (src & -> & Hin).
    apply existsb_exists. exists src. split; [by apply list_elem_of_In|].
    apply String.eqb_refl. }
  f_equal. by apply subseteq_union_1_L.
Qed.

Lemma addApiSourcesToTree_grows (ps : apiProviders) (st : listing) :
  let st' := addApiSourcesToTree ps st in
  sources st `prefix_of` sources st'
  ∧ (NoDup (map source_id (sources st)) → NoDup (map source_id (sources st')))
  ∧ (∀ x, x ∈ map source_id (sources st')
          ↔ x ∈ map source_id (sources st) ∨ x ∈ getEnabledProviders ps)
  ∧ discoveredLicenses st ⊆ discoveredLicenses st'
  ∧ addApiSourcesToTree ps st' = st'.
Proof.
  intros st'. unfold st', addApiSourcesToTree.
  set (a1 := enabled (pexels ps) && has_key (pexels ps)).
  set (a2 := enabled (pixabay ps) && has_key (pixabay ps)).
  set (a3 := enabled (unsplash ps) && has_key (unsplash ps)).
  set (a4 := enabled (wikimedia ps)).
  set (s1 := add_provider a1 "pexels" st).
  set (s2 := add_provider a2 "pixabay" s1).
  set (s3 := add_provider a3 "unsplash" s2).
  set (s4 := add_provider a4 "wikimedia" s3).
  destruct (add_provider_spec a1 "pexels" st) as (P1 & N1 & E1 & D1 & L1).
  destruct (add_provider_spec a2 "pixabay" s1) as (P2 & N2 & E2 & D2 & L2).
  destruct (add_provider_spec a3 "unsplash" s2) as (P3 & N3 & E3 & D3 & L3).
  destruct (add_provider_spec a4 "wikimedia" s3) as (P4 & N4 & E4 & D4 & L4).
  fold s1 in P1, N1, E1, D1, L1. fold s2 in P2, N2, E2, D2, L2.
  fold s3 in P3, N3, E3, D3, L3. fold s4 in P4, N4, E4, D4, L4.
  assert (Hids : ∀ x, x ∈ map source_id (sources s4)
                      ↔ x ∈ map source_id (sources st)
                        ∨ x ∈ getEnabledProviders ps).
  { intros x. rewrite E4, E3, E2, E1, elem_of_getEnabledProviders.
    fold a1 a2 a3 a4. tauto. }
  split; [by repeat (etrans; [eassumption|])|].
  split; [tauto|]. split; [exact Hids|].
  split; [by repeat (etrans; [eassumption|])|].
  rewrite (add_provider_fixed a1 "pexels" s4).
  2:{ intros Ha. split.
      - apply E4. left. apply E3. left. apply E2. left. apply E1. by right.
      - etrans; [by apply L1|]. by repeat (etrans; [eassumption|]). }
  rewrite (add_provider_fixed a2 "pixabay" s4).
  2:{ intros Ha. split.
      - apply E4. left. apply E3. left. apply E2. by right.
      - etrans; [by apply L2|]. by repeat (etrans; [eassumption|]). }
  rewrite (add_provider_fixed a3 "unsplash" s4).
  2:{ intros Ha. split.
      - apply E4. left. apply E3. by right.
      - etrans; [by apply L3|]. done. }
  apply add_provider_fixed. intros Ha. split.
  - apply E4. by right.
  - by apply L4.
Qed.

(** The providers among the sources.  [addApiSourcesToTree] adds every
    enabled provider that is not yet a source, after the sources there
    are, and removes none: the ids of the sources afterwards are the
    ones before and the enabled providers; sources with distinct ids
    stay so; running it again changes nothing; and a provider that was
    added stays a source when it is disabled afterwards. *)
Theorem api_sources_listed_once (ps : apiProviders) (st : listing) :
  let st' := addApiSourcesToTree ps st in
  sources st `prefix_of` sources st'
  ∧ (NoDup (map source_id (sources st)) → NoDup (map source_id (sources st')))
  ∧ (∀ x, x ∈ map source_id (sources st')
          ↔ x ∈ map source_id (sources st) ∨ x ∈ getEnabledProviders ps)
  ∧ discoveredLicenses st ⊆ discoveredLicenses st'
  ∧ addApiSourcesToTree ps st' = st'
  ∧ (∀ name, name ∈ getEnabledProviders ps →
       name ∈ map source_id
                (sources (addApiSourcesToTree (toggleProvider ps name false)
                            st'))).
Proof.
  intros st'.
  destruct (addApiSourcesToTree_grows ps st) as (H1 & H2 & H3 & H4 & H5).
  fold st' in H1, H2, H3, H4, H5.
  split; [done|]. split; [done|]. split; [done|]. split; [done|].
  split; [done|].
  intros name Hname.
  destruct (addApiSourcesToTree_grows (toggleProvider ps name false) st')
    as (_ & _ & H3' & _).
  apply H3'. left. apply H3. by right.
Qed.

Lemma refresh_item_spec (d : gset string) (b : bool) (it : Ranking.item) :
  refresh_item (d, b) it
  = match or_null (Ranking.l it) with
    | Some lic => if bool_decide (lic ∈ d) then (d, b) else ({[lic]} ∪ d, true)
    | None => (d, b)
    end.
Proof.
  unfold refresh_item, or_null, addDiscoveredLicense.
  destruct (Ranking.l it) as [x|]; [|done].
  case_bool_decide; [done|]. cbn [orb].
  by case_bool_decide.
Qed.

Lemma refresh_fold (its : list Ranking.item) (d : gset string) (b : bool) :
  let after := foldl refresh_item (d, b) its in
  (∀ lic, lic ∈ after.1
          ↔ lic ∈ d ∨ ∃ it, it ∈ its ∧ or_null (Ranking.l it) = Some lic)
  ∧ (after.2 = true
     ↔ b = true ∨ ∃ it lic, it ∈ its
                    ∧ or_null (Ranking.l it) = Some lic ∧ lic ∉ d).
Proof.
  revert d b. induction its as [|it its IH]; intros d b; cbn [foldl].
  - cbn [fst snd]. split.
    + intros lic. split; [by left|]. by intros [?|(? & ?%elem_of_nil & _)].
    + split; [by left|]. by intros [?|(? & ? & ?%elem_of_nil & _)].
  - rewrite refresh_item_spec.
    assert (Hsame : ∀ d' b',
              (∀ lic, lic ∈ d' ↔ lic ∈ d
                      ∨ or_null (Ranking.l it) = Some lic) →
              (b' = true ↔ b = true
                           ∨ ∃ lic, or_null (Ranking.l it) = Some lic
                                    ∧ lic ∉ d) →
              (∀ lic, lic ∈ (foldl refresh_item (d', b') its).1
                 ↔ lic ∈ d ∨ ∃ it0, it0 ∈ it :: its
                                    ∧ or_null (Ranking.l it0) = Some lic)
              ∧ ((foldl refresh_item (d', b') its).2 = true
                 ↔ b = true ∨ ∃ it0 lic, it0 ∈ it :: its
                                ∧ or_null (Ranking.l it0) = Some lic
                                ∧ lic ∉ d)).
    { intros d' b' Hd Hb. destruct (IH d' b') as [I1 I2]. split.
      - intros lic. rewrite I1, Hd. split.
        + intros [[?|?]|(it' & ? & ?)]; [by left| |].
          * right. exists it. split; [by left|done].
          * right. exists it'. split; [by right|done].
        + intros [?|(it' & [->|?]%elem_of_cons & Hl)].
          * by left; left.
          * by left; right.
          * right. by exists it'.
      - rewrite I2, Hb. split.
        + intros [[?|(lic & ? & ?)]|(it' & lic & ? & ? & Hn)].
          * by left.
          * right. exists it, lic. split; [by left|done].
          * destruct (decide (lic ∈ d)) as [Hin|Hnin].
            -- exfalso. apply Hn, Hd. by left.
            -- right. exists it', lic. split; [by right|done].
        + intros [?|(it' & lic & [->|?]%elem_of_cons & Hl & Hn)].
          * by left; left.
          * left. right. by exists lic.
          * destruct (decide (lic ∈ d')) as [Hin|Hnin].
            -- apply Hd in Hin as [?|Hin]; [done|]. left. right.
               by exists lic.
            -- right. by exists it', lic. }
    destruct (or_null (Ranking.l it)) as [x|] eqn:El.
    + case_bool_decide as Hx.
      * apply Hsame.
        -- intros lic. split; [by left|]. intros [?|[= <-]]; done.
        -- split; [by left|]. intros [?|(lic & [= <-] & ?)]; done.
      * apply Hsame.
        -- intros lic. rewrite elem_of_union, elem_of_singleton. split.
           ++ intros [->|?]; [by right|by left].
           ++ intros [?|[= <-]]; [by right|by left].
        -- split; [|done]. intros _. right. by exists x.
    + apply Hsame.
      * intros lic. split; [by left|]. by intros [?|?].
      * split; [by left|]. by intros [?|(? & ? & ?)].
Qed.

(** The licences found in provider results.  After
    [refreshLicensesIfNeeded] the discovered licences are the ones
    before and the licences the items carry; the sidebar is rendered
    again exactly when one of them was not discovered before, so not a
    second time for the same items. *)
Theorem licences_refreshed_when_new (discovered : gset string)
    (items : list Ranking.item) :
  let after := refreshLicensesIfNeeded discovered items in
  (∀ lic, lic ∈ after.1
          ↔ lic ∈ discovered
            ∨ ∃ it, it ∈ items ∧ or_null (Ranking.l it) = Some lic)
  ∧ (after.2 = true
     ↔ ∃ it lic, it ∈ items ∧ or_null (Ranking.l it) = Some lic
                 ∧ lic ∉ discovered)
  ∧ (refreshLicensesIfNeeded after.1 items).2 = false.
Proof.
  intros after. unfold after, refreshLicensesIfNeeded.
  destruct (refresh_fold items discovered false) as [H1 H2].
  split; [exact H1|]. split.
  - rewrite H2. split; [by intros [?|?]|by right].
  - destruct (refresh_fold items
                (foldl refresh_item (discovered, false) items).1 false)
      as [_ H4].
    apply not_true_is_false. intros E.
    apply H4 in E as [?|(it & lic & Hit & Hl & Hn)]; [done|].
    apply Hn. apply H1. right. by exists it.
Qed.

End ApiSourcesClaims.

Section ApiCacheClaims.

Import Ranking Providers.

(** The answers of a provider are reused for 24 hours.  When the cache
    has no live entry for a search and the request succeeds, the items
    are returned, and every search of the same provider and query
    before [now + API_CACHE_TTL] returns the same items whatever the
    network does, and leaves the cache as it is; from
    [now + API_CACHE_TTL] on the network is asked again.  A request
    that fails is answered with no items and is not remembered: the
    next search asks the network again. *)
Theorem api_answer_reused (name query : string) (results : list item)
    (now : Z) (c : apiCache) :
  (getCachedApiResponse c (cache_key name query) now).2 = None →
  ∃ c1,
    search true name query (Fulfilled results) now c = (c1, Fulfilled results)
    ∧ (∀ later attempt, later < now + API_CACHE_TTL →
         search true name query attempt later c1 = (c1, Fulfilled results))
    ∧ (∀ later attempt, now + API_CACHE_TTL ≤ later →
         (search true name query attempt later c1).2
         = Fulfilled (match attempt with
                      | Fulfilled found => found
                      | Rejected _ => []
                      end))
    ∧ (∀ message, ∃ c2,
         search true name query (Rejected message) now c = (c2, Fulfilled [])
         ∧ ∀ later attempt,
             (search true name query attempt later c2).2
             = Fulfilled (match attempt with
                      | Fulfilled found => found
                      | Rejected _ => []
                      end)).
Proof.
  intros Hmiss.
  assert (∃ c0, getCachedApiResponse c (cache_key name query) now = (c0, None)
                ∧ (c0 !! cache_key name query = None
                   ∨ ∃ data expires, c = c0
                       ∧ c !! cache_key name query = Some (data, expires)
                       ∧ False)) as (c0 & Hget & Hc0).
  { unfold getCachedApiResponse in *.
    destruct (c !! cache_key name query) as [[data expires]|] eqn:E.
    - case_bool_decide; [done|]. eexists. split; [done|]. left.
      apply lookup_delete_eq.
    - eexists. split; [done|]. by left. }
  destruct Hc0 as [Hc0|(? & ? & _ & _ & [])].
  exists (setCachedApiResponse c0 (cache_key name query) results now).
  split; [|split; [|split]].
  - unfold search. simpl. by rewrite Hget.
  - intros later attempt Hl. unfold search, getCachedApiResponse,
      setCachedApiResponse. simpl. rewrite lookup_insert_eq.
    by rewrite bool_decide_eq_true_2 by lia.
  - intros later attempt Hl. unfold search, getCachedApiResponse,
      setCachedApiResponse. simpl. rewrite lookup_insert_eq.
    rewrite bool_decide_eq_false_2 by lia. by destruct attempt.
  - intros message. exists c0. split.
    + unfold search. simpl. by rewrite Hget.
    + intros later attempt. unfold search, getCachedApiResponse. simpl.
      rewrite Hc0. by destruct attempt.
Qed.

End ApiCacheClaims.

(* ================================================================== *)
(** * Properties of the cache around a search                          *)
(* ================================================================== *)

Section ClientCacheFacts.

Import Cache Client ClientCache.
Context {V : Type}.
Variable quota : store V → bool.
Variable maxSize : nat.
Hypothesis fits : ∀ s, quota s = true.

(** The keys [clear(providerPrefix)] deletes. *)
Lemma clear_items (depth : nat) (s : store V) (providerPrefix : option string) :
  ∃ s', clear quota maxSize (S depth) s providerPrefix = Some s'
        ∧ ∀ k, items s' !! k
               = if bool_decide (k ∈ keys (getIndex s))
                    && selects providerPrefix k
                 then None else items s !! k.
Proof.
  unfold clear.
  set (del := match providerPrefix with
              | Some p => if bool_decide (p = "") then keys (getIndex s)
                          else filter (λ k, String.prefix p k = true)
                                      (keys (getIndex s))
              | None => keys (getIndex s)
              end).
  assert (∀ k, k ∈ del ↔ bool_decide (k ∈ keys (getIndex s))
                          && selects providerPrefix k = true) as Hdel.
  { intros k. rewrite andb_true_iff, bool_decide_eq_true.
    unfold del, selects. destruct providerPrefix as [p|]; [|tauto].
    case_bool_decide as Hp; [simpl; tauto|]. rewrite list_elem_of_filter.
    simpl. tauto. }
  assert (∀ (l : list string) (s0 : store V) (ix0 : index),
            ∃ s1 ix1,
              foldl (λ '(s0, ix0) key,
                       (removeItem s0 key,
                        Index (JSArray.remove_first key (keys ix0))
                              (base.delete key (timestamps ix0))))
                    (s0, ix0) l = (s1, ix1)
              ∧ ∀ k, items s1 !! k
                     = if decide (k ∈ l) then None else items s0 !! k) as Hf.
  { induction l as [|d l IH]; intros s0 ix0.
    - exists s0, ix0. split; [done|]. intros k.
      rewrite decide_False; [done|apply not_elem_of_nil].
    - simpl.
      destruct (IH (removeItem s0 d)
                   (Index (JSArray.remove_first d (keys ix0))
                          (base.delete d (timestamps ix0))))
        as (s1 & ix1 & -> & Hi).
      exists s1, ix1. split; [done|]. intros k. rewrite Hi. simpl.
      destruct (decide (k ∈ l)) as [Hin|Hnin].
      + rewrite decide_True; [done|by right].
      + destruct (decide (k = d)) as [->|Hne].
        * rewrite decide_True by (by left). apply lookup_delete_eq.
        * rewrite decide_False; [by apply lookup_delete_ne|].
          rewrite not_elem_of_cons. done. }
  destruct (Hf del s (getIndex s)) as (s1 & ix1 & -> & Hi).
  rewrite setIndex_fits by done. eexists. split; [reflexivity|].
  intros k. simpl. rewrite Hi.
  destruct (decide (k ∈ del)) as [Hin|Hnin].
  - apply Hdel in Hin. by rewrite Hin.
  - rewrite Hdel in Hnin. by apply not_true_is_false in Hnin as ->.
Qed.

End ClientCacheFacts.

Section ClientCacheClaims.

Import Cache Client ClientCache.

(** What [clear] removes.  On a storage that accepts the writes,
    [clear(providerPrefix)] removes the entries whose keys the index
    lists and that start with the prefix (all the listed keys when no
    prefix or an empty one is given), and no other entry: an entry that
    the index does not list stays in the storage, and [get] goes on
    returning it. *)
Theorem clear_removes_indexed {V : Type} (quota : store V → bool)
    (maxSize depth : nat) (s : store V) (providerPrefix : option string) :
  (∀ s', quota s' = true) →
  ∃ s', clear quota maxSize (S depth) s providerPrefix = Some s'
        ∧ (∀ k, k ∈ keys (getIndex s) → selects providerPrefix k = true →
             items s' !! k = None)
        ∧ (∀ k p, providerPrefix = Some p → p ≠ "" →
             String.prefix p k = false → items s' !! k = items s !! k)
        ∧ (∀ k e now, k ∉ keys (getIndex s) → items s !! k = Some e →
             now ≤ expires e →
             ∃ s'', get quota maxSize (S depth) s' k now
                    = Some (s'', Some (value e))).
Proof.
  intros fits.
  destruct (clear_items quota maxSize fits depth s providerPrefix)
    as (s' & Hc & Hi).
  exists s'. split; [done|]. split; [|split].
  - intros k Hk Hp. rewrite Hi, Hp. by rewrite bool_decide_eq_true_2.
  - intros k p -> Hne Hp. rewrite Hi. unfold selects. rewrite Hp.
    rewrite (bool_decide_eq_false_2 (p = "")) by done.
    by rewrite andb_false_r.
  - intros k e now Hk He Hnow.
    rewrite (get_live quota maxSize fits depth s' k now e); [eauto| |done].
    rewrite Hi. by rewrite bool_decide_eq_false_2.
Qed.


End ClientCacheClaims.

Section DirectRequestMore.

Import RateLimit Client.
Context {J : Type}.






End DirectRequestMore.

(* ================================================================== *)
(** * Properties of the search over the static index                   *)
(* ================================================================== *)

Section VaultFacts.

Import Client Vault.




Abbreviation nonempty := (filter (λ t : string, t ≠ EmptyString)).




Lemma slice0_sublist {A : Type} (l : list A) (e : Z) : slice0 l e `sublist_of` l.
Proof. unfold slice0. destruct (e <? 0); apply sublist_take. Qed.

Lemma slice0_all {A : Type} (l : list A) (e : Z) :
  Z.of_nat (List.length l) ≤ e → slice0 l e = l.
Proof.
  intros He. unfold slice0. rewrite (proj2 (Z.ltb_ge e 0)) by lia.
  apply take_ge. lia.
Qed.

Lemma find_first {A : Type} (f : A → bool) (l : list A) :
  match List.find f l with
  | Some x => ∃ i, l !! i = Some x ∧ f x = true
                   ∧ ∀ j y, (j < i)%nat → l !! j = Some y → f y = false
  | None => ∀ y, y ∈ l → f y = false
  end.
Proof.
  induction l as [|a l IH]; simpl.
  - by intros y ?%elem_of_nil.
  - destruct (f a) eqn:Ea.
    + exists 0%nat. split; [done|]. split; [done|]. intros j y Hj. lia.
    + destruct (List.find f l) as [x|].
      * destruct IH as (i & Hi & Hx & Hfirst). exists (S i).
        split; [done|]. split; [done|]. intros [|j] y Hj Hy.
        -- by injection Hy as <-.
        -- apply (Hfirst j); [lia|done].
      * intros y [->|Hy]%elem_of_cons; [done|by apply IH].
Qed.

Lemma existsb_style_offered (l : list variant) (pref : string) :
  existsb (λ w, bool_decide (variant_style w = Some pref)) l = true
  ↔ pref ∈ omap variant_style l.
Proof.
  rewrite existsb_exists, list_elem_of_omap. split.
  - intros (w & Hw & He). exists w. split; [by apply list_elem_of_In|].
    by apply bool_decide_eq_true in He.
  - intros (w & Hw & He). exists w. split; [by apply list_elem_of_In|].
    by apply bool_decide_eq_true.
Qed.

Lemma selectDefaultStyle_offered (vs : variants)
    (preferredStyles : list string) (st : string) :
  selectDefaultStyle vs preferredStyles = Some st → st ∈ offered vs.
Proof.
  destruct vs as [|[|x l]|[|v l]]; cbn [selectDefaultStyle offered]; try done.
  - destruct (List.find _ preferredStyles) as [pref|] eqn:Ef.
    + intros [= <-]. apply find_some in Ef as [_ Hx].
      by apply bool_decide_eq_true in Hx.
    + intros [= <-]. by left.
  - destruct (List.find _ preferredStyles) as [pref|] eqn:Ef.
    + intros [= <-]. apply find_some in Ef as [_ Hx].
      by apply existsb_style_offered in Hx.
    + unfold or_else. destruct (variant_style v) as [y|] eqn:Ev; [|done].
      case_bool_decide; [done|]. intros [= <-].
      apply list_elem_of_omap. exists v. split; [by left|done].
Qed.

End VaultFacts.

Section VaultClaims.

Import Client Vault.


(** The default style of a group.  The style chosen is one that the
    variants offer; it is the first of the preferred styles that the
    variants offer, when there is one, and the style of the first
    variant otherwise; nothing is chosen when there is no variant. *)
Theorem selectDefaultStyle_preferred (vs : variants)
    (preferredStyles : list string) :
  (∀ st, selectDefaultStyle vs preferredStyles = Some st → st ∈ offered vs)
  ∧ (∀ pref, pref ∈ preferredStyles → pref ∈ offered vs →
       ∃ i st, selectDefaultStyle vs preferredStyles = Some st
               ∧ preferredStyles !! i = Some st ∧ st ∈ offered vs
               ∧ ∀ j p, (j < i)%nat → preferredStyles !! j = Some p →
                        p ∉ offered vs)
  ∧ ((∀ pref, pref ∈ preferredStyles → pref ∉ offered vs) →
     selectDefaultStyle vs preferredStyles
     = match vs with
       | Missing => None
       | Styles l => head l
       | Variants l => v ← head l; or_else (variant_style v) None
       end)
  ∧ (offered vs = [] → selectDefaultStyle vs preferredStyles = None).
Proof.
  pose proof existsb_style_offered as Hoff.
  destruct vs as [|[|x l]|[|v l]]; cbn [selectDefaultStyle offered].
  - repeat split; try done. by intros pref _ ?%elem_of_nil.
  - repeat split; try done. by intros pref _ ?%elem_of_nil.
  - pose proof (find_first (λ pref, bool_decide (pref ∈ x :: l))
                           preferredStyles) as Hf.
    destruct (List.find _ preferredStyles) as [pref|].
    + destruct Hf as (i & Hi & Hx%bool_decide_eq_true & Hfirst).
      split; [by intros st [= <-]|]. split; [|split; [|done]].
      * intros _ _ _. exists i, pref. repeat split; try done.
        intros j p Hj Hp. specialize (Hfirst j p Hj Hp).
        by apply bool_decide_eq_false in Hfirst.
      * intros Hnone. exfalso. apply (Hnone pref); [|done].
        by eapply list_elem_of_lookup_2.
    + split; [intros st [= <-]; by left|]. split; [|split; [done|done]].
      intros pref Hp Ho. specialize (Hf pref Hp).
      apply bool_decide_eq_false in Hf. done.
  - repeat split; try done. by intros pref _ ?%elem_of_nil.
  - pose proof (find_first
        (λ pref, existsb (λ w, bool_decide (variant_style w = Some pref))
                         (v :: l)) preferredStyles) as Hf.
    destruct (List.find _ preferredStyles) as [pref|].
    + destruct Hf as (i & Hi & Hx%Hoff & Hfirst).
      split; [by intros st [= <-]|]. split; [|split].
      * intros _ _ _. exists i, pref. repeat split; try done.
        intros j p Hj Hp. specialize (Hfirst j p Hj Hp).
        rewrite <- Hoff. by rewrite Hfirst.
      * intros Hnone. exfalso. apply (Hnone pref); [|done].
        by eapply list_elem_of_lookup_2.
      * intros Hempty. rewrite Hempty in Hx. by apply elem_of_nil in Hx.
    + split; [|split; [|split]].
      * intros st Hst. unfold or_else in Hst.
        destruct (variant_style v) as [y|] eqn:Ev; [|done].
        case_bool_decide; [done|]. injection Hst as <-.
        apply list_elem_of_omap. exists v. split; [by left|done].
      * intros pref Hp Ho. specialize (Hf pref Hp).
        apply Hoff in Ho. congruence.
      * done.
      * intros Hempty. unfold or_else.
        destruct (variant_style v) as [y|] eqn:Ev; [|done].
        assert (y ∈ omap variant_style (v :: l)) as Hy.
        { apply list_elem_of_omap. exists v. split; [by left|done]. }
        rewrite Hempty in Hy. by apply elem_of_nil in Hy.
Qed.

End VaultClaims.

Section GroupedFacts.

Import Client Vault Grouped.

(** ** The map of results *)

Lemma credit_keys (rs : scored) (key : string) (data : group) (points : Z) :
  ∀ k, k ∈ (credit rs key data points).*1 ↔ k ∈ rs.*1 ∨ k = key.
Proof.
  induction rs as [|[k0 [g0 s0]] rs IH]; intros k; simpl.
  - rewrite list_elem_of_singleton, elem_of_nil. tauto.
  - case_bool_decide as He; simpl.
    + subst k0. rewrite elem_of_cons. tauto.
    + rewrite !elem_of_cons, IH. tauto.
Qed.

Lemma credit_keyed (rs : scored) (data : group) (points : Z) :
  5 ≤ points → keyed rs → keyed (credit rs (key_of data) data points).
Proof.
  intros Hp [Hnd Hk]. split.
  - clear Hk. induction rs as [|[k0 [g0 s0]] rs IH]; simpl.
    + apply NoDup_singleton.
    + apply NoDup_cons in Hnd as [Hk0 Hnd].
      case_bool_decide as He; simpl.
      * by apply NoDup_cons.
      * apply NoDup_cons. split; [|by apply IH].
        rewrite credit_keys. intros [?|?]; [done|congruence].
  - induction rs as [|[k0 [g0 s0]] rs IH]; simpl; intros k g score.
    + intros [= ? ? ?]%list_elem_of_singleton. subst. split; [done|lia].
    + apply NoDup_cons in Hnd as [Hk0 Hnd].
      assert (Hk' : ∀ k g score, (k, (g, score)) ∈ rs → k = key_of g ∧ 5 ≤ score).
      { intros ? ? ? ?. apply Hk. by right. }
      destruct (Hk k0 g0 s0) as [Hk1 Hs1]; [by left|].
      case_bool_decide as He; simpl.
      * intros [[= ? ? ?]|Hin]%elem_of_cons; [subst; split; [done|lia]|].
        by apply Hk'.
      * intros [[= ? ? ?]|Hin]%elem_of_cons; [by subst|]. by apply IH.
Qed.

Lemma credit_entries_keyed (term indexTerm : string) (entries : list entry)
    (rs : scored) :
  keyed rs → keyed (credit_entries term indexTerm entries rs).
Proof.
  unfold credit_entries. revert rs.
  induction entries as [|e entries IH]; intros rs Hrs; [done|].
  simpl. apply IH. apply credit_keyed; [|done].
  destruct (String.eqb indexTerm term); lia.
Qed.

Lemma credit_entries_keys (term indexTerm : string) (entries : list entry)
    (rs : scored) :
  ∀ k, k ∈ (credit_entries term indexTerm entries rs).*1
       ↔ k ∈ rs.*1 ∨ ∃ e, e ∈ entries ∧ k = key_of (group_of e).
Proof.
  unfold credit_entries. revert rs.
  induction entries as [|e entries IH]; intros rs k; simpl.
  - split; [by left|]. intros [?|(e & ?%elem_of_nil & _)]; done.
  - rewrite IH, credit_keys. split.
    + intros [[?| ->]|(e' & He' & ->)]; [by left| |].
      * right. exists e. split; [by left|done].
      * right. exists e'. split; [by right|done].
    + intros [?|(e' & [->|He']%elem_of_cons & ->)]; [tauto|tauto|].
      right. by exists e'.
Qed.

Lemma credit_term_keyed (ix : index) (rs : scored) (term : string) :
  keyed rs → keyed (credit_term ix rs term).
Proof.
  unfold credit_term. revert rs.
  induction ix as [|[t es] ix IH]; intros rs Hrs; [done|].
  simpl. apply IH.
  destruct (Ranking.includes t term || Ranking.includes term t); [|done].
  by apply credit_entries_keyed.
Qed.

Lemma credit_term_keys (ix : index) (rs : scored) (term : string) :
  ∀ k, k ∈ (credit_term ix rs term).*1
       ↔ k ∈ rs.*1
         ∨ ∃ t es e, (t, es) ∈ ix ∧ e ∈ es ∧ k = key_of (group_of e)
                     ∧ Ranking.includes t term || Ranking.includes term t = true.
Proof.
  unfold credit_term. revert rs.
  induction ix as [|[t es] ix IH]; intros rs k; simpl.
  - split; [by left|]. intros [?|(? & ? & ? & ?%elem_of_nil & _)]; done.
  - rewrite IH.
    destruct (Ranking.includes t term || Ranking.includes term t) eqn:E.
    + rewrite credit_entries_keys. split.
      * intros [[?|(e & He & ->)]|(t' & es' & e & Hin & He & -> & Hi)].
        -- by left.
        -- right. exists t, es, e. split; [by left|done].
        -- right. exists t', es', e. split; [by right|done].
      * intros [?|(t' & es' & e & [[= -> ->]|Hin]%elem_of_cons & He & -> & Hi)].
        -- tauto.
        -- left. right. by exists e.
        -- right. by exists t', es', e.
    + split.
      * intros [?|(t' & es' & e & Hin & He & -> & Hi)]; [by left|].
        right. exists t', es', e. split; [by right|done].
      * intros [?|(t' & es' & e & [[= -> ->]|Hin]%elem_of_cons & He & -> & Hi)].
        -- tauto.
        -- congruence.
        -- right. by exists t', es', e.
Qed.

Lemma matches_keyed (ix : index) (terms : list string) :
  keyed (matches ix terms).
Proof.
  unfold matches.
  assert (∀ rs, keyed rs → keyed (foldl (credit_term ix) rs terms)) as H.
  { induction terms as [|t terms IH]; intros rs Hrs; [done|].
    simpl. apply IH. by apply credit_term_keyed. }
  apply H. split; [constructor|]. by intros k g score ?%elem_of_nil.
Qed.

Lemma matches_keys (ix : index) (terms : list string) (k : string) :
  k ∈ (matches ix terms).*1
  ↔ ∃ term t es e, term ∈ terms ∧ (t, es) ∈ ix ∧ e ∈ es
                   ∧ k = key_of (group_of e)
                   ∧ Ranking.includes t term || Ranking.includes term t = true.
Proof.
  unfold matches.
  assert (∀ rs, k ∈ (foldl (credit_term ix) rs terms).*1
                ↔ k ∈ rs.*1
                  ∨ ∃ term t es e, term ∈ terms ∧ (t, es) ∈ ix ∧ e ∈ es
                      ∧ k = key_of (group_of e)
                      ∧ Ranking.includes t term || Ranking.includes term t
                        = true) as H.
  { induction terms as [|term terms IH]; intros rs; simpl.
    - split; [by left|].
      intros [?|(? & ? & ? & ? & ?%elem_of_nil & _)]; done.
    - rewrite IH, credit_term_keys. split.
      + intros [[?|(t & es & e & ?)]|(term' & t & es & e & Ht & ?)].
        * by left.
        * right. exists term, t, es, e. split; [by left|done].
        * right. exists term', t, es, e. split; [by right|done].
      + intros [?|(term' & t & es & e & [-> |Ht]%elem_of_cons & ?)].
        * tauto.
        * left. right. by exists t, es, e.
        * right. by exists term', t, es, e. }
  rewrite H. simpl. rewrite elem_of_nil. tauto.
Qed.

(** ** The search index *)

Lemma push_elem (ix : index) (term : string) (e : entry) :
  ∃ es, (term, es) ∈ push ix term e ∧ e ∈ es.
Proof.
  induction ix as [|[t es] ix IH]; simpl.
  - exists [e]. split; by left.
  - case_bool_decide as He.
    + subst t. exists (es ++ [e]). split; [by left|].
      apply elem_of_app. right. by left.
    + destruct IH as (es' & H1 & H2). exists es'. split; [by right|done].
Qed.

Lemma push_mono (ix : index) (term : string) (e : entry) (t : string)
    (es : list entry) (x : entry) :
  (t, es) ∈ ix → x ∈ es →
  ∃ es', (t, es') ∈ push ix term e ∧ x ∈ es'.
Proof.
  induction ix as [|[t0 es0] ix IH]; simpl; [by intros ?%elem_of_nil|].
  intros [[= -> ->]|Hin]%elem_of_cons Hx.
  - case_bool_decide.
    + exists (es0 ++ [e]). split; [by left|]. apply elem_of_app. by left.
    + exists es0. split; [by left|done].
  - destruct (IH Hin Hx) as (es' & H1 & H2). case_bool_decide.
    + exists es. split; [by right|done].
    + exists es'. split; [by right|done].
Qed.

Lemma push_terms_holds (terms : list string) (ix : index) (e : entry) :
  (∀ t x, holds ix t x →
          holds (foldl (λ ix' term, push ix' term e) ix terms) t x)
  ∧ ∀ t, t ∈ terms →
         holds (foldl (λ ix' term, push ix' term e) ix terms) t e.
Proof.
  revert ix. induction terms as [|term terms IH]; intros ix; simpl.
  - split; [done|]. by intros t ?%elem_of_nil.
  - destruct (IH (push ix term e)) as [H1 H2]. split.
    + intros t x (es & Hin & Hx). apply H1. by eapply push_mono.
    + intros t [-> |Ht]%elem_of_cons; [|by apply H2].
      apply H1. apply push_elem.
Qed.

Lemma buildSearchIndex_holds (data : list entry) (e : entry) (t : string) :
  e ∈ data → t ∈ terms_of e → holds (buildSearchIndex data) t e.
Proof.
  unfold buildSearchIndex.
  assert (∀ ix,
            (∀ t x, holds ix t x →
               holds (foldl (λ ix e, foldl (λ ix' term, push ix' term e) ix
                                           (terms_of e)) ix data) t x)
            ∧ (e ∈ data → t ∈ terms_of e →
               holds (foldl (λ ix e, foldl (λ ix' term, push ix' term e) ix
                                           (terms_of e)) ix data) t e)) as H.
  { induction data as [|d data IH]; intros ix; simpl.
    - split; [done|]. by intros ?%elem_of_nil.
    - destruct (IH (foldl (λ ix' term, push ix' term d) ix (terms_of d)))
        as [H1 H2].
      destruct (push_terms_holds (terms_of d) ix d) as [P1 P2].
      split.
      + intros t' x Hx. by apply H1, P1.
      + intros [-> |He]%elem_of_cons Ht; [|by apply H2].
        by apply H1, P2. }
  apply H.
Qed.

Lemma add_elem (x y : string) (terms : list string) :
  y ∈ add x terms ↔ y ∈ terms ∨ y = x.
Proof.
  unfold add. case_bool_decide as H.
  - split; [by left|]. by intros [?| ->].
  - by rewrite elem_of_app, list_elem_of_singleton.
Qed.

Lemma name_of_terms (e : entry) : name_of e ∈ terms_of e.
Proof.
  assert (∀ c n tags src,
            Ranking.toLowerCase (default "" (or_else (or_else c n) (Some "")))
            ∈ extractTerms c n tags src) as H.
  { intros c n tags src. unfold extractTerms.
    set (nm := Ranking.toLowerCase _).
    assert (∀ (A : Type) (f : list string → A → list string) l t0,
              (∀ ts a, nm ∈ ts → nm ∈ f ts a) → nm ∈ t0 → nm ∈ foldl f t0 l)
      as Hfold.
    { intros A f l. induction l as [|a l IH]; intros t0 Hf H0; [done|].
      simpl. apply IH; [done|]. by apply Hf. }
    assert (nm ∈ foldl (λ ts tag, add (Ranking.toLowerCase tag) ts)
              (foldl (λ ts part, if bool_decide (1 < String.length part)%nat
                                 then add part ts else ts)
                     (add nm []) (split_dash nm)) (default [] tags)) as H3.
    { apply Hfold; [intros ts a Hin; apply add_elem; by left|].
      apply Hfold.
      - intros ts a Hin. case_bool_decide; [|done]. apply add_elem. by left.
      - apply add_elem. by right. }
    destruct (truthy src); [apply add_elem; by left|done]. }
  destruct e as [g|it]; simpl; apply H.
Qed.

(** ** Items and groups *)

Lemma getItem_flatten (groups : list group) (x : string) :
  match getItem groups x with
  | Some r => id r = x ∧ name r = None
              ∧ ∃ it, it ∈ flattenGroups groups ∧ id it = x
                      ∧ canonical_name it = canonical_name r
                      ∧ source_id it = source_id r ∧ style it = style r
                      ∧ tags it = tags r
  | None => x ∉ map id (flattenGroups groups)
  end.
Proof.
  induction groups as [|g groups IH]; simpl.
  - apply not_elem_of_nil.
  - destruct (List.find _ (default [] (group_variants g))) as [v|] eqn:E.
    + apply find_some in E as [Hin He]. apply String.eqb_eq in He.
      simpl. split; [done|]. split; [done|].
      eexists. split.
      * apply elem_of_app. left. apply list_elem_of_fmap_2.
        apply list_elem_of_In, Hin.
      * done.
    + destruct (getItem groups x) as [r|].
      * destruct IH as (H1 & H2 & it & Hit & H3). split; [done|].
        split; [done|]. exists it. split; [|done].
        apply elem_of_app. by right.
      * rewrite map_app, elem_of_app. intros [Hx|Hx]; [|done].
        apply list_elem_of_fmap in Hx as (it & -> & Hit).
        apply list_elem_of_fmap in Hit as (v & -> & Hv). simpl in *.
        apply list_elem_of_In in Hv.
        pose proof (find_none _ _ E v Hv) as Hn. simpl in Hn.
        by rewrite String.eqb_refl in Hn.
Qed.

End GroupedFacts.

Section GroupedClaims.

Import Client Vault Grouped.

Lemma StronglySorted_take {A : Type} (R : A → A → Prop) (n : nat) (l : list A) :
  StronglySorted R l → StronglySorted R (take n l).
Proof.
  intros H. revert n. induction H as [|x l Hl IH Hx]; intros [|n]; simpl;
    try constructor; [apply IH|].
  rewrite Forall_forall in *. intros y Hy. apply Hx.
  eapply elem_of_sublist; [exact Hy|apply sublist_take].
Qed.

Lemma slice0_take {A : Type} (l : list A) (e : Z) : ∃ n, slice0 l e = take n l.
Proof. unfold slice0. destruct (e <? 0); eauto. Qed.

Lemma ranked_sublist (ix : index) (query : string) (o : options) :
  ∃ l, ranked ix query o `sublist_of` l
       ∧ l ≡ₚ filter (λ r, wanted o r.1 = true)
                     (map snd (matches ix (queryTerms query))).
Proof.
  unfold ranked. eexists. split; [apply slice0_sublist|].
  apply sort_Permutation.
Qed.

Lemma matches_groups_NoDup (ix : index) (terms : list string) :
  NoDup (map (λ r : group * Z, key_of r.1) (map snd (matches ix terms))).
Proof.
  destruct (matches_keyed ix terms) as [Hnd Hk].
  assert (map (λ r : group * Z, key_of r.1) (map snd (matches ix terms))
          = (matches ix terms).*1) as ->; [|done].
  generalize dependent (matches ix terms). intros rs _ Hk.
  induction rs as [|[k [g sc]] rs IH]; [done|]. simpl. f_equal.
  - symmetry. apply (Hk k g sc). by left.
  - apply IH. intros ? ? ? ?. apply Hk. by right.
Qed.

(** [searchGrouped]: the results.  At most [limit] groups are
    returned, no group twice (no two results share source and name),
    in descending order of their scores; every result passes the
    filters of the options and has a score of at least 5, earned by an
    entry of the index one of whose terms contains a word of the query
    or is contained in it; and the default style given for a group is
    one its variants offer. *)
Theorem searchGrouped_results (ix : index) (query : string) (o : options) :
  (0 ≤ limit o → Z.of_nat (List.length (searchGrouped ix query o)) ≤ limit o)
  ∧ NoDup (map (λ r, key_of r.1) (searchGrouped ix query o))
  ∧ map fst (searchGrouped ix query o) = map fst (ranked ix query o)
  ∧ StronglySorted (λ a b, b.2 ≤ a.2) (ranked ix query o)
  ∧ (∀ g score, (g, score) ∈ ranked ix query o →
       5 ≤ score ∧ wanted o g = true
       ∧ ∃ term t es e,
           term ∈ queryTerms query ∧ (t, es) ∈ ix ∧ e ∈ es
           ∧ key_of g = key_of (group_of e)
           ∧ Ranking.includes t term || Ranking.includes term t = true)
  ∧ (∀ g st, (g, Some st) ∈ searchGrouped ix query o →
       st ∈ offered (variants_of g)).
Proof.
  destruct (ranked_sublist ix query o) as (l & Hsub & Hperm).
  split; [|split; [|split; [|split; [|split]]]].
  - intros Hl. unfold searchGrouped, ranked, slice0.
    rewrite length_map. rewrite (proj2 (Z.ltb_ge (limit o) 0)) by lia.
    rewrite length_take. lia.
  - unfold searchGrouped. rewrite map_map. simpl.
    eapply sublist_NoDup; [|apply fmap_sublist, Hsub].
    change (NoDup (map (λ r : group * Z, key_of r.1) l)).
    rewrite Hperm.
    eapply sublist_NoDup; [apply matches_groups_NoDup|].
    apply fmap_sublist, sublist_filter.
  - unfold searchGrouped. by rewrite map_map.
  - unfold ranked. destruct (slice0_take
      (JSArray.sort (λ a b : group * Z, b.2 - a.2)
         (filter (λ r, wanted o r.1 = true)
                 (map snd (matches ix (queryTerms query))))) (limit o))
      as [n ->].
    apply StronglySorted_take.
    set (cmp := λ a b : group * Z, b.2 - a.2).
    assert (Hs : ∀ l0, StronglySorted (JSArray.before cmp) (JSArray.sort cmp l0)).
    { intros l0. apply sort_StronglySorted; unfold JSArray.before, cmp;
        intros; lia. }
    specialize (Hs (filter (λ r, wanted o r.1 = true)
                           (map snd (matches ix (queryTerms query))))).
    induction Hs as [|x l0 Hl IH Hx]; constructor; [exact IH|].
    eapply Forall_impl; [exact Hx|].
    intros y. unfold JSArray.before, cmp. lia.
  - intros g score Hin.
    eapply elem_of_sublist in Hin; [|exact Hsub].
    rewrite Hperm in Hin.
    apply list_elem_of_filter in Hin as [Hw Hin]. simpl in Hw.
    apply list_elem_of_fmap in Hin as ([k [g' sc]] & [= <- <-] & Hin).
    destruct (matches_keyed ix (queryTerms query)) as [_ Hk].
    destruct (Hk k g score Hin) as [-> Hs].
    split; [done|]. split; [done|].
    apply matches_keys. apply list_elem_of_fmap. by exists (key_of g, (g, score)).
  - intros g st Hin. unfold searchGrouped in Hin.
    apply list_elem_of_fmap in Hin as ([g' sc] & [= <- Hst] & _).
    by apply (selectDefaultStyle_offered _ (preferredStyles o)).
Qed.

(** [searchGrouped] finds what the index holds.  With the index built
    by [_buildSearchIndex], no filter and a limit that does not cut the
    results, every group or item one of whose search terms contains a
    word of the query, or is contained in it, is among the results
    (under its source and name); its lower-cased name is one of its
    search terms. *)
Theorem searchGrouped_complete (data : list entry) (query : string)
    (o : options) (e : entry) (term : string) :
  e ∈ data → term ∈ queryTerms query →
  sourceId o = None → wanted_tags o = None →
  Z.of_nat (List.length (matches (buildSearchIndex data) (queryTerms query)))
  ≤ limit o →
  (∀ t, t ∈ terms_of e →
        Ranking.includes t term || Ranking.includes term t = true →
        key_of (group_of e)
        ∈ map (λ r, key_of r.1) (searchGrouped (buildSearchIndex data) query o))
  ∧ (Ranking.includes (name_of e) term = true →
     key_of (group_of e)
     ∈ map (λ r, key_of r.1) (searchGrouped (buildSearchIndex data) query o)).
Proof.
  intros He Hterm Hsrc Htags Hlimit.
  assert (Hall : ∀ t, t ∈ terms_of e →
            Ranking.includes t term || Ranking.includes term t = true →
            key_of (group_of e)
            ∈ map (λ r, key_of r.1)
                  (searchGrouped (buildSearchIndex data) query o)).
  { intros t Ht Hinc.
    set (ix := buildSearchIndex data).
    assert (key_of (group_of e) ∈ (matches ix (queryTerms query)).*1) as Hk.
    { apply matches_keys.
      destruct (buildSearchIndex_holds data e t He Ht) as (es & Hes & Hin).
      by exists term, t, es, e. }
    apply list_elem_of_fmap in Hk as ([k [g sc]] & Hkey & Hin). simpl in Hkey.
    destruct (matches_keyed ix (queryTerms query)) as [_ Hkeyed].
    destruct (Hkeyed k g sc Hin) as [-> _].
    unfold searchGrouped. rewrite map_map. simpl.
    assert ((g, sc) ∈ ranked ix query o) as Hr.
    { unfold ranked. rewrite slice0_all.
      - rewrite sort_Permutation. apply list_elem_of_filter. split.
        + unfold wanted. simpl. rewrite Hsrc, Htags. done.
        + apply list_elem_of_fmap. by exists (key_of g, (g, sc)).
      - rewrite sort_Permutation.
        etrans; [|exact Hlimit]. apply inj_le.
        etrans; [apply length_filter|]. by rewrite length_map. }
    rewrite Hkey. apply list_elem_of_fmap. by exists (g, sc). }
  split; [exact Hall|].
  intros Hinc. apply (Hall (name_of e)); [apply name_of_terms|].
  by rewrite Hinc.
Qed.

(** Items of a grouped index can be opened by their id.  [getItem]
    finds an id exactly when [_flattenGroups] has an item of that id,
    so every item that [search] returns over a grouped index is found;
    the item found has that id and the source, name, style and tags of
    an item of [_flattenGroups] with that id. *)
Theorem getItem_finds_flattened (groups : list group) :
  (∀ x, is_Some (getItem groups x) ↔ x ∈ map id (flattenGroups groups))
  ∧ (∀ query o it, it ∈ search (flattenGroups groups) query o →
       is_Some (getItem groups (id it)))
  ∧ (∀ x r, getItem groups x = Some r →
       id r = x ∧ name r = None
       ∧ ∃ it, it ∈ flattenGroups groups ∧ id it = x
               ∧ canonical_name it = canonical_name r
               ∧ source_id it = source_id r ∧ style it = style r
               ∧ tags it = tags r).
Proof.
  assert (H1 : ∀ x, is_Some (getItem groups x)
                    ↔ x ∈ map id (flattenGroups groups)).
  { intros x. pose proof (getItem_flatten groups x) as H.
    destruct (getItem groups x) as [r|].
    - destruct H as (Hid & _ & it & Hit & Hx & _). split; [|eauto].
      intros _. rewrite <- Hx. by apply list_elem_of_fmap_2.
    - split; [by intros [? ?]|done]. }
  split; [exact H1|]. split.
  - intros query o it Hit. apply H1. apply list_elem_of_fmap_2.
    unfold search in Hit.
    eapply elem_of_sublist in Hit; [|apply slice0_sublist].
    by apply list_elem_of_filter in Hit as [_ ?].
  - intros x r Hr. pose proof (getItem_flatten groups x) as H.
    by rewrite Hr in H.
Qed.

End GroupedClaims.

(* ================================================================== *)
(** * Properties of the tree of sources and of the zoom                *)
(* ================================================================== *)

Section TreeFacts.

Import Sidebar Tree.

Lemma count_ids_sum (sources : list source) (count : Z) (ids : list string) :
  count_ids sources count ids
  = count + foldr Z.add 0 (map (count_of sources) ids).
Proof.
  revert count. induction ids as [|id ids IH]; intros count; simpl; [lia|].
  unfold count_ids in *. simpl. rewrite IH. unfold count_of.
  destruct (find_source sources id); lia.
Qed.

Lemma countSourcesInBranch_from_sum (sources : list source) (b : branch) :
  ∀ count,
    countSourcesInBranch_from sources count b
    = count + foldr Z.add 0 (map (count_of sources) (getSourceIdsInBranch b)).
Proof.
  induction b using branch_value_ind with
    (P0 := λ v, match v with
                | Arr _ => True
                | Obj sub =>
                    ∀ count,
                      countSourcesInBranch_from sources count sub
                      = count + foldr Z.add 0
                                  (map (count_of sources)
                                       (getSourceIdsInBranch sub))
                end); try done.
  - intros count. simpl. lia.
  - intros count. simpl. rewrite IHb0, map_app, foldr_app.
    assert (∀ (l : list Z) a, foldr Z.add a l = a + foldr Z.add 0 l) as Hf.
    { induction l as [|x l IHl]; intros a; simpl; [lia|]. rewrite IHl. lia. }
    rewrite (Hf _ (foldr Z.add 0 _)).
    destruct v as [ids|sub].
    + assert ((if bool_decide (key = "_sources")
               then count_ids sources count ids
               else count_ids sources count ids)
              = count_ids sources count ids) as -> by (by case_bool_decide).
      assert ((if bool_decide (key = "_sources") then ids else ids) = ids)
        as -> by (by case_bool_decide).
      rewrite count_ids_sum. lia.
    + rewrite (IHb 0). lia.
Qed.

Lemma findInBranch_ids (branchName : string) (b : branch) :
  ∀ id, id ∈ findInBranch branchName b → id ∈ getSourceIdsInBranch b.
Proof.
  induction b using branch_value_ind with
    (P0 := λ v, match v with
                | Arr _ => True
                | Obj sub => ∀ id, id ∈ findInBranch branchName sub →
                                   id ∈ getSourceIdsInBranch sub
                end); try done.
  intros id. simpl. rewrite elem_of_app. case_bool_decide as Hk.
  - destruct v as [ids|sub]; [|by left]. left. by case_bool_decide.
  - destruct v as [ids|sub]; [intros ?; right; by apply IHb0|].
    destruct (findInBranch branchName sub) as [|x l] eqn:E.
    + intros ?. right. by apply IHb0.
    + intros Hin. left. by apply IHb.
Qed.

End TreeFacts.

Section TreeClaims.

Import Ranking Sidebar Tree Zoom.

(** The tree of sources.  The count shown at a branch is the sum, over
    the source ids under the branch, of the counts of the sources that
    [this.sources] has (an id without a source counts nothing).  The
    ids found for a branch name are ids of the tree, and once the
    branch is unchecked no item of one of these sources passes the
    filters. *)
Theorem branch_count_is_sum (sources : list source) (b : branch) :
  countSourcesInBranch sources b
  = foldr Z.add 0 (map (count_of sources) (getSourceIdsInBranch b))
  ∧ (∀ branchName id, id ∈ findInBranch branchName b →
       id ∈ getSourceIdsInBranch b)
  ∧ (∀ branchName f items it,
       it ∈ applyFilters (branchChange f (findInBranch branchName b) false)
                         sources items →
       s it ∉ findInBranch branchName b).
Proof.
  split; [|split].
  - unfold countSourcesInBranch. rewrite countSourcesInBranch_from_sum. lia.
  - intros branchName. apply findInBranch_ids.
  - intros branchName f items it.
    generalize (findInBranch branchName b). intros ids.
    assert (∀ f0 x, x ∈ ids →
              x ∈ excludedSources (branchChange f0 ids false)) as Hb.
    { induction ids as [|i ids IH]; intros f0 x Hx;
        [by apply elem_of_nil in Hx|].
      unfold branchChange. simpl.
      destruct (decide (x ∈ ids)) as [Hin|Hnin]; [by apply IH|].
      apply elem_of_cons in Hx as [->|Hx]; [|done].
      clear IH Hnin. revert f0. induction ids as [|j ids IH]; intros f0.
      - simpl. apply elem_of_union. left. by apply elem_of_singleton.
      - simpl.
        assert (handleSourceChange (handleSourceChange f0 i false) j false
                = handleSourceChange (handleSourceChange f0 j false) i false)
          as ->; [|apply IH].
        unfold handleSourceChange. simpl. f_equal.
        apply set_eq. intros y. rewrite !elem_of_union. tauto. }
    intros (Hp & _)%elem_of_applyFilters Hin.
    unfold passes in Hp. rewrite bool_decide_eq_true_2 in Hp; [done|].
    by apply Hb.
Qed.

(** The zoom buttons keep the zoom between 10% and 400%: from a zoom
    in this range, [zoomIn] gives a larger one, at most 400, and
    [zoomOut] a smaller one, at least 10; at 400 [zoomIn] changes
    nothing, at 10 [zoomOut] changes nothing.  A zoom of 0 is left as
    it is by both. *)
Theorem zoom_stays_in_range (z : Z) :
  (10 ≤ z ≤ 400 →
   10 ≤ zoomIn z ≤ 400 ∧ 10 ≤ zoomOut z ≤ 400
   ∧ (z < 400 → z < zoomIn z) ∧ (10 < z → zoomOut z < z))
  ∧ zoomIn 400 = 400 ∧ zoomOut 10 = 10
  ∧ zoomIn 0 = 0 ∧ zoomOut 0 = 0
  ∧ (1 ≤ z → z ≤ zoomIn z ≤ Z.max z 400)
  ∧ (z ≤ 400 → Z.min z 10 ≤ zoomOut z ≤ z).
Proof.
  unfold zoomIn, zoomOut.
  split; [|split; [done|split; [done|split; [done|split; [done|split]]]]].
  - intros Hz. destruct (z <? 400) eqn:E1, (10 <? z) eqn:E2;
      try apply Z.ltb_lt in E1; try apply Z.ltb_ge in E1;
      try apply Z.ltb_lt in E2; try apply Z.ltb_ge in E2;
      pose proof (Z.div_mod (3 * z + 1) 2 ltac:(lia));
      pose proof (Z.mod_pos_bound (3 * z + 1) 2 ltac:(lia));
      pose proof (Z.div_mod (4 * z + 3) 6 ltac:(lia));
      pose proof (Z.mod_pos_bound (4 * z + 3) 6 ltac:(lia)); lia.
  - intros Hz. destruct (z <? 400) eqn:E1;
      try apply Z.ltb_lt in E1; try apply Z.ltb_ge in E1;
      pose proof (Z.div_mod (3 * z + 1) 2 ltac:(lia));
      pose proof (Z.mod_pos_bound (3 * z + 1) 2 ltac:(lia)); lia.
  - intros Hz. destruct (10 <? z) eqn:E2;
      try apply Z.ltb_lt in E2; try apply Z.ltb_ge in E2;
      pose proof (Z.div_mod (4 * z + 3) 6 ltac:(lia));
      pose proof (Z.mod_pos_bound (4 * z + 3) 6 ltac:(lia)); lia.
Qed.

End TreeClaims.

Section DebounceFacts.

Import Ranking Coordinator Debounce.

Variable enabledProviders : list string.
Variable passes : item → bool.

Lemma filter_delete_length {A : Type} (P : A → bool) (l : list A) (i : nat)
    (x : A) :
  l !! i = Some x →
  List.length (filter (λ t, P t = true) l)
  = (List.length (filter (λ t, P t = true) (base.delete i l))
     + (if P x then 1 else 0))%nat.
Proof.
  revert i. induction l as [|a l IH]; intros i Hi; [done|].
  destruct i as [|i]; simpl in Hi.
  - injection Hi as ->. simpl. destruct (P x) eqn:E.
    + rewrite filter_cons_True by done. simpl. lia.
    + rewrite filter_cons_False by congruence. lia.
  - simpl. rewrite !(filter_cons _ a). specialize (IH i Hi).
    destruct (decide (P a = true)); simpl; lia.
Qed.

Lemma live_none (current : nat) (ts : list task) :
  List.length (filter (λ t, live current t = true) ts) = 0%nat →
  ∀ t, t ∈ ts → live current t = false.
Proof.
  intros Hl t Ht. destruct (live current t) eqn:E; [|done].
  assert (t ∈ filter (λ t, live current t = true) ts) as Hin
    by (by apply list_elem_of_filter).
  destruct (filter _ ts); [by apply elem_of_nil in Hin|done].
Qed.

Lemma live_all_false (current : nat) (ts : list task) :
  (∀ t, t ∈ ts → live current t = false) →
  filter (λ t, live current t = true) ts = [].
Proof.
  intros H. induction ts as [|a ts IH]; [done|].
  rewrite filter_cons_False.
  - apply IH. intros t Ht. apply H. by right.
  - rewrite (H a); [done|by left].
Qed.

Lemma debounced_performSearch (st : state) (query : string) :
  debounced st → debounced (performSearch st query).
Proof.
  intros (Hone & Htimer & Hle). unfold performSearch.
  set (ts := match apiSearchDebounceTimer st with
             | Some h => clearTimeout h (tasks st)
             | None => tasks st
             end).
  assert (Hsub : ∀ t, t ∈ ts → t ∈ tasks st ∧ is_Timer t = false).
  { intros t. unfold ts. destruct (apiSearchDebounceTimer st) as [h|] eqn:Eh.
    - unfold clearTimeout. rewrite list_elem_of_filter. intros [Hf Hin].
      split; [done|]. specialize (Htimer t Hin).
      destruct t; try done. destruct Htimer as [[= ->] _]. simpl in Hf.
      by rewrite bool_decide_eq_true_2 in Hf.
    - intros Hin. split; [done|]. specialize (Htimer t Hin).
      destruct t; try done. by destruct Htimer. }
  assert (Hdead : filter (λ t, live (S (currentSearchId st)) t = true) ts = []).
  { apply live_all_false. intros t Ht. destruct (Hsub t Ht) as [Hin Hnt].
    destruct t as [i q|h i q r|i q r|g]; simpl; try done.
    - apply bool_decide_eq_false_2.
      pose proof (Hle _ i Hin eq_refl). lia.
    - apply bool_decide_eq_false_2.
      pose proof (Hle _ i Hin eq_refl). lia. }
  assert (Hle' : ∀ t i, t ∈ ts → captured t = Some i →
                        (i ≤ S (currentSearchId st))%nat).
  { intros t i Ht Hc. destruct (Hsub t Ht) as [Hin _].
    pose proof (Hle t i Hin Hc). lia. }
  assert (Htimer' : ∀ t, t ∈ ts →
            match t with
            | Timer h searchId _ _ =>
                None = Some h ∧ searchId = S (currentSearchId st)
            | _ => True
            end).
  { intros t Ht. destruct (Hsub t Ht) as [_ Hnt]. by destruct t. }
  case_bool_decide; unfold debounced; simpl.
  - split; [|split].
    + rewrite filter_app, Hdead, app_nil_l.
      etrans; [apply length_filter|done].
    + intros t [Ht|Ht]%elem_of_app; [by apply Htimer'|].
      by apply list_elem_of_singleton in Ht as ->.
    + intros t i [Ht|Ht]%elem_of_app Hc; [by apply (Hle' t)|].
      apply list_elem_of_singleton in Ht as ->. done.
  - split; [|split].
    + rewrite filter_app, Hdead, app_nil_l.
      etrans; [apply length_filter|done].
    + intros t [Ht|Ht]%elem_of_app; [by apply Htimer'|].
      by apply list_elem_of_singleton in Ht as ->.
    + intros t i [Ht|Ht]%elem_of_app Hc; [by apply (Hle' t)|].
      apply list_elem_of_singleton in Ht as ->. simpl in Hc.
      injection Hc as <-. lia.
Qed.

Lemma debounced_resume (st : state) (i : nat) (t : task)
    (r : outcome (list item)) :
  tasks st !! i = Some t → debounced st →
  debounced (resume enabledProviders passes (without i st) t r).
Proof.
  intros Hi (Hone & Htimer & Hle).
  pose proof (filter_delete_length (live (currentSearchId st)) (tasks st) i t Hi)
    as Hlen.
  assert (Hw : debounced (without i st)).
  { unfold debounced, without. simpl. split; [lia|]. split.
    - intros t' Ht'. apply Htimer. by eapply list_elem_of_delete_inv.
    - intros t' j Ht'. apply Hle. by eapply list_elem_of_delete_inv. }
  assert (Hzero : live (currentSearchId st) t = true →
            ∀ t', t' ∈ base.delete i (tasks st) →
                  live (currentSearchId st) t' = false).
  { intros Hl. apply live_none. rewrite Hl in Hlen. lia. }
  destruct Hw as (Hone' & Htimer' & Hle').
  destruct t as [c q|h c q sr|c q sr|g]; simpl.
  - unfold afterStatic. destruct r as [rs|m].
    + case_bool_decide as Hc; [done|]. simpl in Hc.
      try apply dec_stable in Hc. subst c.
      assert (Hnone : ∀ t', t' ∈ base.delete i (tasks st) →
                            live (currentSearchId st) t' = false).
      { apply Hzero. simpl. by apply bool_decide_eq_true_2. }
      case_bool_decide; unfold debounced; simpl.
      * done.
      * split; [|split].
        -- rewrite filter_app, (live_all_false _ _ Hnone), app_nil_l.
           etrans; [apply length_filter|done].
        -- intros t' [Ht'|Ht']%elem_of_app.
           ++ specialize (Hnone t' Ht'). by destruct t'.
           ++ by apply list_elem_of_singleton in Ht' as ->.
        -- intros t' j [Ht'|Ht']%elem_of_app Hc'; [by eapply Hle'|].
           apply list_elem_of_singleton in Ht' as ->. simpl in Hc'.
           injection Hc' as <-. done.
    + case_bool_decide; done.
  - unfold timerFired. case_bool_decide as Hc; [done|]. simpl in Hc.
    try apply dec_stable in Hc. subst c.
    assert (Hnone : ∀ t', t' ∈ base.delete i (tasks st) →
                          live (currentSearchId st) t' = false)
      by (by apply Hzero).
    unfold debounced; simpl. split; [|split].
    + rewrite filter_app, (live_all_false _ _ Hnone), app_nil_l.
      etrans; [apply length_filter|done].
    + intros t' [Ht'|Ht']%elem_of_app; [by apply Htimer'|].
      by apply list_elem_of_singleton in Ht' as ->.
    + intros t' j [Ht'|Ht']%elem_of_app Hc'; [by eapply Hle'|].
      apply list_elem_of_singleton in Ht' as ->. simpl in Hc'.
      injection Hc' as <-. done.
  - unfold afterApi. destruct r as [rs|m]; [|done].
    case_bool_decide; done.
  - done.
Qed.

Lemma debounced_run (es : list event) (st : state) :
  debounced st → debounced (run enabledProviders passes st es).
Proof.
  revert st. induction es as [|e es IH]; intros st Hst; [done|].
  simpl. apply IH. destruct e as [q|i r]; simpl.
  - by apply debounced_performSearch.
  - destruct (tasks st !! i) as [t|] eqn:Hi; [|done].
    by apply debounced_resume.
Qed.

End DebounceFacts.

Section DebounceClaims.

Import Ranking Coordinator Debounce.

(** The provider search is debounced.  Whatever the user types and in
    whatever order the pending continuations run, at any moment at most
    one timer is pending, it is the one [apiSearchDebounceTimer] holds
    and it belongs to the current generation; and of the current
    generation at most one task is under way that leads to a provider
    search: the static search that sets the timer, the timer, or the
    provider search in flight. *)
Theorem api_search_debounced (enabledProviders : list string)
    (passes : item → bool) (es : list event) :
  let st := run enabledProviders passes initial es in
  (List.length (filter (λ t, is_Timer t = true) (tasks st)) ≤ 1)%nat
  ∧ (∀ h i q r, Timer h i q r ∈ tasks st →
       apiSearchDebounceTimer st = Some h ∧ i = currentSearchId st)
  ∧ (List.length (filter (λ t, live (currentSearchId st) t = true) (tasks st))
     ≤ 1)%nat.
Proof.
  intros st.
  assert (Hd : debounced st).
  { apply debounced_run. unfold debounced, initial. simpl.
    split; [lia|]. split; [by intros t ?%elem_of_nil|].
    by intros t i ?%elem_of_nil. }
  destruct Hd as (Hone & Htimer & _).
  split; [|split; [|done]].
  - etrans; [|exact Hone]. generalize (tasks st). intros ts.
    induction ts as [|t ts IH]; [done|].
    destruct (is_Timer t) eqn:E.
    + rewrite filter_cons_True by done.
      rewrite (filter_cons_True (λ t, live _ t = true)) by (by destruct t).
      simpl. lia.
    + rewrite filter_cons_False by congruence. etrans; [exact IH|].
      rewrite (filter_cons (λ t, live _ t = true)).
      destruct (decide _); simpl; lia.
  - intros h i q r Hin. apply (Htimer _ Hin).
Qed.

End DebounceClaims.

Section DisplayClaims.

Import Ranking Display.

Lemma StronglySorted_app_elem {A : Type} (R : A → A → Prop) (l1 l2 : list A) :
  StronglySorted R (l1 ++ l2) → ∀ a b, a ∈ l1 → b ∈ l2 → R a b.
Proof.
  induction l1 as [|x l1 IH]; intros Hs a b Ha Hb;
    [by apply elem_of_nil in Ha|].
  simpl in Hs. apply StronglySorted_inv in Hs as [Hs Hx].
  apply elem_of_cons in Ha as [->|Ha]; [|by apply IH].
  rewrite Forall_forall in Hx. apply Hx. apply elem_of_app. by right.
Qed.

(** The cards of a search are the best results.  [displayResults]
    shows at most 200 of the ranked results, all of them when there
    are no more than 200; every result shown scores at least as much
    as every result left out; and the two counts of the status line
    add up to the number of results. *)
Theorem displayed_are_best (results : list item) (query : string) :
  let ranked := rankResults results query in
  (List.length (displayResults ranked) ≤ 200)%nat
  ∧ ((List.length results ≤ 200)%nat → displayResults ranked = ranked)
  ∧ displayResults ranked ++ hidden ranked ≡ₚ results
  ∧ (∀ a b, a ∈ displayResults ranked → b ∈ hidden ranked →
       getMatchScore b query ≤ getMatchScore a query)
  ∧ (staticCount ranked + apiCount ranked)%nat = List.length results.
Proof.
  intros ranked.
  assert (Hp : ranked ≡ₚ results) by apply sort_Permutation.
  split; [|split; [|split; [|split]]].
  - unfold displayResults. rewrite length_take. lia.
  - intros Hl. unfold displayResults. apply take_ge. by rewrite Hp.
  - unfold displayResults, hidden. by rewrite take_drop.
  - intros a b Ha Hb.
    set (cmp := λ a b : item, getMatchScore b query - getMatchScore a query).
    assert (Hs : StronglySorted (JSArray.before cmp) ranked).
    { apply sort_StronglySorted; unfold JSArray.before, cmp; intros; lia. }
    rewrite <- (take_drop 200 ranked) in Hs.
    pose proof (StronglySorted_app_elem _ _ _ Hs a b Ha Hb) as H.
    unfold JSArray.before, cmp in H. lia.
  - unfold staticCount, apiCount. rewrite <- Hp.
    generalize ranked. intros l. induction l as [|x l IH]; [done|].
    rewrite !(filter_cons _ x). simpl.
    destruct (apiItem x); simpl; lia.
Qed.

End DisplayClaims.

(* ================================================================== *)
(** * The statements above at concrete inputs                          *)
(* ================================================================== *)

(** The file of ["us"] is fetched for the query ["user"]; the query
    ["us"] is then answered from it although the network is down. *)
Lemma prefix_file_loaded_once_witness :
  ∃ lib',
    Sidebar.searchStaticIndex Scenarios.no_filters [] Scenarios.fresh_library
      "user" (Fulfilled [Examples.user_icon; Examples.us_flag])
    = (lib', Fulfilled [Examples.user_icon])
    ∧ Sidebar.searchStaticIndex Scenarios.no_filters [] lib' "us"
        (Rejected "offline")
      = (lib', Fulfilled [Examples.user_icon; Examples.us_flag]).
Proof.
  destruct (prefix_file_loaded_once Scenarios.no_filters []
              Scenarios.fresh_library "user"
              [Examples.user_icon; Examples.us_flag])
    as (lib' & H1 & H2 & _).
  - compute_done.
  - reflexivity.
  - exists lib'. split; [exact H1|].
    apply (H2 Scenarios.no_filters [] "us" (Rejected "offline")). reflexivity.
Defined.

(** Two prefix files sharing an item, shuffled by reversal: three items
    are shown, each once. *)
Lemma displayItems_spec_witness :
  Sidebar.displayItems reverse Scenarios.no_filters [] Scenarios.two_files
  = Fulfilled [Examples.us_flag; Examples.delete_icon; Examples.user_icon]
  ∧ NoDup (map Ranking.id
             [Examples.us_flag; Examples.delete_icon; Examples.user_icon]).
Proof.
  split; [reflexivity|].
  destruct (displayItems_spec reverse Scenarios.no_filters []
              Scenarios.two_files
              [Examples.us_flag; Examples.delete_icon; Examples.user_icon])
    as (_ & H2 & _).
  - intros items. apply reverse_Permutation.
  - reflexivity.
  - exact H2.
Defined.

(** Pexels answers the query ["sunset"] at time 0; a minute later the
    answer is given again although the request fails. *)
Lemma api_answer_reused_witness :
  ∃ c1,
    Providers.search true "pexels" "sunset" (Fulfilled [Examples.us_photo]) 0 ∅
    = (c1, Fulfilled [Examples.us_photo])
    ∧ Providers.search true "pexels" "sunset" (Rejected "HTTP 500") 60000 c1
      = (c1, Fulfilled [Examples.us_photo]).
Proof.
  destruct (api_answer_reused "pexels" "sunset" [Examples.us_photo] 0 ∅)
    as (c1 & H1 & H2 & _).
  - reflexivity.
  - exists c1. split; [exact H1|]. apply H2. reflexivity.
Defined.

(** [clear()] on a cache with an entry the index does not list: the
    entry of [a] goes, the entry of [c] is still returned. *)
Lemma clear_removes_indexed_witness :
  ∃ s', Cache.clear Examples.unbounded 4 1 Scenarios.stray None = Some s'
        ∧ Cache.items s' !! "a" = None
        ∧ ∃ s'', Cache.get Examples.unbounded 4 1 s' "c" 5
                 = Some (s'', Some "value of c").
Proof.
  destruct (clear_removes_indexed Examples.unbounded 4 0 Scenarios.stray None
              (λ _, eq_refl)) as (s' & H1 & H2 & _ & H4).
  exists s'. split; [exact H1|]. split.
  - apply H2; [compute_done|reflexivity].
  - apply (H4 "c" (Cache.Entry "value of c" 1000 2) 5).
    + compute_done.
    + reflexivity.
    + simpl. lia.
Defined.



(** The query ["Left"] finds the item [arrow-left] through its term
    ["left"]. *)
Lemma searchGrouped_complete_witness :
  "lucide:arrow-left"
  ∈ map (λ r, Grouped.key_of r.1)
        (Grouped.searchGrouped (Grouped.buildSearchIndex Scenarios.icons)
           "Left" Scenarios.no_options).
Proof.
  refine (proj2 (searchGrouped_complete Scenarios.icons "Left"
                   Scenarios.no_options (Grouped.OfItem Scenarios.arrow_left)
                   "left" _ _ _ _ _) _).
  - by left.
  - by left.
  - reflexivity.
  - reflexivity.
  - by vm_compute.
  - reflexivity.
Defined.
